(** * Tennis.API: the identifier generator, the resolver, the normalizers and
      the HTTP handlers, embedded from the Python sources.

    How Python is modelled.
    - [str] is [string]: a sequence of characters with code points 0 to
      255, which is the domain of the model.  On these the character
      classes behind [upper], [lower], [isdigit], [split], [strip] and the
      regular expressions are Python's Unicode ones: the white space
      includes U+0085 and U+00A0, [isdigit] also holds of the superscripts
      U+00B2, U+00B3 and U+00B9, the decimal digits of [\d] and [int] are
      0-9, and the letters U+00C0-U+00DE have lower-case forms.  The
      upper-case form of a string can leave the domain and is a list of
      code points.
    - What [json.loads] returns is the inductive [json].  A [dict] is an
      association list in insertion order; a dict built by the program
      keeps its keys unique the way Python does.
    - [int] is [Z] ([bool] counts as an [int] where Python lets it), and
      [int(s)] on a string of more than 4300 digits raises [ValueError],
      the interpreter's default limit.  A finite [float] is the rational
      it denotes.
    - A raised exception is the [Raise] case of [result]; a handler runs in
      the monad [M], which reads the outside world ([env]: the upstream
      service and the registry file) and threads the state of the process
      ([world]: the registry cache and the log of outbound requests).
    - What only the interpreter decides is a field of [runtime]. *)

From Stdlib Require Import ZArith QArith List String Ascii Bool Lia.
From Stdlib Require Import Permutation Sorted DecimalString DecimalPos.
Import ListNotations.

Open Scope string_scope.
Open Scope list_scope.
Open Scope Z_scope.

Set Default Proof Using "Type".

(* ================================================================= *)
(** ** Python strings *)

Definition code (c : ascii) : N := N_of_ascii c.

Definition in_range (lo hi : N) (c : ascii) : bool :=
  ((lo <=? code c) && (code c <=? hi))%N.

(** A decimal digit, as [\d] and [int] take it: of the code points
    below 256 these are 0-9. *)
Definition is_digit (c : ascii) : bool := in_range 48 57 c.

(** A digit as [str.isdigit] takes it: a decimal digit or one of the
    superscripts two, three and one (U+00B2, U+00B3, U+00B9). *)
Definition is_digit_character (c : ascii) : bool :=
  is_digit c || (code c =? 178)%N || (code c =? 179)%N || (code c =? 185)%N.
Definition is_upper_letter (c : ascii) : bool := in_range 65 90 c.
Definition is_lower_letter (c : ascii) : bool := in_range 97 122 c.
Definition is_alnum (c : ascii) : bool :=
  is_upper_letter c || is_lower_letter c || is_digit c.

(** The characters [str.split()] and [str.strip()] take as white space:
    tab, line feed, vertical tab, form feed, carriage return, the four
    separators 0x1c-0x1f, the space, the next-line control U+0085 and the
    no-break space U+00A0. *)
Definition is_space (c : ascii) : bool :=
  in_range 9 13 c || in_range 28 32 c
  || (code c =? 133)%N || (code c =? 160)%N.

(** The letters U+00C0-U+00DE (all but the multiplication sign U+00D7)
    and their lower-case forms U+00E0-U+00FE (all but the division sign
    U+00F7). *)
Definition is_upper_latin (c : ascii) : bool :=
  in_range 192 214 c || in_range 216 222 c.
Definition is_lower_latin (c : ascii) : bool :=
  in_range 224 246 c || in_range 248 254 c.

(** The code points of a string. *)
Definition points (s : string) : list N :=
  map code (list_ascii_of_string s).

(** [c.upper()], as code points: the upper-case forms of the micro sign
    (U+039C) and of y with diaeresis (U+0178) are above 255, and that of
    the sharp s is the two letters SS. *)
Definition upper_char (c : ascii) : list N :=
  if is_lower_letter c || is_lower_latin c then [(code c - 32)%N]
  else if (code c =? 181)%N then [924%N]
  else if (code c =? 223)%N then [83%N; 83%N]
  else if (code c =? 255)%N then [376%N]
  else [code c].

(** [c.lower()] *)
Definition lower_char (c : ascii) : ascii :=
  if is_upper_letter c || is_upper_latin c then ascii_of_N (code c + 32)
  else c.

Fixpoint map_string (f : ascii -> ascii) (s : string) : string :=
  match s with
  | EmptyString => EmptyString
  | String c r => String (f c) (map_string f r)
  end.

Definition upper (s : string) : list N :=
  flat_map upper_char (list_ascii_of_string s).
Definition lower : string -> string := map_string lower_char.

Fixpoint all_chars (p : ascii -> bool) (s : string) : bool :=
  match s with
  | EmptyString => true
  | String c r => p c && all_chars p r
  end.

Definition is_empty (s : string) : bool :=
  match s with EmptyString => true | _ => false end.

(** [str.isdigit()]: at least one character, and all of them digits. *)
Definition isdigit (s : string) : bool :=
  negb (is_empty s) && all_chars is_digit_character s.

Fixpoint lstrip (s : string) : string :=
  match s with
  | String c r => if is_space c then lstrip r else s
  | EmptyString => EmptyString
  end.

Fixpoint rev_string (s acc : string) : string :=
  match s with
  | EmptyString => acc
  | String c r => rev_string r (String c acc)
  end.

Definition rstrip (s : string) : string :=
  rev_string (lstrip (rev_string s "")) "".

Definition strip (s : string) : string := rstrip (lstrip s).

(** [str.split()] without arguments: the maximal runs of non-space
    characters, in order.  [cur] is the run being read. *)
Fixpoint split_from (s cur : string) : list string :=
  match s with
  | EmptyString => if is_empty cur then [] else [cur]
  | String c r =>
      if is_space c
      then (if is_empty cur then split_from r "" else cur :: split_from r "")
      else split_from r (cur ++ String c "")
  end.

Definition split (s : string) : list string := split_from s "".

(** The leading run of characters satisfying [p], and what follows it. *)
Fixpoint span (p : ascii -> bool) (s : string) : string * string :=
  match s with
  | String c r =>
      if p c then let (a, b) := span p r in (String c a, b) else ("", s)
  | EmptyString => ("", "")
  end.

Definition digit_value (c : ascii) : Z := Z.of_N (code c) - 48.

(** [int(s)] on a string of decimal digits. *)
Fixpoint int_of_digits_from (s : string) (acc : Z) : Z :=
  match s with
  | EmptyString => acc
  | String c r => int_of_digits_from r (10 * acc + digit_value c)
  end.

Definition int_of_digits (s : string) : Z := int_of_digits_from s 0.

(** [str(n)] for an [int]. *)
Definition str_of_int (n : Z) : string :=
  match n with
  | Z0 => "0"
  | Zpos p => NilEmpty.string_of_uint (Pos.to_uint p)
  | Zneg p => "-" ++ NilEmpty.string_of_uint (Pos.to_uint p)
  end.

Fixpoint zeros (n : nat) : string :=
  match n with
  | O => ""
  | S k => String "0" (zeros k)
  end.

(** The format [{n:03d}]: sign, then zeros up to a total width of three,
    then the decimal digits; a longer number is not cut. *)
Definition format_03d (n : Z) : string :=
  let sign := if n <? 0 then "-" else "" in
  let digits := str_of_int (Z.abs n) in
  sign ++ zeros (3 - String.length sign - String.length digits) ++ digits.

(** [range(lo, hi)]: the [len] numbers from [lo] on. *)
Fixpoint range_from (lo : Z) (len : nat) : list Z :=
  match len with
  | O => []
  | S k => lo :: range_from (lo + 1) k
  end.

Definition range (lo hi : Z) : list Z := range_from lo (Z.to_nat (hi - lo)).

(* ================================================================= *)
(** ** Python values *)

(** A [float]: not-a-number, an infinity, or a finite value kept as the
    rational it denotes (so that [1.0 == 1] and [-0.0 == 0] are decided
    exactly, as Python does). *)
Inductive pyfloat : Type :=
| FNan
| FInf (negative : bool)
| FFin (q : Q).

(** What [json.loads] builds.  [JNull] is [None]. *)
#[warnings="-register-all"]
Inductive json : Type :=
| JNull
| JBool (b : bool)
| JInt (n : Z)
| JFloat (f : pyfloat)
| JStr (s : string)
| JList (l : list json)
| JDict (d : list (string * json)).

Definition pydict : Type := list (string * json).

(** Truth value of an object, as [if x], [not x] and [x or y] take it. *)
Definition truthy (v : json) : bool :=
  match v with
  | JNull => false
  | JBool b => b
  | JInt n => negb (n =? 0)
  | JFloat FNan => true
  | JFloat (FInf _) => true
  | JFloat (FFin q) => negb (Qeq_bool q 0)
  | JStr s => negb (is_empty s)
  | JList l => match l with [] => false | _ => true end
  | JDict d => match d with [] => false | _ => true end
  end.

(** [a or b] *)
Definition py_or (a b : json) : json := if truthy a then a else b.

Definition is_dict (v : json) : bool :=
  match v with JDict _ => true | _ => false end.

(** [isinstance(v, int)]: [bool] is a subclass of [int]. *)
Definition int_value (v : json) : option Z :=
  match v with
  | JInt n => Some n
  | JBool b => Some (if b then 1 else 0)
  | _ => None
  end.

Fixpoint lookup (d : pydict) (k : string) : option json :=
  match d with
  | [] => None
  | (k', v) :: r => if String.eqb k' k then Some v else lookup r k
  end.

(** [k in d] *)
Definition contains (d : pydict) (k : string) : bool :=
  match lookup d k with Some _ => true | None => false end.

(** [d.get(k, default)] *)
Definition get_default (d : pydict) (k : string) (default : json) : json :=
  match lookup d k with Some v => v | None => default end.

(** [d.get(k)] *)
Definition get (d : pydict) (k : string) : json := get_default d k JNull.

(** [d[k] = v]: an existing key keeps its place. *)
Fixpoint dict_set (d : pydict) (k : string) (v : json) : pydict :=
  match d with
  | [] => [(k, v)]
  | (k', v') :: r =>
      if String.eqb k' k then (k', v) :: r else (k', v') :: dict_set r k v
  end.

(* ----------------------------------------------------------------- *)
(** *** Exceptions *)

Inductive pyexn : Type :=
| HTTPException (status_code : Z) (detail : string)
| TimeoutException        (* httpx: subclass of RequestError *)
| ConnectError            (* httpx: subclass of RequestError *)
| InvalidURL              (* httpx: not a RequestError *)
| TypeError
| ValueError
| OverflowError
| AttributeError.

(** [except httpx.RequestError] catches exactly these. *)
Definition is_request_error (e : pyexn) : bool :=
  match e with
  | TimeoutException | ConnectError => true
  | _ => false
  end.

Inductive result (A : Type) : Type :=
| Return (a : A)
| Raise (e : pyexn).

Arguments Return {A} a.
Arguments Raise {A} e.

Definition rbind {A B : Type} (r : result A) (k : A -> result B) : result B :=
  match r with
  | Return a => k a
  | Raise e => Raise e
  end.

(** The status the framework answers with: 200 for a returned value, the
    status of an [HTTPException], 500 for any other exception. *)
Definition status_of {A : Type} (r : result A) : Z :=
  match r with
  | Return _ => 200
  | Raise (HTTPException s _) => s
  | Raise _ => 500
  end.

(* ----------------------------------------------------------------- *)
(** *** The process state and the outside world *)

(** What one [client.get(url)] does: it raises, or it returns a response
    with a status and a body; [body = None] when [resp.json()] raises. *)
Inductive http_outcome : Type :=
| Fails (e : pyexn)
| Responds (status_code : Z) (body : option json).

Record response : Type := mkResponse {
  resp_status : Z;
  resp_body : option json
}.

(** The registry file on disk. *)
Inductive registry_file : Type :=
| FileMissing
| FileInvalidJson
| FileItems (items : list pydict).

Definition registry : Type := list (string * pydict).

Record env : Type := mkEnv {
  upstream : string -> http_outcome;
  tournament_registry_file : registry_file
}.

(** The state a request can change: the module-level registry cache, and
    the outbound requests issued so far (oldest first). *)
Record world : Type := mkWorld {
  _TOURNAMENTS_CACHE : option registry;
  requests : list string
}.

Definition M (A : Type) : Type := env -> world -> result A * world.

Definition ret {A : Type} (a : A) : M A := fun _ w => (Return a, w).

Definition raise {A : Type} (e : pyexn) : M A := fun _ w => (Raise e, w).

Definition bind {A B : Type} (m : M A) (k : A -> M B) : M B :=
  fun e w =>
    match m e w with
    | (Return a, w') => k a e w'
    | (Raise x, w') => (Raise x, w')
    end.

Definition lift {A : Type} (r : result A) : M A := fun _ w => (r, w).

Declare Scope py_scope.
Delimit Scope py_scope with py.
Notation "x <- m ;; k" := (bind m (fun x => k))
  (at level 61, m at next level, right associativity) : py_scope.
Notation "x <-- r ;; k" := (rbind r (fun x => k))
  (at level 61, r at next level, right associativity) : py_scope.
Open Scope py_scope.

(** [await client.get(url)] *)
Definition client_get (url : string) : M response :=
  fun e w =>
    let w' := mkWorld (_TOURNAMENTS_CACHE w) (requests w ++ [url]) in
    match upstream e url with
    | Fails x => (Raise x, w')
    | Responds s b => (Return (mkResponse s b), w')
    end.

(* ================================================================= *)
(** ** utils/match_ids.py *)

Definition generate_match_ids (draw_size : json) : list string :=
  match int_value draw_size with
  | None => []
  | Some n =>
      if n <? 2 then []
      else
        let total_matches := n - 1 in
        map (fun i => ("ms" ++ format_03d i)%string) (range 1 (total_matches + 1))
  end.

Definition generate_qualifier_ids (max_qualy : json) : list string :=
  match int_value max_qualy with
  | None => []
  | Some n =>
      if n <=? 0 then []
      else map (fun i => ("qs" ++ format_03d i)%string) (range 1 (n + 1))
  end.

(* ================================================================= *)
(** ** utils/atp_h2h.py *)

Definition BASE_H2H_URL : string :=
  "https://www.atptour.com/en/-/tour/Head2HeadSearch/GetHead2HeadData".

Definition newline : ascii := ascii_of_N 10.

(** [Some t] when [s] is [t] followed by one final line feed.  A pattern
    that ends in [$] matches at the end of the string and also just before
    a line feed that ends it. *)
Fixpoint drop_last_newline (s : string) : option string :=
  match s with
  | EmptyString => None
  | String c EmptyString => if Ascii.eqb c newline then Some "" else None
  | String c r =>
      match drop_last_newline r with
      | Some t => Some (String c t)
      | None => None
      end
  end.

(** A whole string matched by a pattern that ends in [$]. *)
Definition match_to_dollar {A : Type} (body : string -> option A)
    (s : string) : option A :=
  match body s with
  | Some m => Some m
  | None =>
      match drop_last_newline s with
      | Some t => body t
      | None => None
      end
  end.

(** [[A-Za-z0-9]+] over the whole of [s] *)
Definition alnum_plus (s : string) : option unit :=
  if negb (is_empty s) && all_chars is_alnum s then Some tt else None.

(** [_PLAYER_CODE_RE.match(s)] for [^[A-Za-z0-9]+$], as a truth value *)
Definition _PLAYER_CODE_RE_match (s : string) : bool :=
  match match_to_dollar alnum_plus s with Some _ => true | None => false end.

(** [(\d+)(?:\((\d+)\))?] over the whole of [s]: the two groups. *)
Definition set_token_body (s : string) : option (string * option string) :=
  let (digits, rest) := span is_digit s in
  if is_empty digits then None
  else
    match rest with
    | EmptyString => Some (digits, None)
    | String "(" r =>
        let (tb, rest') := span is_digit r in
        if is_empty tb then None
        else if String.eqb rest' ")" then Some (digits, Some tb)
        else None
    | _ => None
    end.

(** [_SET_TOKEN_RE.match(tok)] for [^(\d+)(?:\((\d+)\))?$] *)
Definition _SET_TOKEN_RE_match (tok : string)
  : option (string * option string) :=
  match_to_dollar set_token_body tok.

Definition h2h_url (player1_id player2_id : string) : string :=
  (BASE_H2H_URL ++ "/" ++ player1_id ++ "/" ++ player2_id)%string.

Definition fetch_head_to_head (player1_id player2_id : string) : M json :=
  if negb (_PLAYER_CODE_RE_match player1_id)
     || negb (_PLAYER_CODE_RE_match player2_id)
  then raise (HTTPException 400
         "Player IDs must be alphanumeric ATP player codes (e.g., DH58)")
  else
    let url := h2h_url player1_id player2_id in
    fun e w =>
      match client_get url e w with
      | (Raise x, w') =>
          if is_request_error x
          then (Raise (HTTPException 502 "Upstream ATP request failed"), w')
          else (Raise x, w')
      | (Return resp, w') =>
          if resp_status resp =? 404
          then (Raise (HTTPException 404 "Head-to-head not found"), w')
          else if negb (resp_status resp =? 200)
          then (Raise (HTTPException 502
                  ("Upstream ATP error (status "
                     ++ str_of_int (resp_status resp) ++ ")")%string), w')
          else
            match resp_body resp with
            | Some j => (Return j, w')
            | None =>
                (Raise (HTTPException 502
                          "Upstream ATP returned invalid JSON"), w')
            end
      end.

(** One entry of a parsed result string. *)
Record parsed_set : Type := mkParsedSet {
  ps_set : Z;
  ps_p1 : Z;
  ps_p2 : Z;
  ps_tiebreak : option Z
}.

Definition non_completion_markers : list string :=
  ["RET"; "W/O"; "WO"; "DEF"; "ABN"; "BYE"; "CANC"].

Definition first_char (s : string) : ascii :=
  match s with String c _ => c | EmptyString => zero end.

Definition second_char (s : string) : ascii :=
  match s with String _ r => first_char r | EmptyString => zero end.

Fixpoint points_eqb (a b : list N) : bool :=
  match a, b with
  | [], [] => true
  | x :: a', y :: b' => (x =? y)%N && points_eqb a' b'
  | _, _ => false
  end.

(** [upper in {"RET", "W/O", "WO", "DEF", "ABN", "BYE", "CANC"}] *)
Definition in_markers (upper_tok : list N) : bool :=
  existsb (fun m => points_eqb upper_tok (points m)) non_completion_markers.

(** The most digits [int(s)] converts: [sys.int_info.default_max_str_digits]. *)
Definition INT_MAX_STR_DIGITS : N := 4300.

(** [int(s)] on a string of decimal digits; leading zeros count towards
    the limit. *)
Definition py_int_of_digits (s : string) : result Z :=
  if (INT_MAX_STR_DIGITS <? N.of_nat (String.length s))%N
  then Raise ValueError
  else Return (int_of_digits s).

(** [int(tb) if tb else None]; a group that took part in the match is a
    string that is not empty. *)
Definition tiebreak_of (tb : option string) : result (option Z) :=
  match tb with
  | Some t => n <-- py_int_of_digits t ;; Return (Some n)
  | None => Return None
  end.

(** The [for tok in tokens] loop, with its two variables [set_num] and
    [out]; [break] returns [out] as it stands. *)
Fixpoint parse_tokens (tokens : list string) (set_num : Z)
    (out : list parsed_set) : result (list parsed_set) :=
  match tokens with
  | [] => Return out
  | tok :: rest =>
      let upper_tok := upper tok in
      if in_markers upper_tok then Return out
      else
        match _SET_TOKEN_RE_match tok with
        | None => parse_tokens rest set_num out
        | Some (digits, tb) =>
            if (String.length digits <? 2)%nat
            then parse_tokens rest set_num out
            else
              let p1_games := digit_value (first_char digits) in
              let p2_games := digit_value (second_char digits) in
              let set_num' := set_num + 1 in
              tiebreak <-- tiebreak_of tb ;;
              parse_tokens rest set_num'
                (out ++ [mkParsedSet set_num' p1_games p2_games tiebreak])
        end
  end.

(** [out or None] *)
Definition sets_or_none (out : list parsed_set) : option (list parsed_set) :=
  match out with
  | [] => None
  | _ => Some out
  end.

(** [parse_result_string(result)]; [None] is Python's [None]. *)
Definition parse_result_string (result_string : json)
  : result (option (list parsed_set)) :=
  match result_string with
  | JStr s =>
      if is_empty s then Return None
      else
        let tokens := split (strip s) in
        out <-- parse_tokens tokens 0 [] ;;
        Return (sets_or_none out)
  | _ => Return None
  end.

Definition json_of_option_int (o : option Z) : json :=
  match o with Some n => JInt n | None => JNull end.

Definition json_of_parsed_set (p : parsed_set) : json :=
  JDict [("set", JInt (ps_set p)); ("p1", JInt (ps_p1 p));
         ("p2", JInt (ps_p2 p));
         ("tiebreak", json_of_option_int (ps_tiebreak p))].

Definition json_of_sets (o : option (list parsed_set)) : json :=
  match o with
  | Some l => JList (map json_of_parsed_set l)
  | None => JNull
  end.

(** [v.get(k)] on a value that need not be a dict. *)
Definition attr_get (v : json) (k : string) : result json :=
  match v with
  | JDict d => Return (get d k)
  | _ => Raise AttributeError
  end.

Fixpoint chars_of (s : string) : list json :=
  match s with
  | EmptyString => []
  | String c r => JStr (String c "") :: chars_of r
  end.

(** [for x in v]: the elements of a list, the keys of a dict, the
    characters of a string; nothing else can be iterated. *)
Definition py_iter (v : json) : result (list json) :=
  match v with
  | JList l => Return l
  | JDict d => Return (map (fun kv => JStr (fst kv)) d)
  | JStr s => Return (chars_of s)
  | _ => Raise TypeError
  end.

Fixpoint mapM {A B : Type} (f : A -> result B) (l : list A)
  : result (list B) :=
  match l with
  | [] => Return []
  | x :: r => y <-- f x ;; ys <-- mapM f r ;; Return (y :: ys)
  end.

Definition upstream_set (s : json) : result json :=
  set_number <-- attr_get s "SetNumber" ;;
  player_games <-- attr_get s "SetScore" ;;
  player_tiebreak <-- attr_get s "TieBreakScore" ;;
  won_set <-- attr_get s "WonSet" ;;
  Return (JDict [("set_number", set_number); ("player_games", player_games);
                 ("player_tiebreak", player_tiebreak); ("won_set", won_set)]).

(** The body of the inner loop: the record appended for one match. *)
Definition flatten_h2h_match (tournament mt : pydict) : result json :=
  let tournament_name :=
    py_or (py_or (get tournament "TournamentName")
                 (get tournament "EventDisplayName"))
          (get tournament "EventName") in
  let year := get tournament "EventYear" in
  let surface := get tournament "Surface" in
  let indoor_outdoor := get tournament "InOutdoorDisplay" in
  let rnd := py_or (get mt "Round") (JDict []) in
  let round_short :=
    match rnd with JDict d => get d "ShortName" | _ => JNull end in
  let result := get mt "ResultString" in
  sets_from_result <--
    (if truthy result then parse_result_string result else Return None) ;;
  upstream_sets <--
    match get mt "PlayerTeam" with
    | JDict pt =>
        match pt, get pt "Sets" with
        | _ :: _, JList sets =>
            l <-- mapM upstream_set sets ;; Return (JList l)
        | _, _ => Return JNull
        end
    | _ => Return JNull
    end ;;
  Return (JDict [("tournament", tournament_name);
                 ("year", year);
                 ("round", round_short);
                 ("winner", get mt "Winner");
                 ("surface", surface);
                 ("indoor_outdoor", indoor_outdoor);
                 ("match_id", get mt "MatchId");
                 ("result", result);
                 ("sets", json_of_sets sets_from_result);
                 ("player_team", get mt "PlayerTeam");
                 ("opponent_team", get mt "OpponentTeam");
                 ("upstream_sets", upstream_sets);
                 ("match_stats_url", get mt "MatchStatsUrl");
                 ("reason", get mt "Reason")]).

(** The loop over the matches of one tournament; values that are not
    dicts are passed over. *)
Fixpoint flatten_h2h_match_list (tournament : pydict) (l : list json)
  : result (list json) :=
  match l with
  | [] => Return []
  | JDict mt :: r =>
      x <-- flatten_h2h_match tournament mt ;;
      xs <-- flatten_h2h_match_list tournament r ;;
      Return (x :: xs)
  | _ :: r => flatten_h2h_match_list tournament r
  end.

Fixpoint flatten_h2h_tournaments (l : list json) : result (list json) :=
  match l with
  | [] => Return []
  | JDict tournament :: r =>
      let match_list :=
        py_or (py_or (get tournament "MatchResults")
                     (get tournament "Matches"))
              (JList []) in
      ms <-- py_iter (py_or match_list (JList [])) ;;
      xs <-- flatten_h2h_match_list tournament ms ;;
      ys <-- flatten_h2h_tournaments r ;;
      Return (xs ++ ys)
  | _ :: r => flatten_h2h_tournaments r
  end.

Definition flatten_h2h_section (raw_json : json) (section : string)
  : result (list json) :=
  match raw_json with
  | JDict d =>
      ts <-- py_iter (py_or (get_default d section (JList [])) (JList [])) ;;
      flatten_h2h_tournaments ts
  | _ => Raise AttributeError
  end.

Definition flatten_h2h_matches (raw_json : json) : result (list json) :=
  a <-- flatten_h2h_section raw_json "Tournaments" ;;
  b <-- flatten_h2h_section raw_json "OtherTournaments" ;;
  Return (a ++ b).

(* ================================================================= *)
(** ** api/h2h.py *)

Definition get_head_to_head (player1_id player2_id : string) (flatten : bool)
  : M json :=
  fun e w =>
    let body : M json :=
      raw_json <- fetch_head_to_head player1_id player2_id ;;
      if negb flatten then ret raw_json
      else
        player_left <- lift (attr_get raw_json "playerLeft") ;;
        player_right <- lift (attr_get raw_json "playerRight") ;;
        flattened <- lift (flatten_h2h_matches raw_json) ;;
        ret (JDict [("playerLeft", player_left);
                    ("playerRight", player_right);
                    ("matches", JList flattened)]) in
    match body e w with
    | (Raise (HTTPException s d), w') => (Raise (HTTPException s d), w')
    | (Raise _, w') =>
        (Raise (HTTPException 500 "Failed to fetch head-to-head data"), w')
    | (Return v, w') => (Return v, w')
    end.

(* ================================================================= *)
(** ** Dictionaries and sets keyed by arbitrary objects *)

(** Lists and dicts cannot be hashed: using one as a key raises
    [TypeError]. *)
Definition hashable (k : json) : bool :=
  match k with
  | JList _ | JDict _ => false
  | _ => true
  end.

(** The number a [bool], an [int] or a finite [float] compares as. *)
Definition key_num (k : json) : option Q :=
  match k with
  | JBool b => Some (inject_Z (if b then 1 else 0))
  | JInt n => Some (inject_Z n)
  | JFloat (FFin q) => Some q
  | _ => None
  end.

(** Equality of two hashable keys, as a dict or a set decides it: numbers
    by value whatever their type ([True == 1 == 1.0]), strings by
    content.  The decoder hands out one object for every [NaN], which is
    therefore one key. *)
Definition key_eq (a b : json) : bool :=
  match key_num a, key_num b with
  | Some x, Some y => Qeq_bool x y
  | None, None =>
      match a, b with
      | JNull, JNull => true
      | JStr s, JStr t => String.eqb s t
      | JFloat FNan, JFloat FNan => true
      | JFloat (FInf s), JFloat (FInf t) => Bool.eqb s t
      | _, _ => false
      end
  | _, _ => false
  end.

(** A dict with object keys, in insertion order. *)
Definition kdict : Type := list (json * json).

(** [d[k] = v]: when an equal key is there already, that key object stays
    and only the value is replaced. *)
Fixpoint kdict_set (d : kdict) (k v : json) : kdict :=
  match d with
  | [] => [(k, v)]
  | (k', v') :: r =>
      if key_eq k' k then (k', v) :: r else (k', v') :: kdict_set r k v
  end.

Fixpoint kdict_get (d : kdict) (k : json) (default : json) : json :=
  match d with
  | [] => default
  | (k', v) :: r => if key_eq k' k then v else kdict_get r k default
  end.

Definition key_mem (k : json) (s : list json) : bool :=
  existsb (fun k' => key_eq k' k) s.

(** [a | b] on two sets: the elements of [a], then those of [b] that [a]
    has no equal of. *)
Definition set_union (a b : list json) : list json :=
  a ++ filter (fun k => negb (key_mem k a)) b.

(** [isinstance(k, int) and k >= 1] *)
Definition is_positive_int (k : json) : bool :=
  match int_value k with
  | Some n => 1 <=? n
  | None => false
  end.

Definition int_of (k : json) : Z :=
  match int_value k with Some n => n | None => 0 end.

(** [sorted] on a list of ints: a stable insertion sort. *)
Fixpoint insert_sorted (k : json) (l : list json) : list json :=
  match l with
  | [] => [k]
  | h :: t => if int_of k <? int_of h then k :: l else h :: insert_sorted k t
  end.

Definition sorted (l : list json) : list json :=
  fold_left (fun acc k => insert_sorted k acc) l [].

(** [{s.get("SetNumber"): s for s in sets if isinstance(s, dict)}] *)
Fixpoint by_set (sets : list json) (acc : kdict) : result kdict :=
  match sets with
  | [] => Return acc
  | JDict s :: r =>
      let k := get s "SetNumber" in
      if hashable k then by_set r (kdict_set acc k (JDict s))
      else Raise TypeError
  | _ :: r => by_set r acc
  end.

(** One entry of the normalized score list. *)
Record score_entry : Type := mkScoreEntry {
  se_set : json;
  se_p1 : json;
  se_p2 : json;
  se_tiebreak : option (json * json)
}.

Definition json_of_score_entry (s : score_entry) : json :=
  JDict [("set", se_set s); ("p1", se_p1 s); ("p2", se_p2 s);
         ("tiebreak",
          match se_tiebreak s with
          | None => JNull
          | Some (tb1, tb2) => JDict [("p1", tb1); ("p2", tb2)]
          end)].

Definition is_none (v : json) : bool :=
  match v with JNull => true | _ => false end.

(** [x.get(k)] where [x] came out of one of the by-set dicts or is the
    [{}] default. *)
Definition field (x : json) (k : string) : json :=
  match x with JDict d => get d k | _ => JNull end.

(** The body of [for n in set_numbers]. *)
Definition score_entry_for (p1_by_set p2_by_set : kdict) (n : json)
  : score_entry :=
  let s1 := kdict_get p1_by_set n (JDict []) in
  let s2 := kdict_get p2_by_set n (JDict []) in
  let tb1 := field s1 "TieBreakScore" in
  let tb2 := field s2 "TieBreakScore" in
  mkScoreEntry n (field s1 "SetScore") (field s2 "SetScore")
    (if is_none tb1 && is_none tb2 then None else Some (tb1, tb2)).

(** [v or None] for a list [v] already turned into JSON *)
Definition list_or_none (l : list json) : json :=
  match l with [] => JNull | _ => JList l end.

(* ================================================================= *)
(** ** api/matches.py *)

Definition BASE_HAWKEYE_URL : string :=
  "https://www.atptour.com/-/Hawkeye/MatchStats/Complete".

Definition MAX_QUALIFIERS : Z := 20.

Definition TOURNAMENT_REGISTRY_FILE_name : string := "tournament_registry.json".

Fixpoint reg_lookup (tournaments : registry) (k : string) : option pydict :=
  match tournaments with
  | [] => None
  | (k', t) :: r => if String.eqb k' k then Some t else reg_lookup r k
  end.

Fixpoint reg_set (tournaments : registry) (k : string) (t : pydict)
  : registry :=
  match tournaments with
  | [] => [(k, t)]
  | (k', t') :: r =>
      if String.eqb k' k then (k', t) :: r else (k', t') :: reg_set r k t
  end.

(** [_get(obj, path, default)]; [path] is given already split on the
    dots. *)
Fixpoint _get (cur : json) (path : list string) (default : json) : json :=
  match path with
  | [] => cur
  | key :: rest =>
      match cur with
      | JDict d =>
          match get d key with
          | JNull => default
          | v => _get v rest default
          end
      | _ => default
      end
  end.

Definition _has_match_id (payload : json) : bool :=
  match payload with
  | JDict d =>
      if match get d "Match" with
         | JDict m => truthy (get m "MatchId")
         | _ => false
         end
      then true
      else if truthy (get d "MatchId") then true
      else false
  | _ => false
  end.

Definition player_obj (p : json) : json :=
  match p with
  | JDict d =>
      if negb (truthy (get d "PlayerId")) then JNull
      else JDict [("player_id", get d "PlayerId");
                  ("first_name", get d "PlayerFirstName");
                  ("last_name", get d "PlayerLastName");
                  ("country", get d "PlayerCountry")]
  | _ => JNull
  end.

(** What the interpreter decides and the sources do not: the order in
    which a set hands out its elements, at each place of the program that
    walks one (the places are numbered); [int(s)] on a string ([None] for
    [ValueError]); and [str(v)] on a float, a list or a dict. *)
Record runtime : Type := mkRuntime {
  set_iteration_order : nat -> list json -> list json;
  int_of_str : string -> option Z;
  repr : json -> string
}.

Section Runtime.

Variable rt : runtime.

(** A set hands out each of its elements once. *)
Hypothesis set_iteration_order_perm :
  forall site l, Permutation (set_iteration_order rt site l) l.

(** [str(v)] *)
Definition py_str (v : json) : string :=
  match v with
  | JStr s => s
  | JNull => "None"
  | JBool true => "True"
  | JBool false => "False"
  | JInt n => str_of_int n
  | _ => repr rt v
  end.

(** [int(v)] *)
Definition py_int (v : json) : result Z :=
  match v with
  | JInt n => Return n
  | JBool b => Return (if b then 1 else 0)
  | JFloat (FFin q) => Return (Z.quot (Qnum q) (Zpos (Qden q)))
  | JFloat FNan => Raise ValueError
  | JFloat (FInf _) => Raise OverflowError
  | JStr s =>
      match int_of_str rt s with
      | Some n => Return n
      | None => Raise ValueError
      end
  | _ => Raise TypeError
  end.

(** [{str(t["Id"]): t for t in items if "Id" in t}] *)
Fixpoint build_registry (items : list pydict) (acc : registry) : registry :=
  match items with
  | [] => acc
  | t :: r =>
      if contains t "Id"
      then build_registry r (reg_set acc (py_str (get t "Id")) t)
      else build_registry r acc
  end.

Definition load_tournament_registry : M registry :=
  fun e w =>
    match _TOURNAMENTS_CACHE w with
    | Some cache => (Return cache, w)
    | None =>
        match tournament_registry_file e with
        | FileMissing =>
            (Raise (HTTPException 500
                      ("Missing data file: "
                         ++ TOURNAMENT_REGISTRY_FILE_name)%string), w)
        | FileInvalidJson =>
            (Raise (HTTPException 500
                      ("Invalid JSON in: "
                         ++ TOURNAMENT_REGISTRY_FILE_name)%string), w)
        | FileItems items =>
            let cache := build_registry items [] in
            (Return cache, mkWorld (Some cache) (requests w))
        end
    end.

(** The test of the name loop: [str(t.get("Name", "")).lower() == lowered] *)
Definition name_matches (lowered : string) (entry : string * pydict) : bool :=
  String.eqb (lower (py_str (get_default (snd entry) "Name" (JStr ""))))
             lowered.

Definition resolve_tournament_id (tournament_id_or_name : string)
    (tournaments : registry) : option string :=
  let key := tournament_id_or_name in
  match reg_lookup tournaments key with
  | Some _ => Some key
  | None =>
      let lowered := lower key in
      match find (name_matches lowered) tournaments with
      | Some (tid, _) => Some tid
      | None => if isdigit key then Some key else None
      end
  end.

Definition match_url (year : Z) (tournament_id match_id : string) : string :=
  (BASE_HAWKEYE_URL ++ "/" ++ str_of_int year ++ "/" ++ tournament_id
     ++ "/" ++ match_id)%string.

(** [fetch_match]; the [None] it returns is [JNull]. *)
Definition fetch_match (year : Z) (tournament_id match_id : string) : M json :=
  resp <- client_get (match_url year tournament_id match_id) ;;
  if negb (resp_status resp =? 200) then ret JNull
  else
    match resp_body resp with
    | Some j => ret j
    | None => ret JNull
    end.

(** The set numbers of the score: the sorted positive ints of the union
    of the two key sets.  The comprehension walks the union (place 0) and
    [sorted] walks the set the comprehension built (place 1). *)
Definition set_numbers_of (p1_by_set p2_by_set : kdict) : list json :=
  let union := set_union (map fst p1_by_set) (map fst p2_by_set) in
  let positive := filter is_positive_int (set_iteration_order rt 0 union) in
  sorted (set_iteration_order rt 1 positive).

(** The score list of [flatten_match_data], before [score or None]. *)
Definition score_of (mt : pydict) : result (list score_entry) :=
  let p1_sets := _get (JDict mt) ["PlayerTeam1"; "Sets"] (JList []) in
  let p2_sets := _get (JDict mt) ["PlayerTeam2"; "Sets"] (JList []) in
  match p1_sets, p2_sets with
  | JList l1, JList l2 =>
      if truthy p1_sets || truthy p2_sets then
        p1_by_set <-- by_set l1 [] ;;
        p2_by_set <-- by_set l2 [] ;;
        Return (map (score_entry_for p1_by_set p2_by_set)
                    (set_numbers_of p1_by_set p2_by_set))
      else Return []
  | _, _ => Return []
  end.

(** [payload.get("Match", {}) if isinstance(payload.get("Match"), dict)
    else payload] *)
Definition match_of (pl : pydict) : pydict :=
  match get pl "Match" with JDict m => m | _ => pl end.

Definition flatten_match_data (payload : json) : result json :=
  match payload with
  | JDict pl =>
      let tournament :=
        match get pl "Tournament" with JDict t => t | _ => [] end in
      let mt := match_of pl in  (* legacy fallback: the payload itself *)
      let match_id := py_or (get mt "MatchId") (get pl "MatchId") in
      let round_short :=
        py_or (py_or (_get (JDict mt) ["Round"; "ShortName"] JNull)
                     (get mt "RoundName"))
              (get mt "Round") in
      let surface :=
        py_or (py_or (get tournament "Court") (get mt "Surface"))
              (get pl "Surface") in
      let status :=
        py_or (py_or (get mt "Status") (get mt "MatchStatus"))
              (get pl "Status") in
      let duration := py_or (get mt "MatchTimeTotal") (get mt "MatchTime") in
      let winner_id :=
        py_or (py_or (get mt "WinningPlayerId") (get mt "Winner"))
              (get pl "Winner") in
      let p1 :=
        py_or (_get (JDict mt) ["PlayerTeam"; "Player"] JNull) (JDict []) in
      let p2 :=
        py_or (_get (JDict mt) ["OpponentTeam"; "Player"] JNull) (JDict []) in
      let players := filter truthy [player_obj p1; player_obj p2] in
      score <-- score_of mt ;;
      Return (JDict [("match_id", match_id);
                     ("event_id", get tournament "EventId");
                     ("event_year", get tournament "EventYear");
                     ("event_name", get tournament "EventDisplayName");
                     ("tournament_name", get tournament "TournamentName");
                     ("city", get tournament "TournamentCity");
                     ("surface", surface);
                     ("round", round_short);
                     ("status", status);
                     ("is_doubles", get mt "IsDoubles");
                     ("winner_id", winner_id);
                     ("players", list_or_none players);
                     ("score", list_or_none (map json_of_score_entry score));
                     ("duration", duration)])
  | _ => Return (JDict [])
  end.

(** The answer of the aggregate endpoint. *)
Record tournament_matches : Type := mkTournamentMatches {
  tm_tournament : json;
  tm_tournament_id : string;
  tm_year : Z;
  tm_matches : pydict
}.

(** The answer of the single-match endpoint. *)
Record single_match : Type := mkSingleMatch {
  sm_tournament : json;
  sm_tournament_id : string;
  sm_year : Z;
  sm_match_id : string;
  sm_match_data : json
}.

(** [draw_size = int(tournament.get("SglDrawSize", 32)) if tournament else 32] *)
Definition draw_size_of (tournament : option pydict) : result Z :=
  match tournament with
  | Some ((_ :: _) as t) => py_int (get_default t "SglDrawSize" (JInt 32))
  | _ => Return 32
  end.

(** [main_match_ids + qualy_match_ids] *)
Definition all_match_ids (draw_size : Z) : list string :=
  generate_match_ids (JInt draw_size)
    ++ generate_qualifier_ids (JInt MAX_QUALIFIERS).

(** The [for mid in all_match_ids] loop, on the dict [matches_data]. *)
Fixpoint fetch_all (year : Z) (tid_resolved : string) (flatten : bool)
    (ids : list string) (matches_data : pydict) : M pydict :=
  match ids with
  | [] => ret matches_data
  | mid :: rest =>
      data <- fetch_match year tid_resolved mid ;;
      if negb (truthy data)
      then fetch_all year tid_resolved flatten rest matches_data
      else if negb (_has_match_id data)
      then fetch_all year tid_resolved flatten rest matches_data
      else
        v <- (if flatten then lift (flatten_match_data data) else ret data) ;;
        fetch_all year tid_resolved flatten rest (dict_set matches_data mid v)
  end.

Definition tournament_name_of (tournament : option pydict) : json :=
  match tournament with
  | Some ((_ :: _) as t) => get t "Name"
  | _ => JStr "Unknown"
  end.

Definition get_tournament_matches (year : Z) (tournament_id : string)
    (flatten : bool) : M tournament_matches :=
  tournaments <- load_tournament_registry ;;
  match resolve_tournament_id tournament_id tournaments with
  | None => raise (HTTPException 404 "Invalid tournament ID or name")
  | Some tid_resolved =>
      if is_empty tid_resolved
      then raise (HTTPException 404 "Invalid tournament ID or name")
      else
        let tournament := reg_lookup tournaments tid_resolved in
        draw_size <- lift (draw_size_of tournament) ;;
        matches_data <-
          fetch_all year tid_resolved flatten (all_match_ids draw_size) [] ;;
        ret (mkTournamentMatches (tournament_name_of tournament)
               tid_resolved year matches_data)
  end.

Definition get_single_match (year : Z) (tournament_id match_id : string)
    (flatten : bool) : M single_match :=
  tournaments <- load_tournament_registry ;;
  match resolve_tournament_id tournament_id tournaments with
  | None => raise (HTTPException 404 "Invalid tournament ID or name")
  | Some tid_resolved =>
      if is_empty tid_resolved
      then raise (HTTPException 404 "Invalid tournament ID or name")
      else
        data <- fetch_match year tid_resolved match_id ;;
        if negb (truthy data)
        then raise (HTTPException 404 "Match not found")
        else
          match_data <-
            (if flatten then lift (flatten_match_data data) else ret data) ;;
          let name :=
            match reg_lookup tournaments tid_resolved with
            | Some t => get_default t "Name" (JStr "Unknown")
            | None => JStr "Unknown"
            end in
          ret (mkSingleMatch name tid_resolved year match_id match_data)
  end.

(* ================================================================= *)
(** ** Vocabulary of the statements *)

(** Two strings are equal up to the case of their letters. *)
Definition eq_ignore_case (a b : string) : Prop := lower a = lower b.

Definition chars (s : string) : list ascii := list_ascii_of_string s.

(** A non-empty string of decimal digits. *)
Definition only_decimal_digits (s : string) : Prop :=
  s <> "" /\ Forall (fun c => is_digit c = true) (chars s).

(** The number of decimal digits among the characters of a token. *)
Definition digit_count (s : string) : nat :=
  List.length (filter is_digit (chars s)).

(** A token that is, up to case, one of the non-completion markers. *)
Definition is_marker (tok : string) : Prop :=
  exists m, In m non_completion_markers /\ eq_ignore_case tok m.

(** A token [dd] or [dd(t)]: two digits, then possibly a tiebreak count
    in parentheses. *)
Inductive set_token (d1 d2 : ascii) : option string -> string -> Prop :=
| set_token_plain :
    set_token d1 d2 None (String d1 (String d2 ""))
| set_token_tiebreak t :
    only_decimal_digits t ->
    set_token d1 d2 (Some t) (String d1 (String d2 ("(" ++ t ++ ")"))).

(** A tiebreak count that [int] converts: one of at most 4300 digits. *)
Definition fits (tb : option string) : Prop :=
  match tb with
  | Some t => (N.of_nat (String.length t) <= INT_MAX_STR_DIGITS)%N
  | None => True
  end.

(** The digit 1, [n] times. *)
Fixpoint ones (n : nat) : string :=
  match n with
  | O => ""
  | S k => String "1" (ones k)
  end.

(** The token [66(1...1)] whose count has 4301 digits. *)
Definition long_tiebreak_token : string :=
  String "6" (String "6" ("(" ++ ones 4301 ++ ")")).

(** A non-empty string of digit characters, as [str.isdigit] takes
    them. *)
Definition only_digit_characters (s : string) : Prop :=
  s <> "" /\ Forall (fun c => is_digit_character c = true) (chars s).


(** The display name the resolver compares with. *)
Definition display_name (t : pydict) : string :=
  py_str (get_default t "Name" (JStr "")).


(** An identifier [id] (a value that is not null, empty, zero or false)
    at the wrapped location, [payload["Match"]["MatchId"]], or at the
    legacy one, [payload["MatchId"]]. *)
Definition wrapped_match_id (payload : json) (id : json) : Prop :=
  exists d m,
    payload = JDict d /\ lookup d "Match" = Some (JDict m) /\
    lookup m "MatchId" = Some id /\ truthy id = true.

Definition legacy_match_id (payload : json) (id : json) : Prop :=
  exists d,
    payload = JDict d /\ lookup d "MatchId" = Some id /\ truthy id = true.

(** The set numbers of a score list, as numbers. *)
Definition set_numbers (score : list score_entry) : list Z :=
  map (fun s => int_of (se_set s)) score.

(** The dicts of a per-side array, in order, each under its set number. *)
Fixpoint keyed_sets (sets : list json) : list (json * json) :=
  match sets with
  | [] => []
  | JDict s :: r => (get s "SetNumber", JDict s) :: keyed_sets r
  | _ :: r => keyed_sets r
  end.

(** The last dict of a per-side array whose set number equals [n], or
    [{}] when there is none. *)
Definition last_with_number (sets : list json) (n : json) : json :=
  match find (fun kv => key_eq (fst kv) n) (rev (keyed_sets sets)) with
  | Some kv => snd kv
  | None => JDict []
  end.

(** The set-number objects of a per-side array, one per dict, in order. *)
Definition set_number_keys (sets : list json) : list json :=
  map fst (keyed_sets sets).

(** The first set-number object, over the first side's array and then
    the second's, that equals [n]. *)
Definition first_key (l1 l2 : list json) (n : json) : option json :=
  find (fun k => key_eq k n) (set_number_keys l1 ++ set_number_keys l2).

(** What an entry of the score holds for its set number: each side's
    games from the last dict of that side with this number, and the
    tiebreak pair unless both sides lack one. *)
Definition entry_from (l1 l2 : list json) (s : score_entry) : Prop :=
  let s1 := last_with_number l1 (se_set s) in
  let s2 := last_with_number l2 (se_set s) in
  se_p1 s = field s1 "SetScore" /\
  se_p2 s = field s2 "SetScore" /\
  se_tiebreak s =
    (if is_none (field s1 "TieBreakScore") && is_none (field s2 "TieBreakScore")
     then None
     else Some (field s1 "TieBreakScore", field s2 "TieBreakScore")).

(** No two keys of the list are equal as keys. *)
Fixpoint distinct_keys (l : list json) : Prop :=
  match l with
  | [] => True
  | a :: r => (forall b, In b r -> key_eq a b = false) /\ distinct_keys r
  end.

(** The keys of a dict after the insertions [ks], starting from the keys
    [acc]: each key that has no equal yet goes to the end. *)
Definition add_key (acc : list json) (k : json) : list json :=
  if key_mem k acc then acc else acc ++ [k].

Definition dedup (ks acc : list json) : list json := fold_left add_key ks acc.

(** The dict after the insertions [kvs], starting from [acc]. *)
Definition build (kvs : list (json * json)) (acc : kdict) : kdict :=
  fold_left (fun d kv => kdict_set d (fst kv) (snd kv)) kvs acc.

Definition no_space (c : ascii) : bool := negb (is_space c).


(** What [fetch_match] makes of the outcome of its request. *)
Definition payload_of (o : http_outcome) : result json :=
  match o with
  | Fails x => Raise x
  | Responds s b =>
      Return (if s =? 200
              then match b with Some j => j | None => JNull end
              else JNull)
  end.

(** The world after one more outbound request. *)
Definition logged (w : world) (url : string) : world :=
  mkWorld (_TOURNAMENTS_CACHE w) (requests w ++ [url]).






(** The two per-side arrays of a match, when both are lists. *)
Definition side_arrays (mt : pydict) : option (list json * list json) :=
  match _get (JDict mt) ["PlayerTeam1"; "Sets"] (JList []),
        _get (JDict mt) ["PlayerTeam2"; "Sets"] (JList []) with
  | JList l1, JList l2 => Some (l1, l2)
  | _, _ => None
  end.

(** The match object of a payload: what it holds under [Match] when that
    is an object, and the payload itself otherwise. *)
Definition match_object (pl mt : pydict) : Prop :=
  lookup pl "Match" = Some (JDict mt) \/
  ((forall m, lookup pl "Match" <> Some (JDict m)) /\ mt = pl).

(** The per-set array of one side of a match: what the side's object
    holds under [Sets], and the empty list when the side is no object or
    holds nothing, or null, there. *)
Definition sets_at (mt : pydict) (side : string) : json :=
  match lookup mt side with
  | Some (JDict team) =>
      match lookup team "Sets" with
      | None | Some JNull => JList []
      | Some v => v
      end
  | _ => JList []
  end.

(** The entry of the score for the set number [n]: each side's games from
    the last dict of that side with this number, null for a side without
    one, and the tiebreak pair unless both sides lack one. *)
Definition score_item (l1 l2 : list json) (n : json) : json :=
  let s1 := last_with_number l1 n in
  let s2 := last_with_number l2 n in
  let tb1 := field s1 "TieBreakScore" in
  let tb2 := field s2 "TieBreakScore" in
  JDict [("set", n);
         ("p1", field s1 "SetScore");
         ("p2", field s2 "SetScore");
         ("tiebreak",
          if is_none tb1 && is_none tb2 then JNull
          else JDict [("p1", tb1); ("p2", tb2)])].

(** A run of the server from an empty request log. *)
Definition fresh (cache : option registry) : world := mkWorld cache [].

(** No dict of the array has a list or a dict for set number. *)
Definition hashable_set_numbers (sets : list json) : Prop :=
  Forall (fun k => hashable k = true) (set_number_keys sets).

(** The order [sorted] puts ints in, and its strict part. *)
Definition int_le (a b : json) : Prop := int_of a <= int_of b.
Definition int_lt (a b : json) : Prop := int_of a < int_of b.

(** The score the loop builds from the two per-side arrays. *)
Definition score_from (l1 l2 : list json) : list score_entry :=
  let d1 := build (keyed_sets l1) [] in
  let d2 := build (keyed_sets l2) [] in
  map (score_entry_for d1 d2)
      (sorted (filter is_positive_int (set_union (map fst d1) (map fst d2)))).

(** The environment [e'] is [e], except that its upstream answers 404
    to some of the requests that the upstream of [e] answers with status
    200 and a body of which [junk] holds. *)
Definition not_found_instead (junk : json -> Prop) (e e' : env) : Prop :=
  tournament_registry_file e' = tournament_registry_file e /\
  forall url,
    upstream e' url = upstream e url \/
    exists j,
      upstream e url = Responds 200 (Some j) /\ junk j /\
      upstream e' url = Responds 404 None.

(** The value stored for a payload that is kept: the payload itself, or
    its normalized form when [flatten] is set. *)
Definition stored (flatten : bool) (data v : json) : Prop :=
  if flatten then flatten_match_data data = Return v else v = data.

(** [v] is in the mapping under [mid] for a good reason: the request for
    [mid] was answered with status 200 and a payload that has a match
    identifier, and [v] is what is stored for that payload. *)
Definition kept (e : env) (year : Z) (tid : string) (flatten : bool)
    (mid : string) (v : json) : Prop :=
  exists data,
    upstream e (match_url year tid mid) = Responds 200 (Some data) /\
    truthy data = true /\ _has_match_id data = true /\
    stored flatten data v.

(** The candidates of a draw of 32 with 20 qualifying matches. *)
Definition default_candidate_ids : list string :=
  ["ms001"; "ms002"; "ms003"; "ms004"; "ms005"; "ms006"; "ms007"; "ms008";
   "ms009"; "ms010"; "ms011"; "ms012"; "ms013"; "ms014"; "ms015"; "ms016";
   "ms017"; "ms018"; "ms019"; "ms020"; "ms021"; "ms022"; "ms023"; "ms024";
   "ms025"; "ms026"; "ms027"; "ms028"; "ms029"; "ms030"; "ms031";
   "qs001"; "qs002"; "qs003"; "qs004"; "qs005"; "qs006"; "qs007"; "qs008";
   "qs009"; "qs010"; "qs011"; "qs012"; "qs013"; "qs014"; "qs015"; "qs016";
   "qs017"; "qs018"; "qs019"; "qs020"].

(** What the handler answers once the loop over the candidates is done. *)
Definition answer_with (name : json) (tid : string) (year : Z)
    (r : result pydict * world) : result tournament_matches * world :=
  match r with
  | (Return matches_data, w) =>
      (Return (mkTournamentMatches name tid year matches_data), w)
  | (Raise x, w) => (Raise x, w)
  end.

(** A player code followed by a line feed, and a well-formed one. *)
Definition code_with_newline : string := ("DH58" ++ String newline "")%string.
Definition plain_code : string := "AB12".

(** A string of letters and digits, at least one. *)
Definition alphanumeric (s : string) : Prop :=
  s <> "" /\ all_chars is_alnum s = true.

(* ----------------------------------------------------------------- *)
(** *** Sample data *)

(** An interpreter whose sets hand out their elements in insertion
    order, and one whose sets hand them out in the reverse order where
    the comprehension walks them. *)
Definition insertion_runtime : runtime :=
  mkRuntime (fun _ l => l) (fun _ => None) (fun _ => "").

Definition reversing_runtime : runtime :=
  mkRuntime (fun site l => match site with O => rev l | _ => l end)
            (fun _ => None) (fun _ => "").

Definition sample_set (n : json) (games : Z) (tiebreak : json) : json :=
  JDict [("SetNumber", n); ("SetScore", JInt games);
         ("TieBreakScore", tiebreak)].

(** A payload in the wrapped shape: side one won 7-6(5), 6-3 and the
    upstream lists its sets out of order, the first set twice for side
    two, and a third set for side two only. *)
Definition sample_match (mid : string) : json :=
  JDict
    [("Tournament", JDict [("TournamentName", JStr "Doha");
                           ("Court", JStr "Hard")]);
     ("Match",
      JDict
        [("MatchId", JStr mid);
         ("PlayerTeam1",
          JDict [("Sets", JList [sample_set (JInt 2) 6 JNull;
                                 sample_set (JInt 1) 7 (JInt 7)])]);
         ("PlayerTeam2",
          JDict [("Sets", JList [sample_set (JInt 1) 0 JNull;
                                 sample_set (JInt 2) 3 JNull;
                                 sample_set (JInt 3) 6 JNull;
                                 sample_set (JBool true) 6 (JInt 5);
                                 sample_set (JStr "x") 9 JNull])])])].

Definition sample_registry_file : registry_file :=
  FileItems [[("Id", JStr "580"); ("Name", JStr "Doha");
              ("SglDrawSize", JInt 32)]].

(** An upstream that knows two matches of Doha 2024, answers three other
    candidates with a placeholder, an empty object and a body that is not
    JSON, one qualifying match with an empty identifier, and everything
    else with 404. *)
Definition sample_upstream (url : string) : http_outcome :=
  if String.eqb url (match_url 2024 "580" "ms001")
  then Responds 200 (Some (sample_match "ms001"))
  else if String.eqb url (match_url 2024 "580" "ms002")
  then Responds 200 (Some (sample_match "ms002"))
  else if String.eqb url (match_url 2024 "580" "ms003")
  then Responds 200 (Some (JDict [("Tournament", JDict [])]))
  else if String.eqb url (match_url 2024 "580" "ms004")
  then Responds 200 (Some (JDict []))
  else if String.eqb url (match_url 2024 "580" "ms005")
  then Responds 200 None
  else if String.eqb url (match_url 2024 "580" "qs001")
  then Responds 200 (Some (JDict [("MatchId", JStr "")]))
  else Responds 404 None.

Definition sample_env : env := mkEnv sample_upstream sample_registry_file.

(** An upstream that answers 404 at the given addresses and as [up]
    elsewhere. *)
Definition not_found_at (urls : list string) (up : string -> http_outcome)
    (url : string) : http_outcome :=
  if existsb (String.eqb url) urls then Responds 404 None else up url.

(** A placeholder without a match identifier that cannot be normalized:
    the number of its one set is a list. *)
Definition junk_payload : json :=
  JDict
    [("Tournament", JDict []);
     ("PlayerTeam1",
      JDict [("Sets",
              JList [JDict [("SetNumber", JList [JInt 1]);
                            ("SetScore", JInt 6)]])])].

(** The sample upstream, with that placeholder for the candidate [ms003]. *)
Definition junk_upstream (url : string) : http_outcome :=
  if String.eqb url (match_url 2024 "580" "ms003")
  then Responds 200 (Some junk_payload)
  else sample_upstream url.

Definition junk_env : env := mkEnv junk_upstream sample_registry_file.

Definition junk_gone_env : env :=
  mkEnv (not_found_at [match_url 2024 "580" "ms003"] junk_upstream)
        sample_registry_file.




(** The same upstream, except that the request for [ms002] times out. *)
Definition timeout_upstream (url : string) : http_outcome :=
  if String.eqb url (match_url 2024 "580" "ms002")
  then Fails TimeoutException
  else sample_upstream url.

Definition timeout_env : env := mkEnv timeout_upstream sample_registry_file.

(** The registry of the sample file, as the loader builds it. *)
Definition sample_registry : registry :=
  [("580", [("Id", JStr "580"); ("Name", JStr "Doha");
            ("SglDrawSize", JInt 32)])].

(** A legacy payload where side one numbers its set [1.0] and side two
    numbers it [1]: the union keeps the float, which is no int. *)
Definition float_numbered_match : json :=
  JDict
    [("MatchId", JStr "ms001");
     ("PlayerTeam1",
      JDict [("Sets", JList [sample_set (JFloat (FFin 1)) 6 JNull])]);
     ("PlayerTeam2",
      JDict [("Sets", JList [sample_set (JInt 1) 4 JNull;
                             sample_set (JInt 0) 4 JNull])])].

(** A legacy payload with a list for set number. *)
Definition list_numbered_match : json :=
  JDict
    [("MatchId", JStr "ms001");
     ("PlayerTeam1",
      JDict [("Sets", JList [sample_set (JList [JInt 1]) 6 JNull])])].

(** A head-to-head payload in the website shape, with one final. *)
Definition sample_h2h : json :=
  JDict
    [("playerLeft", JDict [("PlayerId", JStr "DH58")]);
     ("Tournaments",
      JList
        [JDict
           [("EventDisplayName", JStr "Doha"); ("EventYear", JInt 2024);
            ("Matches",
             JList [JDict [("ResultString", JStr "64 76(7) RET");
                           ("Round", JDict [("ShortName", JStr "F")]);
                           ("Winner", JStr "DH58")]])]])].

Definition entry (n p1 p2 : Z) (tiebreak : json) : json :=
  JDict [("set", JInt n); ("p1", JInt p1); ("p2", JInt p2);
         ("tiebreak", tiebreak)].

(* ================================================================= *)
(** ** api/tournaments.py *)

(** [get_registry]: the file as it is, read at every call. *)
Definition get_registry : M json :=
  fun e w =>
    match tournament_registry_file e with
    | FileMissing =>
        (Raise (HTTPException 500
                  ("Missing data file: "
                     ++ TOURNAMENT_REGISTRY_FILE_name)%string), w)
    | FileInvalidJson =>
        (Raise (HTTPException 500
                  ("Invalid JSON in: "
                     ++ TOURNAMENT_REGISTRY_FILE_name)%string), w)
    | FileItems items => (Return (JList (map JDict items)), w)
    end.

(* ================================================================= *)
(** ** More vocabulary *)

(** The candidate [mid] has a real match upstream: the request for it is
    answered with status 200 and a truthy body that holds a match
    identifier. *)
Definition has_real_match (e : env) (year : Z) (tid mid : string) : bool :=
  match upstream e (match_url year tid mid) with
  | Responds s (Some data) => (s =? 200) && truthy data && _has_match_id data
  | _ => false
  end.

(** The record a file holds for the identifier [k]: the last of its
    items that has an [Id] whose string is [k]. *)
Definition has_id (k : string) (t : pydict) : bool :=
  contains t "Id" && String.eqb (py_str (get t "Id")) k.

Definition last_with_id (items : list pydict) (k : string) : option pydict :=
  find (has_id k) (rev items).

(** What the single-match endpoint puts in [match_data]. *)
Definition shown (flatten : bool) (data : json) : result json :=
  if flatten then flatten_match_data data else Return data.

(** The name the single-match endpoint reports:
    [tournaments.get(tid_resolved, {}).get("Name", "Unknown")]. *)
Definition single_match_name (tournaments : registry) (tid : string) : json :=
  match reg_lookup tournaments tid with
  | Some t => get_default t "Name" (JStr "Unknown")
  | None => JStr "Unknown"
  end.


(** The fields of a normalized match, in the order of the record. *)
Definition FLAT_FIELDS : list string :=
  ["match_id"; "event_id"; "event_year"; "event_name"; "tournament_name";
   "city"; "surface"; "round"; "status"; "is_doubles"; "winner_id";
   "players"; "score"; "duration"].

(** A player of a normalized match: the four fields, with an identifier
    that is not null, empty, zero or false. *)
Definition is_player (p : json) : Prop :=
  exists d,
    p = JDict d /\
    map fst d = ["player_id"; "first_name"; "last_name"; "country"] /\
    truthy (get d "player_id") = true.

(** A parsed set whose games are single digits and whose tiebreak count,
    when there is one, is not negative. *)
Definition set_in_range (p : parsed_set) : Prop :=
  0 <= ps_p1 p <= 9 /\ 0 <= ps_p2 p <= 9 /\
  forall t, ps_tiebreak p = Some t -> 0 <= t.

(** The fields of a flattened head-to-head match, in the order of the
    record. *)
Definition H2H_FIELDS : list string :=
  ["tournament"; "year"; "round"; "winner"; "surface"; "indoor_outdoor";
   "match_id"; "result"; "sets"; "player_team"; "opponent_team";
   "upstream_sets"; "match_stats_url"; "reason"].

(** What the outer loop walks for a section:
    [raw_json.get(section, []) or []]. *)
Definition section_of (d : pydict) (section : string) : json :=
  py_or (get_default d section (JList [])) (JList []).

(** What the inner loop walks for a tournament: [match_list or []]. *)
Definition match_list_of (tournament : pydict) : json :=
  py_or (py_or (py_or (get tournament "MatchResults")
                      (get tournament "Matches"))
               (JList []))
        (JList []).

(** The [Sets] of the [PlayerTeam] of a match, when [PlayerTeam] is an
    object that is not empty and [Sets] is a list. *)
Definition player_team_sets (mt : pydict) : option (list json) :=
  match get mt "PlayerTeam" with
  | JDict pt =>
      match pt, get pt "Sets" with
      | _ :: _, JList sets => Some sets
      | _, _ => None
      end
  | _ => None
  end.

(** A player code the pattern accepts: alphanumeric, possibly followed
    by one line feed. *)
Definition accepted_code (s : string) : Prop :=
  alphanumeric s \/
  exists t, s = (t ++ String newline "")%string /\ alphanumeric t.

(* ================================================================= *)
(** ** scripts/build_tournament_registry.py *)

(** One entry of the registry the script builds; [Id] is a string, the
    other fields are what the calendar holds. *)
Record tournament_entry : Type := mkEntry {
  entry_Id : string;
  entry_Name : json;
  entry_SglDrawSize : json;
  entry_DblDrawSize : json;
  entry_Type : json
}.

Definition dict_of_entry (t : tournament_entry) : pydict :=
  [("Id", JStr (entry_Id t)); ("Name", entry_Name t);
   ("SglDrawSize", entry_SglDrawSize t);
   ("DblDrawSize", entry_DblDrawSize t); ("Type", entry_Type t)].

(** [v.get(k, default)] on a value that need not be a dict. *)
Definition attr_get_default (v : json) (k : string) (default : json)
  : result json :=
  match v with
  | JDict d => Return (get_default d k default)
  | _ => Raise AttributeError
  end.

(** The dict appended for one tournament of the calendar. *)
Definition entry_of (tourney : json) : result tournament_entry :=
  id <-- attr_get tourney "Id" ;;
  name <-- attr_get tourney "Name" ;;
  sgl <-- attr_get tourney "SglDrawSize" ;;
  dbl <-- attr_get tourney "DblDrawSize" ;;
  type <-- attr_get tourney "Type" ;;
  Return (mkEntry (py_str id) name sgl dbl type).

(** The inner loop, over the tournaments of one date block. *)
Definition block_entries (date_block : json)
  : result (list tournament_entry) :=
  tourneys <-- attr_get_default date_block "Tournaments" (JList []) ;;
  ts <-- py_iter tourneys ;;
  mapM entry_of ts.

(** [build_tournament_registry], on the JSON value read from the raw
    calendar file. *)
Definition build_tournament_registry (data : json)
  : result (list tournament_entry) :=
  dates <-- attr_get_default data "TournamentDates" (JList []) ;;
  blocks <-- py_iter dates ;;
  parsed <-- mapM block_entries blocks ;;
  Return (List.concat parsed).

(** What stops the merge of [main]: an existing record without [Id]
    ([KeyError]) or with an [Id] that cannot be hashed ([TypeError]). *)
Inductive merge_error : Type :=
| MissingId
| UnhashableId.

(** [existing_by_id = {t["Id"]: t for t in existing}] *)
Fixpoint index_by_id (existing : list pydict) (acc : kdict)
  : merge_error + kdict :=
  match existing with
  | [] => inr acc
  | t :: r =>
      match lookup t "Id" with
      | None => inl MissingId
      | Some k =>
          if hashable k then index_by_id r (kdict_set acc k (JDict t))
          else inl UnhashableId
      end
  end.

(** The [for entry in new_entries] loop of [main], with its two
    variables [existing_by_id] and [added]. *)
Fixpoint add_entries (new_entries : list tournament_entry)
    (existing_by_id : kdict) (added : Z) : kdict * Z :=
  match new_entries with
  | [] => (existing_by_id, added)
  | entry :: r =>
      let tid := JStr (entry_Id entry) in
      if negb (key_mem tid (map fst existing_by_id))
      then add_entries r
             (kdict_set existing_by_id tid (JDict (dict_of_entry entry)))
             (added + 1)
      else add_entries r existing_by_id added
  end.

(** The merge of [main]: the list written to the registry file and the
    count it prints. *)
Definition merge_registry (existing : list pydict)
    (new_entries : list tournament_entry) : merge_error + (list json * Z) :=
  match index_by_id existing [] with
  | inl x => inl x
  | inr existing_by_id =>
      let (by_id, added) := add_entries new_entries existing_by_id 0 in
      inr (map snd by_id, added)
  end.

(** The objects of a list of JSON values, as the loader reads them back
    from the file. *)
Definition as_dicts (l : list json) : list pydict :=
  flat_map (fun v => match v with JDict d => [d] | _ => [] end) l.

(** The new entries the merge appends: those whose identifier is not a
    key yet, each identifier once. *)
Fixpoint fresh_entries (new_entries : list tournament_entry)
    (keys : list json) : list tournament_entry :=
  match new_entries with
  | [] => []
  | entry :: r =>
      if key_mem (JStr (entry_Id entry)) keys
      then fresh_entries r keys
      else entry :: fresh_entries r (keys ++ [JStr (entry_Id entry)])
  end.

(** A calendar in the shape the script expects: date blocks that are
    objects, each with a list of tournaments that are objects. *)
Definition calendar (blocks : list (list pydict)) : json :=
  JDict [("TournamentDates",
          JList (map (fun ts => JDict [("Tournaments", JList (map JDict ts))])
                     blocks))].

(** The entry the script makes of a tournament object. *)
Definition entry_from_dict (t : pydict) : tournament_entry :=
  mkEntry (py_str (get t "Id")) (get t "Name") (get t "SglDrawSize")
          (get t "DblDrawSize") (get t "Type").

(** The records of a registry file have the identifiers [ids], all of
    them strings and no two the same: what the script writes when it
    starts without a file. *)
Definition string_ids (existing : list pydict) (ids : list string) : Prop :=
  map (fun t => lookup t "Id") existing = map (fun s => Some (JStr s)) ids /\
  NoDup ids.

Definition appended (new_entries : list tournament_entry) (ids : list string)
  : list tournament_entry :=
  fresh_entries new_entries (map JStr ids).

(* ----------------------------------------------------------------- *)
(** *** More sample data *)

(** A registry whose one record has no name and a draw of 2. *)
Definition nameless_registry : registry :=
  [("580", [("Id", JStr "580"); ("SglDrawSize", JInt 2)])].


(** A registry whose one record has a null draw size, as the script
    writes it for a tournament the calendar gives no size for. *)
Definition null_size_registry : registry :=
  [("580", [("Id", JStr "580"); ("Name", JStr "Doha");
            ("SglDrawSize", JNull)])].

(** The sample environment once its registry file is gone. *)
Definition missing_file_env : env := mkEnv sample_upstream FileMissing.

(** An upstream that answers every request with the same body. *)
Definition constant_env (body : json) : env :=
  mkEnv (fun _ => Responds 200 (Some body)) sample_registry_file.

Definition doha_entry : tournament_entry :=
  mkEntry "580" (JStr "Doha") (JInt 32) (JInt 16) (JStr "250").

Definition dubai_entry : tournament_entry :=
  mkEntry "495" (JStr "Dubai") (JInt 32) (JInt 16) (JStr "500").

(** A match in the website shape, with a result string only. *)
Definition website_match : pydict :=
  [("ResultString", JStr "64 63"); ("MatchId", JStr "ms001")].

(** A match whose result string holds a tiebreak count of 4301 digits. *)
Definition long_tiebreak_match : pydict :=
  [("ResultString", JStr long_tiebreak_token); ("MatchId", JStr "ms001")].

(* ================================================================= *)
(** ** Decimal formatting *)

Lemma string_length_app (a b : string) :
  String.length (a ++ b) = (String.length a + String.length b)%nat.
Proof.
  induction a as [|c a IH]; simpl; [reflexivity | now rewrite IH].
Qed.

Lemma zeros_length (n : nat) : String.length (zeros n) = n.
Proof. induction n; simpl; congruence. Qed.

Lemma all_chars_app (p : ascii -> bool) (a b : string) :
  all_chars p (a ++ b) = all_chars p a && all_chars p b.
Proof.
  induction a as [|c a IH]; simpl; [reflexivity|].
  now rewrite IH, andb_assoc.
Qed.

Lemma zeros_digits (n : nat) : all_chars is_digit (zeros n) = true.
Proof. induction n; simpl; auto. Qed.

Lemma uint_digits (d : Decimal.uint) :
  all_chars is_digit (NilEmpty.string_of_uint d) = true.
Proof. induction d; simpl; auto. Qed.

(** Reading back the digits of [d] after a prefix worth [of_lu a]. *)
Lemma int_of_digits_uint (d : Decimal.uint) :
  forall a : Decimal.uint,
    int_of_digits_from (NilEmpty.string_of_uint d)
      (Z.of_N (DecimalPos.Unsigned.of_lu a))
    = Z.of_N (DecimalPos.Unsigned.of_lu (Decimal.revapp d a)).
Proof.
  induction d as [|d IH|d IH|d IH|d IH|d IH|d IH|d IH|d IH|d IH|d IH];
    intro a;
    cbn [NilEmpty.string_of_uint int_of_digits_from Decimal.revapp];
    try reflexivity;
    rewrite <- IH; f_equal;
    match goal with
    | |- _ = Z.of_N (DecimalPos.Unsigned.of_lu ?x) =>
        rewrite (DecimalPos.Unsigned.of_lu_eqn x)
    end;
    cbn [DecimalPos.Unsigned.hd DecimalPos.Unsigned.tl];
    match goal with
    | |- context [digit_value ?c] =>
        let v := eval vm_compute in (digit_value c) in
        change (digit_value c) with v
    end;
    lia.
Qed.

Lemma int_of_digits_pos (p : positive) :
  int_of_digits (NilEmpty.string_of_uint (Pos.to_uint p)) = Zpos p.
Proof.
  unfold int_of_digits.
  change 0 with (Z.of_N (DecimalPos.Unsigned.of_lu Decimal.Nil)).
  rewrite int_of_digits_uint.
  change (Decimal.revapp (Pos.to_uint p) Decimal.Nil)
    with (Decimal.rev (Pos.to_uint p)).
  rewrite <- DecimalPos.Unsigned.of_uint_alt, DecimalPos.Unsigned.of_to.
  reflexivity.
Qed.

Lemma int_of_digits_zeros (n : nat) (s : string) :
  int_of_digits_from (zeros n ++ s) 0 = int_of_digits_from s 0.
Proof. induction n; simpl; auto. Qed.

Lemma format_03d_pos (p : positive) :
  format_03d (Zpos p)
  = (zeros (3 - String.length (str_of_int (Zpos p))) ++ str_of_int (Zpos p))%string.
Proof. reflexivity. Qed.

Lemma format_03d_value (i : Z) : 1 <= i -> int_of_digits (format_03d i) = i.
Proof.
  destruct i as [|p|p]; try lia. intros _.
  rewrite format_03d_pos. unfold int_of_digits.
  rewrite int_of_digits_zeros. apply int_of_digits_pos.
Qed.

Lemma format_03d_digits (i : Z) :
  1 <= i -> all_chars is_digit (format_03d i) = true.
Proof.
  destruct i as [|p|p]; try lia. intros _.
  rewrite format_03d_pos, all_chars_app, zeros_digits. simpl.
  apply uint_digits.
Qed.

Lemma format_03d_width (i : Z) :
  1 <= i -> (3 <= String.length (format_03d i))%nat.
Proof.
  destruct i as [|p|p]; try lia. intros _.
  rewrite format_03d_pos, string_length_app, zeros_length. lia.
Qed.

Lemma format_03d_three_upto (n : nat) :
  forallb (fun i => (String.length (format_03d i) =? 3)%nat)
    (range_from 1 n) = true ->
  forall i, 1 <= i < 1 + Z.of_nat n -> String.length (format_03d i) = 3%nat.
Proof.
  intros H i Hi.
  assert (G : forall len lo, forallb
              (fun i => (String.length (format_03d i) =? 3)%nat)
              (range_from lo len) = true ->
            lo <= i < lo + Z.of_nat len ->
            String.length (format_03d i) = 3%nat).
  { induction len as [|len IH]; intros lo Hall Hr; [lia|].
    simpl in Hall. apply andb_true_iff in Hall as [H1 H2].
    destruct (Z.eq_dec i lo) as [->|Hne].
    - now apply Nat.eqb_eq.
    - apply (IH (lo + 1)); [exact H2 | lia]. }
  apply (G n 1); assumption.
Qed.

Lemma format_03d_three (i : Z) :
  1 <= i < 1000 -> String.length (format_03d i) = 3%nat.
Proof.
  intro Hi. apply (format_03d_three_upto 999); [vm_compute; reflexivity | lia].
Qed.

(* ================================================================= *)
(** ** utils/match_ids.py: the main-draw identifiers *)

Lemma range_from_length (lo : Z) (len : nat) :
  List.length (range_from lo len) = len.
Proof. revert lo; induction len; intro lo; simpl; auto. Qed.

Lemma range_from_nth (len : nat) (lo : Z) (k : nat) :
  (k < len)%nat -> nth_error (range_from lo len) k = Some (lo + Z.of_nat k).
Proof.
  revert lo k; induction len as [|len IH]; intros lo k Hk; [lia|].
  destruct k as [|k]; simpl.
  - f_equal; lia.
  - rewrite IH by lia. f_equal; lia.
Qed.

Lemma generate_match_ids_int (D : Z) :
  2 <= D ->
  generate_match_ids (JInt D)
  = map (fun i => ("ms" ++ format_03d i)%string) (range_from 1 (Z.to_nat (D - 1))).
Proof.
  intro HD. unfold generate_match_ids, int_value, range.
  destruct (D <? 2) eqn:E; [apply Z.ltb_lt in E; lia|].
  do 2 f_equal. lia.
Qed.

(** C6.  For an integer draw size [D >= 2] the generator returns [D - 1]
    identifiers, the [i]-th of which (counting from 1) is the marker [ms]
    followed by [i] written in decimal and padded with zeros to three
    digits (exactly three below 1000); the list for 4 is [ms001],
    [ms002], [ms003] and the one for 32 runs from [ms001] to [ms031].  For
    [D < 2], and for an input that is not an integer, it returns the
    empty list. *)
Theorem generate_match_ids_spec :
  (forall D : Z, 2 <= D ->
     let ids := generate_match_ids (JInt D) in
     List.length ids = Z.to_nat (D - 1) /\
     (forall i, 1 <= i <= D - 1 ->
        nth_error ids (Z.to_nat (i - 1)) = Some ("ms" ++ format_03d i)%string /\
        all_chars is_digit (format_03d i) = true /\
        int_of_digits (format_03d i) = i /\
        (3 <= String.length (format_03d i))%nat /\
        (i < 1000 -> String.length (format_03d i) = 3%nat))) /\
  generate_match_ids (JInt 4) = ["ms001"; "ms002"; "ms003"] /\
  hd_error (generate_match_ids (JInt 32)) = Some "ms001" /\
  last (generate_match_ids (JInt 32)) "" = "ms031" /\
  (forall D : Z, D < 2 -> generate_match_ids (JInt D) = []) /\
  (forall v : json, (forall n, v <> JInt n) -> generate_match_ids v = []).
Proof.
  split; [|split; [|split; [|split; [|split]]]].
  - intros D HD ids. subst ids. rewrite generate_match_ids_int by assumption.
    split.
    + now rewrite length_map, range_from_length.
    + intros i Hi. split; [|split; [|split; [|split]]].
      * rewrite nth_error_map, range_from_nth by lia.
        replace (1 + Z.of_nat (Z.to_nat (i - 1))) with i by lia.
        reflexivity.
      * apply format_03d_digits; lia.
      * apply format_03d_value; lia.
      * apply format_03d_width; lia.
      * intro. apply format_03d_three; lia.
  - vm_compute; reflexivity.
  - vm_compute; reflexivity.
  - vm_compute; reflexivity.
  - intros D HD. unfold generate_match_ids, int_value.
    destruct (D <? 2) eqn:E; [reflexivity | apply Z.ltb_ge in E; lia].
  - intros v Hv. destruct v as [|[|]|n| | | |]; try reflexivity.
    now destruct (Hv n).
Qed.

(* ================================================================= *)
(** ** Case, white space and the two patterns *)

(** The characters of the non-completion markers. *)
Lemma marker_letters :
  forall m, In m non_completion_markers ->
    Forall (fun d => In d (chars "RETW/ODFABNYC")) (chars m).
Proof.
  intros m Hm. simpl in Hm.
  repeat (destruct Hm as [<- | Hm];
          [repeat (apply Forall_cons; [simpl; tauto|]); apply Forall_nil|]).
  contradiction.
Qed.

(** One character of a token against one character of a marker: the
    upper-case form is that character exactly when the lower-case forms
    agree. *)
Lemma upper_char_marker (c d : ascii) (u p : list N) :
  In d (chars "RETW/ODFABNYC") ->
  points_eqb (upper_char c ++ u) (code d :: p)
  = Ascii.eqb (lower_char c) (lower_char d) && points_eqb u p.
Proof.
  intro Hd. simpl in Hd.
  repeat (destruct Hd as [<- | Hd];
          [destruct c as [[] [] [] [] [] [] [] []]; reflexivity|]).
  contradiction.
Qed.

Lemma upper_marker (m : string) :
  Forall (fun d => In d (chars "RETW/ODFABNYC")) (chars m) ->
  forall tok, points_eqb (upper tok) (points m) = true <-> lower tok = lower m.
Proof.
  unfold chars, upper, points, lower.
  induction m as [|d m IH]; intros Hm tok.
  - destruct tok as [|c tok]; [split; reflexivity|].
    simpl. split; [|discriminate].
    destruct c as [[] [] [] [] [] [] [] []]; discriminate.
  - simpl in Hm. inversion Hm as [|? ? Hd Hr]; subst.
    destruct tok as [|c tok]; [split; discriminate|].
    cbn [list_ascii_of_string flat_map map map_string].
    rewrite (upper_char_marker c d _ _ Hd), andb_true_iff, (IH Hr tok).
    rewrite Ascii.eqb_eq. split.
    + intros [-> ->]. reflexivity.
    + intro H. inversion H. split; reflexivity.
Qed.

(** The membership test of the loop decides [is_marker]. *)
Lemma is_marker_iff (tok : string) :
  in_markers (upper tok) = true <-> is_marker tok.
Proof.
  unfold in_markers, is_marker, eq_ignore_case. rewrite existsb_exists.
  split; intros (m & Hm & E); exists m; (split; [assumption|]);
    now apply (upper_marker m (marker_letters m Hm) tok).
Qed.

Lemma is_empty_true (s : string) : is_empty s = true <-> s = "".
Proof. destruct s; simpl; split; congruence. Qed.

Lemma is_empty_false (s : string) : is_empty s = false <-> s <> "".
Proof. destruct s; simpl; split; congruence. Qed.

Lemma string_app_assoc (a b c : string) :
  ((a ++ b) ++ c = a ++ (b ++ c))%string.
Proof. induction a as [|x a IH]; simpl; [reflexivity | now rewrite IH]. Qed.

Lemma string_app_nil_r (a : string) : (a ++ "")%string = a.
Proof. induction a as [|x a IH]; simpl; [reflexivity | now rewrite IH]. Qed.

Lemma split_from_run (t : string) :
  forall cur r,
    all_chars no_space t = true ->
    split_from (t ++ r) cur = split_from r (cur ++ t).
Proof.
  induction t as [|c t IH]; intros cur r Ht; simpl.
  - now rewrite string_app_nil_r.
  - simpl in Ht. apply andb_true_iff in Ht as [Hc Ht].
    unfold no_space in Hc. apply negb_true_iff in Hc. rewrite Hc.
    rewrite IH by assumption. now rewrite string_app_assoc.
Qed.

Lemma split_from_spaces (ws : string) :
  forall cur,
    all_chars is_space ws = true ->
    split_from ws cur = split_from "" cur.
Proof.
  induction ws as [|c ws IH]; intros cur Hws; [reflexivity|].
  simpl in Hws. apply andb_true_iff in Hws as [Hc Hws].
  simpl. rewrite Hc. destruct (is_empty cur) eqn:E.
  - rewrite IH by assumption. reflexivity.
  - rewrite IH by assumption. reflexivity.
Qed.

Lemma split_from_trailing_spaces (a ws : string) :
  forall cur,
    all_chars is_space ws = true ->
    split_from (a ++ ws) cur = split_from a cur.
Proof.
  induction a as [|c a IH]; intros cur Hws; simpl.
  - now apply split_from_spaces.
  - destruct (is_space c); [destruct (is_empty cur)|];
      now rewrite IH by assumption.
Qed.

Lemma split_lstrip (s : string) : split (lstrip s) = split s.
Proof.
  unfold split. induction s as [|c s IH]; [reflexivity|].
  simpl. destruct (is_space c) eqn:E; simpl; [assumption|].
  now rewrite E.
Qed.

Lemma rev_string_acc (s : string) :
  forall acc, rev_string s acc = (rev_string s "" ++ acc)%string.
Proof.
  induction s as [|c s IH]; intro acc; [reflexivity|].
  simpl. rewrite IH, (IH (String c "")), string_app_assoc. reflexivity.
Qed.

Lemma rev_string_app (a b : string) :
  rev_string (a ++ b) "" = (rev_string b "" ++ rev_string a "")%string.
Proof.
  induction a as [|c a IH]; simpl.
  - now rewrite string_app_nil_r.
  - rewrite (rev_string_acc (a ++ b) (String c "")), IH.
    rewrite (rev_string_acc a (String c "")).
    now rewrite string_app_assoc.
Qed.

Lemma rev_string_involutive (s : string) :
  rev_string (rev_string s "") "" = s.
Proof.
  induction s as [|c s IH]; [reflexivity|].
  simpl. rewrite (rev_string_acc s (String c "")), rev_string_app, IH.
  reflexivity.
Qed.

Lemma all_chars_rev (p : ascii -> bool) (s : string) :
  all_chars p (rev_string s "") = all_chars p s.
Proof.
  induction s as [|c s IH]; [reflexivity|].
  simpl. rewrite (rev_string_acc s (String c "")), all_chars_app, IH. simpl.
  now rewrite andb_true_r, andb_comm.
Qed.

Lemma lstrip_decompose (s : string) :
  exists ws, s = (ws ++ lstrip s)%string /\ all_chars is_space ws = true.
Proof.
  induction s as [|c s (ws & E & Hws)].
  - now exists "".
  - simpl. destruct (is_space c) eqn:Hc.
    + exists (String c ws). simpl. rewrite Hc, Hws, <- E. split; reflexivity.
    + now exists "".
Qed.

Lemma rstrip_decompose (s : string) :
  exists ws, s = (rstrip s ++ ws)%string /\ all_chars is_space ws = true.
Proof.
  unfold rstrip.
  destruct (lstrip_decompose (rev_string s "")) as (ws & E & Hws).
  exists (rev_string ws ""). split.
  - rewrite <- rev_string_app, <- E. symmetry. apply rev_string_involutive.
  - now rewrite all_chars_rev.
Qed.

Lemma split_strip (s : string) : split (strip s) = split s.
Proof.
  unfold strip. rewrite <- (split_lstrip s).
  destruct (rstrip_decompose (lstrip s)) as (ws & E & Hws).
  rewrite E at 2. unfold split.
  now rewrite split_from_trailing_spaces.
Qed.

Lemma span_spec (p : ascii -> bool) (s : string) :
  forall a b, span p s = (a, b) ->
    s = (a ++ b)%string /\ all_chars p a = true.
Proof.
  induction s as [|c s IH]; intros a b E; simpl in E.
  - inversion E; subst. auto.
  - destruct (p c) eqn:Hc.
    + destruct (span p s) as [a' b'] eqn:Es. inversion E; subst.
      destruct (IH a' b eq_refl) as [-> Ha]. simpl. now rewrite Hc, Ha.
    + inversion E; subst. auto.
Qed.

Lemma span_run (p : ascii -> bool) (a : string) (c : ascii) (r : string) :
  all_chars p a = true -> p c = false ->
  span p (a ++ String c r) = (a, String c r).
Proof.
  intros Ha Hc. induction a as [|x a IH]; simpl.
  - now rewrite Hc.
  - simpl in Ha. apply andb_true_iff in Ha as [Hx Ha].
    now rewrite Hx, IH.
Qed.

Lemma drop_last_newline_spec (s t : string) :
  drop_last_newline s = Some t -> s = (t ++ String newline "")%string.
Proof.
  revert t. induction s as [|c s IH]; intros t E; [discriminate|].
  simpl in E. destruct s as [|c' s'].
  - destruct (Ascii.eqb c newline) eqn:Hc; [|discriminate].
    apply Ascii.eqb_eq in Hc. inversion E; subst. reflexivity.
  - destruct (drop_last_newline (String c' s')) as [t'|] eqn:Et; [|discriminate].
    inversion E; subst. simpl. f_equal. now apply IH.
Qed.

Lemma digit_count_app (a b : string) :
  digit_count (a ++ b) = (digit_count a + digit_count b)%nat.
Proof.
  unfold digit_count, chars.
  induction a as [|c a IH]; simpl; [reflexivity|].
  destruct (is_digit c); simpl; now rewrite IH.
Qed.

Lemma digit_count_digits (a : string) :
  all_chars is_digit a = true -> digit_count a = String.length a.
Proof.
  unfold digit_count, chars.
  induction a as [|c a IH]; simpl; [reflexivity|].
  intro H. apply andb_true_iff in H as [Hc Ha]. rewrite Hc. simpl.
  now rewrite IH.
Qed.

Lemma set_token_body_digits (s digits : string) (tb : option string) :
  set_token_body s = Some (digits, tb) ->
  (String.length digits <= digit_count s)%nat.
Proof.
  unfold set_token_body. destruct (span is_digit s) as [a b] eqn:E.
  apply span_spec in E as [-> Ha].
  intro H. assert (digits = a) as ->.
  { destruct (is_empty a); [discriminate|].
    destruct b as [|c r]; [congruence|].
    destruct (Ascii.eqb c "("%char) eqn:Ec.
    - apply Ascii.eqb_eq in Ec. subst c.
      destruct (span is_digit r) as [tb' rest'].
      destruct (is_empty tb'); [discriminate|].
      destruct (String.eqb rest' ")"); congruence.
    - destruct c as [[] [] [] [] [] [] [] []]; try discriminate H;
        discriminate Ec. }
  rewrite digit_count_app, digit_count_digits by assumption. lia.
Qed.

Lemma set_token_match_digits (tok digits : string) (tb : option string) :
  _SET_TOKEN_RE_match tok = Some (digits, tb) ->
  (String.length digits <= digit_count tok)%nat.
Proof.
  unfold _SET_TOKEN_RE_match, match_to_dollar.
  destruct (set_token_body tok) as [m|] eqn:E.
  - intro H; inversion H; subst. now apply set_token_body_digits in E.
  - destruct (drop_last_newline tok) as [t|] eqn:Et; [|discriminate].
    intro H. apply set_token_body_digits in H.
    apply drop_last_newline_spec in Et. subst tok.
    rewrite digit_count_app. lia.
Qed.

Lemma only_decimal_digits_all (t : string) :
  only_decimal_digits t ->
  is_empty t = false /\ all_chars is_digit t = true.
Proof.
  intros [Hne Hall]. split; [now apply is_empty_false|].
  unfold chars in Hall. clear Hne.
  induction t as [|c t IH]; [reflexivity|].
  simpl in *. inversion Hall; subst. rewrite H1. now apply IH.
Qed.

Lemma set_token_match_accepts (d1 d2 : ascii) (tb : option string)
    (tok : string) :
  is_digit d1 = true -> is_digit d2 = true -> set_token d1 d2 tb tok ->
  _SET_TOKEN_RE_match tok = Some (String d1 (String d2 ""), tb).
Proof.
  intros H1 H2 Htok.
  unfold _SET_TOKEN_RE_match, match_to_dollar, set_token_body.
  destruct Htok as [|t Ht].
  - simpl. now rewrite H1, H2.
  - apply only_decimal_digits_all in Ht as [Hne Hall].
    change (String d1 (String d2 ("(" ++ t ++ ")")))%string
      with (String d1 (String d2 "") ++ String "(" (t ++ ")"))%string.
    rewrite span_run; [|simpl; now rewrite H1, H2|reflexivity].
    simpl. rewrite span_run by (assumption || reflexivity).
    now rewrite Hne.
Qed.

Lemma digit_first_not_marker (d : ascii) (r : string) :
  is_digit d = true -> in_markers (upper (String d r)) = false.
Proof.
  intro Hd.
  destruct d as [[] [] [] [] [] [] [] []]; try discriminate Hd; reflexivity.
Qed.

(* ================================================================= *)
(** ** utils/atp_h2h.py: the result string *)

Lemma parse_tokens_out (tokens : list string) :
  forall n out,
    parse_tokens tokens n out
    = (sets <-- parse_tokens tokens n [] ;; Return (out ++ sets)).
Proof.
  induction tokens as [|tok rest IH]; intros n out; cbn [parse_tokens].
  - cbn [rbind]. now rewrite app_nil_r.
  - destruct (in_markers (upper tok)); [cbn [rbind]; now rewrite app_nil_r|].
    destruct (_SET_TOKEN_RE_match tok) as [[digits tb]|]; [|apply IH].
    destruct (String.length digits <? 2)%nat; [apply IH|].
    destruct (tiebreak_of tb) as [tiebreak|x]; [|reflexivity].
    cbn [rbind]. rewrite IH, (IH _ ([] ++ _)).
    destruct (parse_tokens rest (n + 1) []) as [sets|x]; [|reflexivity].
    cbn [rbind]. now rewrite app_assoc.
Qed.

Lemma parse_tokens_numbers (tokens : list string) :
  forall n sets,
    parse_tokens tokens n [] = Return sets ->
    map ps_set sets = range_from (n + 1) (List.length sets).
Proof.
  induction tokens as [|tok rest IH]; intros n sets; cbn [parse_tokens].
  - intro H. inversion H. reflexivity.
  - destruct (in_markers (upper tok)); [intro H; inversion H; reflexivity|].
    destruct (_SET_TOKEN_RE_match tok) as [[digits tb]|]; [|apply IH].
    destruct (String.length digits <? 2)%nat; [apply IH|].
    destruct (tiebreak_of tb) as [tiebreak|x]; [|discriminate].
    cbn [rbind]. rewrite parse_tokens_out.
    destruct (parse_tokens rest (n + 1) []) as [later|x] eqn:E;
      [|discriminate].
    cbn [rbind]. intro H. inversion H.
    cbn [app map ps_set List.length range_from].
    now rewrite (IH _ _ E).
Qed.

Lemma tiebreak_of_fits (tb : option string) :
  fits tb -> tiebreak_of tb = Return (option_map int_of_digits tb).
Proof.
  destruct tb as [t|]; [|reflexivity].
  unfold fits, tiebreak_of, py_int_of_digits. intro H.
  apply N.ltb_ge in H. now rewrite H.
Qed.

Lemma ones_digits (n : nat) : all_chars is_digit (ones n) = true.
Proof. induction n as [|n IH]; [reflexivity | exact IH]. Qed.

Lemma ones_length (n : nat) : String.length (ones n) = n.
Proof. induction n as [|n IH]; [reflexivity | simpl; now rewrite IH]. Qed.

Lemma ones_decimal (n : nat) : only_decimal_digits (ones (S n)).
Proof.
  split; [discriminate|]. unfold chars.
  induction (S n) as [|k IH]; simpl; constructor; [reflexivity | assumption].
Qed.

(** C2 (as amended).  The parser splits the string on white space and
    takes the tokens in order.  A token equal up to case to a
    non-completion marker ends the loop with the sets recorded so far; a
    token that is not a marker and holds fewer than two digits is passed
    over; a token [dd] or [dd(t)] whose count [t] has at most 4300 digits
    appends the set numbered one more than the last, with the first digit
    as side one's games, the second as side two's and [t] as the
    tiebreak, and one whose count is longer makes the parser raise a value
    error; the set numbers of a parse are 1, 2, ... in order.  The two
    strings of the specification parse as it says. *)
Theorem parse_result_string_spec :
  (forall s, s <> "" ->
     parse_result_string (JStr s)
     = (out <-- parse_tokens (split s) 0 [] ;; Return (sets_or_none out))) /\
  (forall t c r, t <> "" -> all_chars no_space t = true -> is_space c = true ->
     split (t ++ String c r) = t :: split r) /\
  (forall c r, is_space c = true -> split (String c r) = split r) /\
  (forall t, t <> "" -> all_chars no_space t = true -> split t = [t]) /\
  (forall tok rest n out, is_marker tok ->
     parse_tokens (tok :: rest) n out = Return out) /\
  (forall tok rest n out, ~ is_marker tok -> (digit_count tok < 2)%nat ->
     parse_tokens (tok :: rest) n out = parse_tokens rest n out) /\
  (forall d1 d2 tb tok rest n out,
     is_digit d1 = true -> is_digit d2 = true -> set_token d1 d2 tb tok ->
     fits tb ->
     parse_tokens (tok :: rest) n out
     = parse_tokens rest (n + 1)
         (out ++ [mkParsedSet (n + 1) (digit_value d1) (digit_value d2)
                    (option_map int_of_digits tb)])) /\
  (forall d1 d2 t tok rest n out,
     is_digit d1 = true -> is_digit d2 = true ->
     set_token d1 d2 (Some t) tok -> ~ fits (Some t) ->
     parse_tokens (tok :: rest) n out = Raise ValueError) /\
  (forall tokens sets,
     parse_tokens tokens 0 [] = Return sets ->
     map ps_set sets = range_from 1 (List.length sets)) /\
  parse_result_string (JStr "64 76(7) 63")
  = Return (Some [mkParsedSet 1 6 4 None; mkParsedSet 2 7 6 (Some 7);
                  mkParsedSet 3 6 3 None]) /\
  parse_result_string (JStr "61 2 RET")
  = Return (Some [mkParsedSet 1 6 1 None]).
Proof.
  assert (Hstart : forall d1 d2 tb tok rest n out,
     is_digit d1 = true -> is_digit d2 = true -> set_token d1 d2 tb tok ->
     parse_tokens (tok :: rest) n out
     = (tiebreak <-- tiebreak_of tb ;;
        parse_tokens rest (n + 1)
          (out ++ [mkParsedSet (n + 1) (digit_value d1) (digit_value d2)
                     tiebreak]))).
  { intros d1 d2 tb tok rest n out H1 H2 Htok.
    pose proof (set_token_match_accepts d1 d2 tb tok H1 H2 Htok) as Em.
    cbn [parse_tokens]. rewrite Em.
    assert (Hnm : in_markers (upper tok) = false).
    { destruct Htok; now apply digit_first_not_marker. }
    rewrite Hnm. reflexivity. }
  repeat apply conj.
  - intros s Hs. unfold parse_result_string.
    apply is_empty_false in Hs. rewrite Hs, split_strip. reflexivity.
  - intros t c r Hne Ht Hc. unfold split.
    rewrite split_from_run by assumption. simpl. rewrite Hc.
    apply is_empty_false in Hne. now rewrite Hne.
  - intros c r Hc. unfold split. simpl. now rewrite Hc.
  - intros t Hne Ht. unfold split.
    rewrite <- (string_app_nil_r t) at 1.
    rewrite split_from_run by assumption. simpl.
    apply is_empty_false in Hne. now rewrite Hne.
  - intros tok rest n out Hm. apply is_marker_iff in Hm.
    cbn [parse_tokens]. now rewrite Hm.
  - intros tok rest n out Hm Hd. cbn [parse_tokens].
    destruct (in_markers (upper tok)) eqn:E;
      [apply is_marker_iff in E; contradiction|].
    destruct (_SET_TOKEN_RE_match tok) as [[digits tb]|] eqn:Em; [|reflexivity].
    apply set_token_match_digits in Em.
    destruct (String.length digits <? 2)%nat eqn:El; [reflexivity|].
    apply Nat.ltb_ge in El. lia.
  - intros d1 d2 tb tok rest n out H1 H2 Htok Hfits.
    rewrite (Hstart d1 d2 tb tok rest n out H1 H2 Htok).
    now rewrite (tiebreak_of_fits tb Hfits).
  - intros d1 d2 t tok rest n out H1 H2 Htok Hlong.
    rewrite (Hstart d1 d2 (Some t) tok rest n out H1 H2 Htok).
    unfold tiebreak_of, py_int_of_digits, fits in *.
    destruct (INT_MAX_STR_DIGITS <? N.of_nat (String.length t))%N eqn:E;
      [reflexivity|].
    apply N.ltb_ge in E. contradiction.
  - intros tokens sets H. apply (parse_tokens_numbers tokens 0 sets H).
  - vm_compute; reflexivity.
  - vm_compute; reflexivity.
Qed.

(* ================================================================= *)
(** ** api/matches.py: resolving a tournament identifier *)

Lemma reg_lookup_none (tournaments : registry) (k : string) :
  reg_lookup tournaments k = None <-> ~ In k (map fst tournaments).
Proof.
  induction tournaments as [|[k' t] r IH]; simpl; [tauto|].
  destruct (String.eqb k' k) eqn:E.
  - apply String.eqb_eq in E. split; [discriminate | intro H; tauto].
  - apply String.eqb_neq in E. rewrite IH. tauto.
Qed.

Lemma reg_lookup_in (tournaments : registry) (k : string) :
  In k (map fst tournaments) -> exists t, reg_lookup tournaments k = Some t.
Proof.
  intro H. destruct (reg_lookup tournaments k) as [t|] eqn:E; [now exists t|].
  apply reg_lookup_none in E. contradiction.
Qed.


Lemma find_none_all {A : Type} (f : A -> bool) (l : list A) :
  Forall (fun y => f y = false) l -> find f l = None.
Proof.
  induction 1 as [|y l Hy _ IH]; simpl; [reflexivity | now rewrite Hy].
Qed.

Lemma name_matches_iff (key : string) (entry : string * pydict) :
  name_matches (lower key) entry = true
  <-> eq_ignore_case (display_name (snd entry)) key.
Proof. unfold name_matches, eq_ignore_case, display_name. apply String.eqb_eq. Qed.

Lemma name_matches_false (key : string) (entry : string * pydict) :
  ~ eq_ignore_case (display_name (snd entry)) key ->
  name_matches (lower key) entry = false.
Proof.
  intro H. destruct (name_matches (lower key) entry) eqn:E; [|reflexivity].
  apply name_matches_iff in E. contradiction.
Qed.

Lemma isdigit_iff (s : string) : isdigit s = true <-> only_digit_characters s.
Proof.
  unfold isdigit, only_digit_characters, chars.
  rewrite andb_true_iff, negb_true_iff, is_empty_false.
  apply and_iff_compat_l.
  induction s as [|c s IH]; simpl.
  - split; auto.
  - rewrite andb_true_iff, IH. split.
    + intros [H1 H2]. now constructor.
    + intro H. inversion H; subst. auto.
Qed.

(** The decimal digits are digit characters. *)
Lemma decimal_digit_characters (s : string) :
  only_decimal_digits s -> only_digit_characters s.
Proof.
  intros [Hne H]. split; [assumption|].
  eapply Forall_impl; [|exact H].
  intros c Hc. unfold is_digit_character. now rewrite Hc.
Qed.

Lemma resolve_tournament_id_exact (key : string) (tournaments : registry) :
  In key (map fst tournaments) ->
  resolve_tournament_id key tournaments = Some key.
Proof.
  intro Hin. unfold resolve_tournament_id.
  destruct (reg_lookup_in _ _ Hin) as [t ->]. reflexivity.
Qed.


Lemma resolve_tournament_id_unnamed (key : string) (tournaments : registry) :
  ~ In key (map fst tournaments) ->
  Forall (fun e => ~ eq_ignore_case (display_name (snd e)) key) tournaments ->
  resolve_tournament_id key tournaments
  = if isdigit key then Some key else None.
Proof.
  intros Hnot Hnone. unfold resolve_tournament_id.
  apply reg_lookup_none in Hnot. rewrite Hnot.
  rewrite find_none_all; [reflexivity|].
  eapply Forall_impl; [|exact Hnone]. intros e. apply name_matches_false.
Qed.

Lemma resolve_tournament_id_digit_characters (key : string)
    (tournaments : registry) :
  ~ In key (map fst tournaments) ->
  Forall (fun e => ~ eq_ignore_case (display_name (snd e)) key) tournaments ->
  only_digit_characters key ->
  resolve_tournament_id key tournaments = Some key.
Proof.
  intros Hnot Hnone Hd. rewrite resolve_tournament_id_unnamed by assumption.
  apply isdigit_iff in Hd. now rewrite Hd.
Qed.

Lemma resolve_tournament_id_digits (key : string) (tournaments : registry) :
  ~ In key (map fst tournaments) ->
  Forall (fun e => ~ eq_ignore_case (display_name (snd e)) key) tournaments ->
  only_decimal_digits key ->
  resolve_tournament_id key tournaments = Some key.
Proof.
  intros Hnot Hnone Hd.
  apply resolve_tournament_id_digit_characters; try assumption.
  now apply decimal_digit_characters.
Qed.


(* ================================================================= *)
(** ** Keys, dicts keyed by objects, and [sorted] *)

Lemma Qeq_bool_compat (x y z : Q) :
  Qeq_bool x y = true -> Qeq_bool z x = Qeq_bool z y.
Proof.
  intro H. destruct (Qeq_bool z y) eqn:E.
  - apply Qeq_bool_trans with y; [assumption | now apply Qeq_bool_sym].
  - destruct (Qeq_bool z x) eqn:E'; [|reflexivity].
    rewrite (Qeq_bool_trans _ _ _ E' H) in E. discriminate.
Qed.

Lemma key_eq_refl (k : json) : hashable k = true -> key_eq k k = true.
Proof.
  destruct k as [|b|n|[|s|q]|s|l|d]; simpl; intro H; try discriminate;
    unfold key_eq; simpl;
    auto using Qeq_bool_refl, String.eqb_refl, Bool.eqb_reflx.
Qed.

Lemma key_eq_sym (a b : json) : key_eq a b = key_eq b a.
Proof.
  unfold key_eq.
  destruct (key_num a) as [x|] eqn:Ea, (key_num b) as [y|] eqn:Eb;
    try reflexivity.
  - apply Qeq_bool_comm.
  - destruct a as [|?|?|[|s|?]|s|?|?], b as [|?|?|[|t|?]|t|?|?];
      try reflexivity; try discriminate.
    + destruct s, t; reflexivity.
    + apply String.eqb_sym.
Qed.

Lemma key_eq_compat_r (a b : json) :
  key_eq a b = true -> forall c, key_eq c a = key_eq c b.
Proof.
  unfold key_eq.
  destruct (key_num a) as [x|] eqn:Ea, (key_num b) as [y|] eqn:Eb;
    try discriminate; intros H c.
  - destruct (key_num c); [now apply Qeq_bool_compat | reflexivity].
  - destruct (key_num c) as [z|] eqn:Ec; [reflexivity|].
    destruct a as [|?|?|[|s|?]|s|?|?], b as [|?|?|[|t|?]|t|?|?];
      try discriminate; try reflexivity.
    + apply Bool.eqb_prop in H. now subst.
    + apply String.eqb_eq in H. now subst.
Qed.

Lemma key_eq_compat_l (a b : json) :
  key_eq a b = true -> forall c, key_eq a c = key_eq b c.
Proof.
  intros H c. rewrite (key_eq_sym a c), (key_eq_sym b c).
  now apply key_eq_compat_r.
Qed.

Lemma inject_Z_eqb (n m : Z) :
  Qeq_bool (inject_Z n) (inject_Z m) = (n =? m).
Proof.
  unfold Qeq_bool, inject_Z. simpl. rewrite !Z.mul_1_r.
  destruct (Z.eqb_spec n m) as [->|Hne].
  - destruct (Z.eq_dec m m); [reflexivity | contradiction].
  - destruct (Z.eq_dec n m); [contradiction | reflexivity].
Qed.

Lemma key_num_int (k : json) (n : Z) :
  int_value k = Some n -> key_num k = Some (inject_Z n).
Proof.
  destruct k as [|b|m|f|s|l|d]; simpl; intro H; inversion H; reflexivity.
Qed.

Lemma key_eq_int (a b : json) (n m : Z) :
  int_value a = Some n -> int_value b = Some m -> key_eq a b = (n =? m).
Proof.
  intros Ha Hb. unfold key_eq.
  rewrite (key_num_int _ _ Ha), (key_num_int _ _ Hb). apply inject_Z_eqb.
Qed.

Lemma is_positive_int_value (k : json) :
  is_positive_int k = true -> int_value k = Some (int_of k) /\ 1 <= int_of k.
Proof.
  unfold is_positive_int, int_of. destruct (int_value k) as [n|]; [|discriminate].
  intro H. apply Z.leb_le in H. auto.
Qed.

(* ----------------------------------------------------------------- *)
(** *** Lists *)

Lemma find_app {A : Type} (f : A -> bool) (l1 l2 : list A) :
  find f (l1 ++ l2)
  = match find f l1 with Some x => Some x | None => find f l2 end.
Proof.
  induction l1 as [|a l1 IH]; simpl; [reflexivity|].
  destruct (f a); [reflexivity | assumption].
Qed.

Lemma find_ext {A : Type} (f g : A -> bool) (l : list A) :
  (forall x, f x = g x) -> find f l = find g l.
Proof.
  intro H. induction l as [|a l IH]; simpl; [reflexivity|].
  rewrite H, IH. reflexivity.
Qed.

Lemma find_none_existsb {A : Type} (f : A -> bool) (l : list A) :
  find f l = None <-> existsb f l = false.
Proof.
  induction l as [|a l IH]; simpl; [tauto|].
  destruct (f a); simpl; [split; discriminate | assumption].
Qed.

Lemma perm_filter {A : Type} (f : A -> bool) (l l' : list A) :
  Permutation l l' -> Permutation (filter f l) (filter f l').
Proof.
  induction 1 as [|x l l' _ IH|x y l|l l' l'' _ IH1 _ IH2]; simpl.
  - constructor.
  - destruct (f x); [now constructor | assumption].
  - destruct (f x), (f y); try reflexivity. constructor.
  - now transitivity (filter f l').
Qed.

(* ----------------------------------------------------------------- *)
(** *** [sorted] *)

Lemma insert_sorted_perm (k : json) (l : list json) :
  Permutation (insert_sorted k l) (k :: l).
Proof.
  induction l as [|h t IH]; simpl; [reflexivity|].
  destruct (int_of k <? int_of h); [reflexivity|].
  rewrite IH. constructor.
Qed.

Lemma sorted_from_perm (l : list json) :
  forall acc,
    Permutation (fold_left (fun acc k => insert_sorted k acc) l acc) (l ++ acc).
Proof.
  induction l as [|k l IH]; intro acc; simpl; [reflexivity|].
  rewrite IH, insert_sorted_perm. symmetry. apply Permutation_middle.
Qed.

Lemma sorted_perm (l : list json) : Permutation (sorted l) l.
Proof.
  unfold sorted. rewrite sorted_from_perm. now rewrite app_nil_r.
Qed.

Lemma insert_sorted_ordered (k : json) (l : list json) :
  StronglySorted int_le l -> StronglySorted int_le (insert_sorted k l).
Proof.
  induction 1 as [|h t Hs IH Hh]; simpl.
  - repeat constructor.
  - destruct (int_of k <? int_of h) eqn:E.
    + apply Z.ltb_lt in E. constructor; [now constructor|].
      constructor; [unfold int_le; lia|].
      eapply Forall_impl; [|exact Hh]. unfold int_le. intros; lia.
    + apply Z.ltb_ge in E. constructor; [assumption|].
      eapply Permutation_Forall; [symmetry; apply insert_sorted_perm|].
      constructor; [exact E | exact Hh].
Qed.

Lemma sorted_from_ordered (l : list json) :
  forall acc,
    StronglySorted int_le acc ->
    StronglySorted int_le (fold_left (fun acc k => insert_sorted k acc) l acc).
Proof.
  induction l as [|k l IH]; intros acc H; simpl; [assumption|].
  apply IH. now apply insert_sorted_ordered.
Qed.

Lemma sorted_ordered (l : list json) : StronglySorted int_le (sorted l).
Proof. apply sorted_from_ordered. constructor. Qed.

Lemma ordered_strict (l : list json) :
  StronglySorted int_le l -> NoDup (map int_of l) -> StronglySorted int_lt l.
Proof.
  induction 1 as [|h t Hs IH Hh]; simpl; intro Hnd; [constructor|].
  inversion Hnd as [|? ? Hnot Hnd']; subst.
  constructor; [now apply IH|].
  rewrite Forall_forall in *. intros x Hx. specialize (Hh x Hx).
  unfold int_le, int_lt in *.
  assert (int_of h <> int_of x).
  { intro E. apply Hnot. rewrite E. now apply in_map. }
  lia.
Qed.

Lemma strict_map (l : list json) :
  StronglySorted int_lt l -> StronglySorted Z.lt (map int_of l).
Proof.
  induction 1 as [|h t Hs IH Hh]; simpl; constructor; [assumption|].
  rewrite Forall_forall in *. intros x Hx.
  apply in_map_iff in Hx as (y & <- & Hy). now apply Hh.
Qed.

Lemma strict_nodup (l : list Z) : StronglySorted Z.lt l -> NoDup l.
Proof.
  induction 1 as [|h t Hs IH Hh]; constructor; [|assumption].
  intro Hin. rewrite Forall_forall in Hh. specialize (Hh h Hin). lia.
Qed.

(** Of a set of ints there is one strictly ascending list. *)
Lemma strict_unique (l1 : list json) :
  forall l2,
    StronglySorted int_lt l1 -> StronglySorted int_lt l2 ->
    Permutation l1 l2 -> l1 = l2.
Proof.
  induction l1 as [|a l1 IH]; intros l2 H1 H2 Hp.
  - apply Permutation_nil in Hp. now subst.
  - destruct l2 as [|b l2].
    + symmetry in Hp. apply Permutation_nil_cons in Hp. contradiction.
    + apply StronglySorted_inv in H1 as [H1 Ha].
      apply StronglySorted_inv in H2 as [H2 Hb].
      rewrite Forall_forall in Ha, Hb.
      assert (a = b) as ->.
      { assert (Hab : In a (b :: l2))
          by (apply (Permutation_in _ Hp); now left).
        assert (Hba : In b (a :: l1))
          by (apply (Permutation_in _ (Permutation_sym Hp)); now left).
        destruct Hab as [E|Hab]; [now subst|].
        destruct Hba as [E|Hba]; [now subst|].
        specialize (Ha b Hba). specialize (Hb a Hab).
        unfold int_lt in *. lia. }
      f_equal. apply IH; try assumption.
      now apply Permutation_cons_inv in Hp.
Qed.

Lemma sorted_unique (l1 l2 : list json) :
  NoDup (map int_of l1) -> Permutation l1 l2 -> sorted l1 = sorted l2.
Proof.
  intros Hnd Hp. apply strict_unique.
  - apply ordered_strict; [apply sorted_ordered|].
    eapply Permutation_NoDup; [|exact Hnd].
    apply Permutation_map. symmetry. apply sorted_perm.
  - apply ordered_strict; [apply sorted_ordered|].
    eapply Permutation_NoDup; [|exact Hnd].
    apply Permutation_map. rewrite Hp. symmetry. apply sorted_perm.
  - rewrite !sorted_perm. assumption.
Qed.

(* ----------------------------------------------------------------- *)
(** *** Dicts keyed by objects *)

Lemma key_mem_false (k : json) (s : list json) :
  key_mem k s = false <-> forall k', In k' s -> key_eq k' k = false.
Proof.
  unfold key_mem. induction s as [|a s IH]; simpl.
  - split; [intros _ k' [] | reflexivity].
  - rewrite orb_false_iff, IH. split.
    + intros [Ha Hs] k' [<-|Hin]; auto.
    + intro H. split; [apply H; now left | intros k' Hk; apply H; now right].
Qed.

Lemma key_mem_compat (a b : json) (s : list json) :
  key_eq a b = true -> key_mem a s = key_mem b s.
Proof.
  intro H. unfold key_mem. induction s as [|c s IH]; simpl; [reflexivity|].
  now rewrite IH, (key_eq_compat_r a b H c).
Qed.

Lemma key_mem_app (k : json) (s t : list json) :
  key_mem k (s ++ t) = key_mem k s || key_mem k t.
Proof. unfold key_mem. apply existsb_app. Qed.

Lemma kdict_set_keys (d : kdict) (k v : json) :
  map fst (kdict_set d k v) = add_key (map fst d) k.
Proof.
  unfold add_key. induction d as [|[k' v'] r IH]; simpl; [reflexivity|].
  unfold key_mem in *. simpl. destruct (key_eq k' k); simpl; [reflexivity|].
  rewrite IH. now destruct (existsb (fun k'0 => key_eq k'0 k) (map fst r)).
Qed.

Lemma build_keys (kvs : list (json * json)) :
  forall acc, map fst (build kvs acc) = dedup (map fst kvs) (map fst acc).
Proof.
  unfold build, dedup.
  induction kvs as [|kv kvs IH]; intro acc; simpl; [reflexivity|].
  now rewrite IH, kdict_set_keys.
Qed.

Lemma kdict_get_set (d : kdict) (k v n default : json) :
  kdict_get (kdict_set d k v) n default
  = if key_eq k n then v else kdict_get d n default.
Proof.
  induction d as [|[k' v'] r IH]; simpl; [reflexivity|].
  destruct (key_eq k' k) eqn:E; simpl.
  - rewrite (key_eq_compat_l k' k E n). now destruct (key_eq k n).
  - rewrite IH. destruct (key_eq k' n) eqn:En; [|reflexivity].
    rewrite (key_eq_compat_l k' n En k) in E.
    rewrite key_eq_sym in E. now rewrite E.
Qed.

Lemma build_get (kvs : list (json * json)) :
  forall acc n default,
    kdict_get (build kvs acc) n default
    = match find (fun kv => key_eq (fst kv) n) (rev kvs) with
      | Some kv => snd kv
      | None => kdict_get acc n default
      end.
Proof.
  unfold build.
  induction kvs as [|kv kvs IH]; intros acc n default; simpl; [reflexivity|].
  rewrite IH, find_app, kdict_get_set. simpl.
  destruct (find (fun kv0 => key_eq (fst kv0) n) (rev kvs)); [reflexivity|].
  now destruct (key_eq (fst kv) n).
Qed.

Lemma by_set_total (sets : list json) :
  forall acc,
    hashable_set_numbers sets ->
    by_set sets acc = Return (build (keyed_sets sets) acc).
Proof.
  unfold hashable_set_numbers, set_number_keys.
  induction sets as [|s sets IH]; intros acc H; [reflexivity|].
  destruct s as [| | | | | |d]; simpl in *; try (now apply IH).
  inversion H as [|? ? Hk Hr]; subst. rewrite Hk. now apply IH.
Qed.

Lemma by_set_return (sets : list json) :
  forall acc d,
    by_set sets acc = Return d ->
    hashable_set_numbers sets /\ d = build (keyed_sets sets) acc.
Proof.
  unfold hashable_set_numbers, set_number_keys.
  induction sets as [|s sets IH]; intros acc d H.
  - simpl in *. inversion H. split; [constructor | reflexivity].
  - destruct s as [| | | | | |s]; simpl in *; try (now apply IH).
    destruct (hashable (get s "SetNumber")) eqn:E; [|discriminate].
    destruct (IH _ _ H) as [Hh ->]. split; [now constructor | reflexivity].
Qed.

Lemma dedup_mem (ks : list json) :
  forall acc k, key_mem k (dedup ks acc) = key_mem k acc || key_mem k ks.
Proof.
  unfold dedup.
  induction ks as [|a ks IH]; intros acc k; simpl.
  - now rewrite orb_false_r.
  - rewrite IH. unfold add_key.
    change (key_mem k (a :: ks)) with (key_eq a k || key_mem k ks).
    destruct (key_mem a acc) eqn:Ea.
    + destruct (key_eq a k) eqn:E; [|reflexivity].
      rewrite <- (key_mem_compat a k acc E), Ea. reflexivity.
    + rewrite key_mem_app. unfold key_mem at 2. simpl.
      now rewrite orb_false_r, orb_assoc.
Qed.

Lemma dedup_in (ks : list json) :
  Forall (fun k => hashable k = true) ks ->
  forall acc k,
    In k (dedup ks acc)
    <-> In k acc \/
        (key_mem k acc = false /\ find (fun k' => key_eq k' k) ks = Some k).
Proof.
  unfold dedup.
  induction 1 as [|a ks Ha _ IH]; intros acc k; simpl.
  - split; [auto | intros [H|[_ H]]; [assumption | discriminate]].
  - rewrite IH. unfold add_key. destruct (key_mem a acc) eqn:Ea.
    + destruct (key_eq a k) eqn:E; [|tauto].
      rewrite <- (key_mem_compat a k acc E), Ea.
      split; intros [H|[H _]]; auto; discriminate.
    + rewrite in_app_iff, key_mem_app. unfold key_mem at 2. simpl.
      rewrite orb_false_r, orb_false_iff.
      destruct (key_eq a k) eqn:E.
      * split.
        -- intros [[H|[<-|[]]]|[[_ H] _]].
           ++ now left.
           ++ right. now rewrite Ea.
           ++ discriminate.
        -- intros [H|[_ H]]; [auto|]. inversion H; subst. left; right; now left.
      * split.
        -- intros [[H|[<-|[]]]|[[H1 _] H2]].
           ++ now left.
           ++ rewrite key_eq_refl in E by assumption. discriminate.
           ++ right. auto.
        -- intros [H|[H1 H2]]; auto.
Qed.

Lemma distinct_snoc (acc : list json) (a : json) :
  distinct_keys acc -> key_mem a acc = false -> distinct_keys (acc ++ [a]).
Proof.
  induction acc as [|b acc IH]; simpl; intros Hd Ha.
  - split; [intros ? [] | exact I].
  - destruct Hd as [Hb Hd].
    unfold key_mem in Ha. simpl in Ha. apply orb_false_iff in Ha as [Hba Ha].
    split; [|now apply IH].
    intros c Hc. apply in_app_iff in Hc as [Hc|[<-|[]]]; auto.
Qed.

Lemma dedup_distinct (ks : list json) :
  forall acc, distinct_keys acc -> distinct_keys (dedup ks acc).
Proof.
  unfold dedup.
  induction ks as [|a ks IH]; intros acc Hd; simpl; [assumption|].
  apply IH. unfold add_key. destruct (key_mem a acc) eqn:Ea; [assumption|].
  now apply distinct_snoc.
Qed.

Lemma distinct_filter (f : json -> bool) (l : list json) :
  distinct_keys l -> distinct_keys (filter f l).
Proof.
  induction l as [|a l IH]; simpl; [auto|]. intros [Ha Hl].
  destruct (f a); simpl; [|now apply IH].
  split; [|now apply IH].
  intros b Hb. apply filter_In in Hb as [Hb _]. now apply Ha.
Qed.

Lemma distinct_app (s t : list json) :
  distinct_keys s -> distinct_keys t ->
  (forall a b, In a s -> In b t -> key_eq a b = false) ->
  distinct_keys (s ++ t).
Proof.
  induction s as [|a s IH]; simpl; intros Hs Ht Hc; [assumption|].
  destruct Hs as [Ha Hs]. split.
  - intros b Hb. apply in_app_iff in Hb as [Hb|Hb]; auto.
  - apply IH; auto.
Qed.

Lemma set_union_distinct (s t : list json) :
  distinct_keys s -> distinct_keys t -> distinct_keys (set_union s t).
Proof.
  intros Hs Ht. unfold set_union. apply distinct_app.
  - assumption.
  - now apply distinct_filter.
  - intros a b Ha Hb. apply filter_In in Hb as [_ Hb].
    apply negb_true_iff in Hb. now apply (proj1 (key_mem_false b s) Hb).
Qed.

Lemma distinct_ints (l : list json) :
  distinct_keys l -> NoDup (map int_of (filter is_positive_int l)).
Proof.
  induction l as [|a l IH]; simpl; [constructor|]. intros [Ha Hl].
  destruct (is_positive_int a) eqn:Ea; simpl; [|now apply IH].
  constructor; [|now apply IH].
  intro Hin. apply in_map_iff in Hin as (b & Eb & Hb).
  apply filter_In in Hb as [Hb Hpb].
  apply is_positive_int_value in Ea as [Va _].
  apply is_positive_int_value in Hpb as [Vb _].
  specialize (Ha b Hb). rewrite (key_eq_int _ _ _ _ Va Vb) in Ha.
  apply Z.eqb_neq in Ha. congruence.
Qed.

(** A key is in the union of the key sets of the two dicts exactly when
    it is the first object, over both insertion sequences, to equal it. *)
Lemma set_union_in (ks1 ks2 : list json) (k : json) :
  Forall (fun k => hashable k = true) ks1 ->
  Forall (fun k => hashable k = true) ks2 ->
  In k (set_union (dedup ks1 []) (dedup ks2 []))
  <-> find (fun k' => key_eq k' k) (ks1 ++ ks2) = Some k.
Proof.
  intros H1 H2. unfold set_union.
  rewrite in_app_iff, filter_In, negb_true_iff, find_app.
  rewrite !dedup_in by assumption. rewrite dedup_mem. simpl.
  destruct (find (fun k' => key_eq k' k) ks1) as [k1|] eqn:E1.
  - assert (Hm : key_mem k ks1 = true).
    { destruct (key_mem k ks1) eqn:Em; [reflexivity|].
      apply find_none_existsb in Em. unfold key_mem in Em. congruence. }
    rewrite Hm. split.
    + intros [[[]|[_ H]]|[_ H]]; [assumption | discriminate].
    + intro H. left; right. auto.
  - apply find_none_existsb in E1. unfold key_mem. rewrite E1. split.
    + intros [[[]|[_ H]]|[[[]|[_ H]] _]]; [discriminate | assumption].
    + intro H. right. auto.
Qed.

(* ================================================================= *)
(** ** api/matches.py: the score of a normalized match *)

(** The order in which the sets are walked does not show in the set
    numbers. *)
Lemma set_numbers_of_canonical (p1_by_set p2_by_set : kdict) :
  distinct_keys (map fst p1_by_set) -> distinct_keys (map fst p2_by_set) ->
  set_numbers_of p1_by_set p2_by_set
  = sorted (filter is_positive_int
              (set_union (map fst p1_by_set) (map fst p2_by_set))).
Proof using set_iteration_order_perm.
  intros H1 H2. unfold set_numbers_of.
  set (u := set_union (map fst p1_by_set) (map fst p2_by_set)).
  assert (Hp : Permutation (filter is_positive_int (set_iteration_order rt 0 u))
                           (filter is_positive_int u))
    by (apply perm_filter, set_iteration_order_perm).
  assert (Hnd : NoDup (map int_of (filter is_positive_int u)))
    by (apply distinct_ints, set_union_distinct; assumption).
  apply sorted_unique.
  - eapply Permutation_NoDup; [|exact Hnd].
    apply Permutation_map. symmetry.
    now rewrite set_iteration_order_perm.
  - now rewrite set_iteration_order_perm.
Qed.

Lemma build_distinct (kvs : list (json * json)) :
  distinct_keys (map fst (build kvs [])).
Proof. rewrite build_keys. apply dedup_distinct. exact I. Qed.


Lemma score_from_set_numbers (l1 l2 : list json) :
  set_numbers (score_from l1 l2)
  = map int_of
      (sorted (filter is_positive_int
                 (set_union (dedup (set_number_keys l1) [])
                            (dedup (set_number_keys l2) [])))).
Proof.
  unfold set_numbers, score_from. rewrite map_map, !build_keys. reflexivity.
Qed.

Lemma score_from_ascending (l1 l2 : list json) :
  StronglySorted Z.lt (set_numbers (score_from l1 l2)).
Proof.
  rewrite score_from_set_numbers.
  apply strict_map, ordered_strict; [apply sorted_ordered|].
  eapply Permutation_NoDup.
  - apply Permutation_map. symmetry. apply sorted_perm.
  - apply distinct_ints, set_union_distinct; apply dedup_distinct; exact I.
Qed.

Lemma score_from_positive (l1 l2 : list json) :
  Forall (fun s => is_positive_int (se_set s) = true) (score_from l1 l2).
Proof.
  unfold score_from. rewrite Forall_map. simpl.
  eapply Permutation_Forall; [symmetry; apply sorted_perm|].
  rewrite Forall_forall. intros k Hk. now apply filter_In in Hk.
Qed.

Lemma score_from_numbers (l1 l2 : list json) :
  hashable_set_numbers l1 -> hashable_set_numbers l2 ->
  forall n,
    In n (set_numbers (score_from l1 l2))
    <-> 1 <= n /\
        exists k, first_key l1 l2 (JInt n) = Some k /\ int_value k = Some n.
Proof.
  intros H1 H2 n. rewrite score_from_set_numbers, in_map_iff. unfold first_key.
  assert (Hsame : forall k, int_value k = Some n ->
            find (fun k' => key_eq k' (JInt n))
                 (set_number_keys l1 ++ set_number_keys l2)
            = find (fun k' => key_eq k' k)
                 (set_number_keys l1 ++ set_number_keys l2)).
  { intros k Hk. apply find_ext. intro c. symmetry.
    apply key_eq_compat_r. rewrite (key_eq_int k (JInt n) n n Hk eq_refl).
    apply Z.eqb_refl. }
  split.
  - intros (k & <- & Hk).
    apply (Permutation_in _ (sorted_perm _)) in Hk.
    apply filter_In in Hk as [Hk Hpos].
    apply is_positive_int_value in Hpos as [Hv Hge].
    split; [assumption|]. exists k. split; [|assumption].
    rewrite (Hsame k Hv). now apply set_union_in.
  - intros (Hge & k & Hfind & Hv). exists k.
    assert (Hn : int_of k = n) by (unfold int_of; now rewrite Hv).
    split; [assumption|].
    apply (Permutation_in _ (Permutation_sym (sorted_perm _))).
    apply filter_In. split.
    + apply set_union_in; try assumption. now rewrite <- (Hsame k Hv).
    + unfold is_positive_int. rewrite Hv. now apply Z.leb_le.
Qed.

Lemma last_with_number_get (sets : list json) (n : json) :
  last_with_number sets n = kdict_get (build (keyed_sets sets) []) n (JDict []).
Proof. unfold last_with_number. now rewrite build_get. Qed.

Lemma score_from_entries (l1 l2 : list json) :
  Forall (entry_from l1 l2) (score_from l1 l2).
Proof.
  unfold score_from. rewrite Forall_map, Forall_forall. intros k _.
  unfold entry_from, score_entry_for. simpl.
  rewrite !last_with_number_get. auto.
Qed.

Lemma score_of_return (mt : pydict) (score : list score_entry) :
  score_of mt = Return score ->
  match side_arrays mt with
  | Some (l1, l2) =>
      hashable_set_numbers l1 /\ hashable_set_numbers l2 /\
      score = score_from l1 l2
  | None => score = []
  end.
Proof using set_iteration_order_perm.
  unfold score_of, side_arrays.
  destruct (_get (JDict mt) ["PlayerTeam1"; "Sets"] (JList []))
    as [| | | | |l1|]; try (intro H; inversion H; reflexivity).
  destruct (_get (JDict mt) ["PlayerTeam2"; "Sets"] (JList []))
    as [| | | | |l2|]; try (intro H; inversion H; reflexivity).
  destruct (truthy (JList l1) || truthy (JList l2)) eqn:E.
  - destruct (by_set l1 []) as [d1|] eqn:E1; [|discriminate].
    destruct (by_set l2 []) as [d2|] eqn:E2; [|discriminate].
    apply by_set_return in E1 as [H1 ->]. apply by_set_return in E2 as [H2 ->].
    simpl. intro H. inversion H; subst. repeat split; try assumption.
    unfold score_from.
    rewrite set_numbers_of_canonical by apply build_distinct. reflexivity.
  - destruct l1, l2; try discriminate. intro H. inversion H.
    repeat split; constructor.
Qed.

Lemma score_of_total (mt : pydict) :
  (forall l1 l2, side_arrays mt = Some (l1, l2) ->
     hashable_set_numbers l1 /\ hashable_set_numbers l2) ->
  exists score, score_of mt = Return score.
Proof.
  unfold score_of, side_arrays.
  destruct (_get (JDict mt) ["PlayerTeam1"; "Sets"] (JList []))
    as [| | | | |l1|]; try (intros _; eexists; reflexivity).
  destruct (_get (JDict mt) ["PlayerTeam2"; "Sets"] (JList []))
    as [| | | | |l2|]; try (intros _; eexists; reflexivity).
  intro H. destruct (H l1 l2 eq_refl) as [H1 H2].
  destruct (truthy (JList l1) || truthy (JList l2)); [|eexists; reflexivity].
  rewrite (by_set_total l1 [] H1), (by_set_total l2 [] H2).
  eexists; reflexivity.
Qed.

Lemma flatten_match_data_dict (pl : pydict) (out : json) :
  flatten_match_data (JDict pl) = Return out ->
  exists score,
    score_of (match_of pl) = Return score /\
    field out "score" = list_or_none (map json_of_score_entry score).
Proof.
  unfold flatten_match_data. cbv zeta.
  destruct (score_of (match_of pl)) as [score|]; [|discriminate].
  cbn [rbind]. intro H. inversion H. exists score. split; reflexivity.
Qed.

Lemma match_of_object (pl mt : pydict) :
  match_object pl mt -> match_of pl = mt.
Proof.
  unfold match_object, match_of, get, get_default.
  intros [H | [H ->]]; [now rewrite H|].
  destruct (lookup pl "Match") as [[| | | | | |m]|]; try reflexivity.
  now contradiction (H m).
Qed.

Lemma sets_at_get (mt : pydict) (side : string) :
  _get (JDict mt) [side; "Sets"] (JList []) = sets_at mt side.
Proof.
  unfold sets_at. cbn [_get]. unfold get, get_default.
  destruct (lookup mt side) as [[| | | | | |team]|]; try reflexivity.
  destruct (lookup team "Sets") as [[]|]; reflexivity.
Qed.

Lemma side_arrays_sets_at (mt : pydict) :
  side_arrays mt
  = match sets_at mt "PlayerTeam1", sets_at mt "PlayerTeam2" with
    | JList l1, JList l2 => Some (l1, l2)
    | _, _ => None
    end.
Proof. unfold side_arrays. now rewrite !sets_at_get. Qed.

Lemma score_item_entry (l1 l2 : list json) (s : score_entry) :
  entry_from l1 l2 s ->
  json_of_score_entry s = score_item l1 l2 (se_set s).
Proof.
  unfold entry_from, json_of_score_entry, score_item. cbv zeta.
  intros (-> & -> & ->).
  now destruct (is_none _ && is_none _).
Qed.

Lemma score_items (l1 l2 : list json) (score : list score_entry) :
  Forall (entry_from l1 l2) score ->
  map json_of_score_entry score = map (score_item l1 l2) (map se_set score).
Proof.
  induction 1 as [|s score Hs _ IH]; [reflexivity|].
  cbn [map]. now rewrite IH, (score_item_entry l1 l2 s Hs).
Qed.

Lemma positive_int_value (k : json) :
  is_positive_int k = true -> exists n, int_value k = Some n /\ 1 <= n.
Proof.
  intro H. apply is_positive_int_value in H as [Hv Hge].
  exists (int_of k). split; [|assumption].
  unfold int_of in *. destruct (int_value k); [reflexivity | discriminate].
Qed.

(** C3.  The score of a normalized match has one entry per set number
    it lists, and the numbers it lists are positive integers, strictly
    ascending and without duplicates.  With the two per-side arrays read
    off the match object, a number is listed exactly when the first
    set-number object equal to it, over the first side's array and then
    the second's, is an integer; its entry holds each side's games and
    tiebreak from the last dict of that side with this number, and null
    for a side without one.  When one of the two is no list the score is
    null.  Normalization returns whenever no set number is a list or a
    dict. *)
Theorem flatten_match_data_score_ascending :
  (forall pl mt l1 l2 out,
     match_object pl mt ->
     sets_at mt "PlayerTeam1" = JList l1 ->
     sets_at mt "PlayerTeam2" = JList l2 ->
     flatten_match_data (JDict pl) = Return out ->
     exists numbers,
       field out "score" = list_or_none (map (score_item l1 l2) numbers) /\
       StronglySorted Z.lt (map int_of numbers) /\
       NoDup (map int_of numbers) /\
       Forall (fun k => exists n, int_value k = Some n /\ 1 <= n) numbers /\
       (forall n,
          In n (map int_of numbers)
          <-> 1 <= n /\
              exists k, first_key l1 l2 (JInt n) = Some k /\
                        int_value k = Some n)) /\
  (forall pl mt out,
     match_object pl mt ->
     (forall l, sets_at mt "PlayerTeam1" <> JList l) \/
     (forall l, sets_at mt "PlayerTeam2" <> JList l) ->
     flatten_match_data (JDict pl) = Return out ->
     field out "score" = JNull) /\
  (forall pl mt,
     match_object pl mt ->
     (forall l1 l2,
        sets_at mt "PlayerTeam1" = JList l1 ->
        sets_at mt "PlayerTeam2" = JList l2 ->
        hashable_set_numbers l1 /\ hashable_set_numbers l2) ->
     exists out, flatten_match_data (JDict pl) = Return out).
Proof using set_iteration_order_perm.
  split; [|split].
  - intros pl mt l1 l2 out Hm H1 H2 H.
    apply flatten_match_data_dict in H as (score & Hs & Hout).
    rewrite (match_of_object pl mt Hm) in Hs.
    apply score_of_return in Hs.
    rewrite side_arrays_sets_at, H1, H2 in Hs.
    destruct Hs as (Hh1 & Hh2 & ->).
    exists (map se_set (score_from l1 l2)).
    split; [now rewrite Hout, (score_items l1 l2 _ (score_from_entries l1 l2))|].
    rewrite map_map. fold (set_numbers (score_from l1 l2)).
    split; [apply score_from_ascending|].
    split; [apply strict_nodup, score_from_ascending|].
    split; [|now apply score_from_numbers].
    rewrite Forall_map. eapply Forall_impl; [|apply score_from_positive].
    intros s Hs. now apply positive_int_value.
  - intros pl mt out Hm Hno H.
    apply flatten_match_data_dict in H as (score & Hs & Hout).
    rewrite (match_of_object pl mt Hm) in Hs.
    apply score_of_return in Hs. rewrite side_arrays_sets_at in Hs.
    destruct (sets_at mt "PlayerTeam1") as [| | | | |l1|] eqn:E1;
      try (subst score; exact Hout).
    destruct (sets_at mt "PlayerTeam2") as [| | | | |l2|] eqn:E2;
      try (subst score; exact Hout).
    destruct Hno as [Hno|Hno]; [now contradiction (Hno l1) |
                                now contradiction (Hno l2)].
  - intros pl mt Hm H.
    destruct (score_of_total (match_of pl)) as [score Hs].
    + rewrite (match_of_object pl mt Hm), side_arrays_sets_at.
      intros l1 l2 Hs.
      destruct (sets_at mt "PlayerTeam1") as [| | | | |l1'|];
        try discriminate.
      destruct (sets_at mt "PlayerTeam2") as [| | | | |l2'|];
        try discriminate.
      inversion Hs; subst. now apply H.
    + unfold flatten_match_data. cbv zeta. rewrite Hs.
      eexists; reflexivity.
Qed.

(* ================================================================= *)
(** ** api/matches.py: the two endpoints *)

Lemma fetch_match_run (year : Z) (tid mid : string) (e : env) (w : world) :
  fetch_match year tid mid e w
  = (payload_of (upstream e (match_url year tid mid)),
     logged w (match_url year tid mid)).
Proof.
  unfold fetch_match, bind, client_get, payload_of, logged, ret.
  destruct (upstream e (match_url year tid mid)) as [x|s b]; [reflexivity|].
  simpl. destruct (s =? 200); simpl; [destruct b|]; reflexivity.
Qed.

Lemma payload_truthy (o : http_outcome) (data : json) :
  payload_of o = Return data -> truthy data = true ->
  o = Responds 200 (Some data).
Proof.
  destruct o as [x|s b]; simpl; [discriminate|].
  intros H Ht. inversion H as [E]. clear H.
  destruct (Z.eqb_spec s 200) as [->|Hne].
  - destruct b as [j|]; [now subst | subst; discriminate].
  - subst. discriminate.
Qed.

Lemma lookup_dict_set (d : pydict) (k k' : string) (v : json) :
  lookup (dict_set d k v) k'
  = if String.eqb k k' then Some v else lookup d k'.
Proof.
  induction d as [|[a b] r IH]; simpl; [reflexivity|].
  destruct (String.eqb a k) eqn:E; simpl.
  - apply String.eqb_eq in E. subst a. now destruct (String.eqb k k').
  - rewrite IH. destruct (String.eqb a k') eqn:E'; [|reflexivity].
    apply String.eqb_eq in E'. subst k'. rewrite String.eqb_sym. now rewrite E.
Qed.

(** Every entry of the mapping the loop returns was there before or is
    kept for a candidate of the loop. *)
Lemma fetch_all_sound (year : Z) (tid : string) (flatten : bool) (e : env)
    (ids : list string) :
  forall md w md' w',
    fetch_all year tid flatten ids md e w = (Return md', w') ->
    forall mid v,
      lookup md' mid = Some v ->
      lookup md mid = Some v \/ (In mid ids /\ kept e year tid flatten mid v).
Proof.
  induction ids as [|mid0 ids IH]; intros md w md' w' H mid v Hl.
  - inversion H; subst. now left.
  - cbn [fetch_all] in H. unfold bind at 1 in H. rewrite fetch_match_run in H.
    destruct (payload_of (upstream e (match_url year tid mid0)))
      as [data|x] eqn:Ep; [|discriminate].
    assert (Hrest : forall md0 w0,
              fetch_all year tid flatten ids md0 e w0 = (Return md', w') ->
              lookup md0 mid = Some v \/
              (In mid (mid0 :: ids) /\ kept e year tid flatten mid v)).
    { intros md0 w0 H0. destruct (IH _ _ _ _ H0 mid v Hl) as [?|[? ?]].
      - now left.
      - right. split; [now right | assumption]. }
    destruct (truthy data) eqn:Et; cbn [negb] in H;
      [|now apply Hrest in H].
    destruct (_has_match_id data) eqn:Eh; cbn [negb] in H;
      [|now apply Hrest in H].
    apply payload_truthy in Ep; [|assumption].
    unfold bind in H.
    destruct flatten.
    + unfold lift in H.
      destruct (flatten_match_data data) as [v0|x] eqn:Ef; [|discriminate].
      apply Hrest in H. destruct H as [H|H]; [|now right].
      rewrite lookup_dict_set in H.
      destruct (String.eqb mid0 mid) eqn:E; [|now left].
      apply String.eqb_eq in E. subst mid0. inversion H; subst v0.
      right. split; [now left|]. exists data. auto.
    + unfold ret in H. apply Hrest in H. destruct H as [H|H]; [|now right].
      rewrite lookup_dict_set in H.
      destruct (String.eqb mid0 mid) eqn:E; [|now left].
      apply String.eqb_eq in E. subst mid0. inversion H; subst v.
      right. split; [now left|]. exists data. repeat split; auto.
Qed.

(** A loop that returns has sent one request per candidate, in order. *)
Lemma fetch_all_requests (year : Z) (tid : string) (flatten : bool) (e : env)
    (ids : list string) :
  forall md w md' w',
    fetch_all year tid flatten ids md e w = (Return md', w') ->
    requests w' = requests w ++ map (match_url year tid) ids /\
    _TOURNAMENTS_CACHE w' = _TOURNAMENTS_CACHE w.
Proof.
  induction ids as [|mid0 ids IH]; intros md w md' w' H.
  - inversion H; subst. simpl. now rewrite app_nil_r.
  - cbn [fetch_all] in H. unfold bind at 1 in H. rewrite fetch_match_run in H.
    destruct (payload_of (upstream e (match_url year tid mid0)))
      as [data|x]; [|discriminate].
    assert (Hrest : forall md0,
              fetch_all year tid flatten ids md0 e
                (logged w (match_url year tid mid0)) = (Return md', w') ->
              requests w' = requests w ++ map (match_url year tid) (mid0 :: ids)
              /\ _TOURNAMENTS_CACHE w' = _TOURNAMENTS_CACHE w).
    { intros md0 H0. destruct (IH _ _ _ _ H0) as [-> ->]. simpl.
      now rewrite <- app_assoc. }
    destruct (truthy data); cbn [negb] in H; [|now apply Hrest in H].
    destruct (_has_match_id data); cbn [negb] in H; [|now apply Hrest in H].
    unfold bind in H. destruct flatten.
    + unfold lift in H.
      destruct (flatten_match_data data); [now apply Hrest in H | discriminate].
    + unfold ret in H. now apply Hrest in H.
Qed.

Lemma fetch_all_app (year : Z) (tid : string) (flatten : bool) (e : env)
    (a b : list string) :
  forall md w,
    fetch_all year tid flatten (a ++ b) md e w
    = match fetch_all year tid flatten a md e w with
      | (Return md1, w1) => fetch_all year tid flatten b md1 e w1
      | (Raise x, w1) => (Raise x, w1)
      end.
Proof.
  induction a as [|mid0 a IH]; intros md w; [reflexivity|].
  cbn [app fetch_all]. unfold bind at 1 3. rewrite fetch_match_run.
  destruct (payload_of (upstream e (match_url year tid mid0)))
    as [data|x]; [|reflexivity].
  destruct (truthy data); cbn [negb]; [|apply IH].
  destruct (_has_match_id data); cbn [negb]; [|apply IH].
  unfold bind. destruct flatten.
  - unfold lift. destruct (flatten_match_data data); [apply IH | reflexivity].
  - unfold ret. apply IH.
Qed.

(** Without [flatten], the loop returns as soon as every request is
    answered, whatever the status and the body. *)
Lemma fetch_all_total (year : Z) (tid : string) (e : env) (ids : list string) :
  (forall mid, In mid ids ->
     exists s b, upstream e (match_url year tid mid) = Responds s b) ->
  forall md w, exists md' w',
    fetch_all year tid false ids md e w = (Return md', w').
Proof.
  induction ids as [|mid0 ids IH]; intros Hup md w.
  - now exists md, w.
  - cbn [fetch_all]. unfold bind at 1. rewrite fetch_match_run.
    destruct (Hup mid0 (or_introl eq_refl)) as (s & b & ->).
    assert (Hids : forall mid, In mid ids ->
              exists s b, upstream e (match_url year tid mid) = Responds s b)
      by (intros mid Hm; apply Hup; now right).
    cbn [payload_of].
    destruct (truthy _); cbn [negb]; [|now apply IH].
    destruct (_has_match_id _); cbn [negb]; [|now apply IH].
    unfold bind, ret. now apply IH.
Qed.

Lemma load_tournament_registry_requests (e : env) (w w0 : world)
    (r : result registry) :
  load_tournament_registry e w = (r, w0) -> requests w0 = requests w.
Proof.
  unfold load_tournament_registry.
  destruct (_TOURNAMENTS_CACHE w); [intro H; now inversion H|].
  destruct (tournament_registry_file e); intro H; now inversion H.
Qed.

(** The aggregate endpoint, once the registry is loaded, the identifier
    resolved and the draw size read. *)
Lemma get_tournament_matches_run (year : Z) (tid : string) (flatten : bool)
    (e : env) (w w0 : world) (tournaments : registry) (tidr : string)
    (ds : Z) :
  load_tournament_registry e w = (Return tournaments, w0) ->
  resolve_tournament_id tid tournaments = Some tidr ->
  is_empty tidr = false ->
  draw_size_of (reg_lookup tournaments tidr) = Return ds ->
  get_tournament_matches year tid flatten e w
  = answer_with (tournament_name_of (reg_lookup tournaments tidr)) tidr year
      (fetch_all year tidr flatten (all_match_ids ds) [] e w0).
Proof.
  intros Hl Hr He Hd. unfold get_tournament_matches, bind at 1.
  rewrite Hl, Hr, He. unfold bind at 1, lift. rewrite Hd.
  unfold bind, answer_with, ret.
  now destruct (fetch_all year tidr flatten (all_match_ids ds) [] e w0)
    as [[md|x] w1].
Qed.

(** What a returned answer of the aggregate endpoint comes from. *)
Lemma get_tournament_matches_return (year : Z) (tid : string)
    (flatten : bool) (e : env) (w w' : world) (resp : tournament_matches) :
  get_tournament_matches year tid flatten e w = (Return resp, w') ->
  exists tournaments w0 ds,
    load_tournament_registry e w = (Return tournaments, w0) /\
    resolve_tournament_id tid tournaments = Some (tm_tournament_id resp) /\
    draw_size_of (reg_lookup tournaments (tm_tournament_id resp)) = Return ds /\
    tm_tournament resp
    = tournament_name_of (reg_lookup tournaments (tm_tournament_id resp)) /\
    tm_year resp = year /\
    fetch_all year (tm_tournament_id resp) flatten (all_match_ids ds) [] e w0
    = (Return (tm_matches resp), w').
Proof.
  unfold get_tournament_matches, bind at 1.
  destruct (load_tournament_registry e w) as [[tournaments|x] w0] eqn:El;
    [|discriminate].
  destruct (resolve_tournament_id tid tournaments) as [tidr|] eqn:Er;
    [|discriminate].
  destruct (is_empty tidr) eqn:Ee; [discriminate|].
  unfold bind at 1, lift.
  destruct (draw_size_of (reg_lookup tournaments tidr)) as [ds|x] eqn:Ed;
    [|discriminate].
  unfold bind, ret.
  destruct (fetch_all year tidr flatten (all_match_ids ds) [] e w0)
    as [[md|x] w1] eqn:Ef; [|discriminate].
  intro H. inversion H; subst. simpl.
  exists tournaments, w0, ds. repeat split; assumption.
Qed.

Lemma get_tournament_matches_kept (year : Z) (tid : string) (flatten : bool)
    (e : env) (w w' : world) (resp : tournament_matches) :
  get_tournament_matches year tid flatten e w = (Return resp, w') ->
  forall mid v,
    lookup (tm_matches resp) mid = Some v ->
    kept e year (tm_tournament_id resp) flatten mid v.
Proof.
  intros H mid v Hl.
  apply get_tournament_matches_return in H
    as (tournaments & w0 & ds & _ & _ & _ & _ & _ & Hf).
  destruct (fetch_all_sound _ _ _ _ _ _ _ _ _ Hf mid v Hl) as [H|[_ H]];
    [discriminate | assumption].
Qed.

(* ----------------------------------------------------------------- *)
(** *** The match-containment predicate *)

Lemma get_is_dict (d : pydict) (k : string) (m : pydict) :
  get d k = JDict m <-> lookup d k = Some (JDict m).
Proof.
  unfold get, get_default. destruct (lookup d k) as [v|]; split; intro H;
    try discriminate; congruence.
Qed.

Lemma get_truthy (d : pydict) (k : string) :
  truthy (get d k) = true <-> exists v, lookup d k = Some v /\ truthy v = true.
Proof.
  unfold get, get_default. destruct (lookup d k) as [v|]; split.
  - intro H. now exists v.
  - intros (v' & E & H). now inversion E; subst.
  - discriminate.
  - intros (v' & E & _). discriminate.
Qed.

Lemma _has_match_id_iff (payload : json) :
  _has_match_id payload = true
  <-> (exists id, wrapped_match_id payload id) \/
      (exists id, legacy_match_id payload id).
Proof.
  unfold wrapped_match_id, legacy_match_id.
  destruct payload as [| | | | | |d];
    try (split; [discriminate |
                 intros [(? & ? & ? & ? & _)|(? & ? & ? & _)]; discriminate]).
  cbn [_has_match_id]. split.
  - destruct (get d "Match") as [| | | | | |m] eqn:Em;
      try (destruct (truthy (get d "MatchId")) eqn:E; [|discriminate];
           intros _; right;
           apply get_truthy in E as (v & E1 & E2);
           exists v, d; now repeat split).
    destruct (truthy (get m "MatchId")) eqn:E.
    + intros _. left. apply get_truthy in E as (v & E1 & E2).
      apply get_is_dict in Em. exists v, d, m. now repeat split.
    + destruct (truthy (get d "MatchId")) eqn:E'; [|discriminate].
      intros _. right. apply get_truthy in E' as (v & E1 & E2).
      exists v, d. now repeat split.
  - intros [(id & d' & m & Hd & Hm & Hid & Ht)|(id & d' & Hd & Hid & Ht)];
      inversion Hd; subst d'.
    + apply get_is_dict in Hm. rewrite Hm.
      assert (E : truthy (get m "MatchId") = true)
        by (apply get_truthy; now exists id).
      now rewrite E.
    + assert (E : truthy (get d "MatchId") = true)
        by (apply get_truthy; now exists id).
      rewrite E. now destruct (match get d "Match" with
                               | JDict m => truthy (get m "MatchId")
                               | _ => false
                               end).
Qed.

(* ----------------------------------------------------------------- *)
(** *** Payloads that count for nothing *)

Lemma load_tournament_registry_file (e e' : env) (w : world) :
  tournament_registry_file e' = tournament_registry_file e ->
  load_tournament_registry e' w = load_tournament_registry e w.
Proof. unfold load_tournament_registry. now intros ->. Qed.

(** The loop treats a body that is falsy or fails the predicate as it
    treats a 404: nothing is stored and nothing is normalized. *)
Lemma fetch_all_not_found (year : Z) (tid : string) (flatten : bool)
    (e e' : env) :
  not_found_instead
    (fun j => truthy j = false \/ _has_match_id j = false) e e' ->
  forall ids md w,
    fetch_all year tid flatten ids md e' w
    = fetch_all year tid flatten ids md e w.
Proof.
  intros [_ Hup]. induction ids as [|mid ids IH]; intros md w;
    [reflexivity|].
  cbn [fetch_all]. unfold bind at 1 3. rewrite !fetch_match_run.
  destruct (Hup (match_url year tid mid))
    as [-> | (j & -> & Hj & ->)].
  - destruct (payload_of (upstream e (match_url year tid mid)))
      as [data|x]; [|reflexivity].
    destruct (truthy data); cbn [negb]; [|apply IH].
    destruct (_has_match_id data); cbn [negb]; [|apply IH].
    unfold bind, lift, ret. destruct flatten; [|apply IH].
    destruct (flatten_match_data data); [apply IH | reflexivity].
  - cbn [payload_of truthy negb]. change (404 =? 200) with false.
    change (200 =? 200) with true. cbn [truthy negb].
    destruct Hj as [Hj|Hj].
    + rewrite Hj. cbn [negb]. apply IH.
    + destruct (truthy j); cbn [negb]; [|apply IH].
      rewrite Hj. cbn [negb]. apply IH.
Qed.

Lemma get_tournament_matches_not_found (year : Z) (tid : string)
    (flatten : bool) (e e' : env) (w : world) :
  not_found_instead
    (fun j => truthy j = false \/ _has_match_id j = false) e e' ->
  get_tournament_matches year tid flatten e' w
  = get_tournament_matches year tid flatten e w.
Proof.
  intro H. unfold get_tournament_matches, bind at 1 4.
  rewrite (load_tournament_registry_file e e' w (proj1 H)).
  destruct (load_tournament_registry e w) as [[tournaments|x] w0];
    [|reflexivity].
  destruct (resolve_tournament_id tid tournaments) as [tidr|]; [|reflexivity].
  destruct (is_empty tidr); [reflexivity|].
  unfold bind at 1 3, lift.
  destruct (draw_size_of (reg_lookup tournaments tidr)) as [ds|x];
    [|reflexivity].
  unfold bind. now rewrite (fetch_all_not_found year tidr flatten e e' H).
Qed.

Lemma not_found_instead_weaken (junk junk' : json -> Prop) (e e' : env) :
  (forall j, junk j -> junk' j) ->
  not_found_instead junk e e' -> not_found_instead junk' e e'.
Proof.
  intros Hj [Hf Hup]. split; [assumption|]. intro url.
  destruct (Hup url) as [H | (j & H1 & H2 & H3)]; [now left|].
  right. exists j. auto.
Qed.

(** C4.  The predicate holds exactly when an identifier is found at the
    wrapped location or at the legacy one.  It holds of the payload
    [{"Match": {"MatchId": "ms001"}}] and fails on a payload that only
    has a [Tournament] object.  Every entry of the mapping the aggregate
    endpoint returns comes from a payload that satisfies it, and a
    payload that fails it leaves no entry.  Such a payload is set aside
    before it is normalized: the endpoint does, with or without
    flattening and whatever normalization would make of the payload,
    what it does when the upstream answers 404 in its place. *)
Theorem _has_match_id_spec :
  (forall payload,
     _has_match_id payload = true
     <-> (exists id, wrapped_match_id payload id) \/
         (exists id, legacy_match_id payload id)) /\
  _has_match_id (JDict [("Match", JDict [("MatchId", JStr "ms001")])]) = true /\
  (forall t, _has_match_id (JDict [("Tournament", JDict t)]) = false) /\
  (forall year tid flatten e w w' resp,
     get_tournament_matches year tid flatten e w = (Return resp, w') ->
     (forall mid v,
        lookup (tm_matches resp) mid = Some v ->
        kept e year (tm_tournament_id resp) flatten mid v) /\
     (forall mid s data,
        upstream e (match_url year (tm_tournament_id resp) mid)
        = Responds s (Some data) ->
        _has_match_id data = false ->
        lookup (tm_matches resp) mid = None)) /\
  (forall year tid flatten e e' w,
     not_found_instead (fun j => _has_match_id j = false) e e' ->
     get_tournament_matches year tid flatten e w
     = get_tournament_matches year tid flatten e' w).
Proof.
  split; [exact _has_match_id_iff|]. split; [reflexivity|].
  split; [reflexivity|]. split.
  - intros year tid flatten e w w' resp H. split.
    + now apply get_tournament_matches_kept
        with (w := w) (w' := w') (tid := tid).
    + intros mid s data Hup Hno.
      destruct (lookup (tm_matches resp) mid) as [v|] eqn:El; [|reflexivity].
      destruct (get_tournament_matches_kept _ _ _ _ _ _ _ H mid v El)
        as (data' & Hup' & _ & Hid & _).
      rewrite Hup in Hup'. inversion Hup'; subst. congruence.
  - intros year tid flatten e e' w H. symmetry.
    apply get_tournament_matches_not_found.
    eapply not_found_instead_weaken; [|exact H]. intros j Hj. now right.
Qed.

(* ----------------------------------------------------------------- *)
(** *** Empty bodies *)






(* ----------------------------------------------------------------- *)
(** *** The numeric fallback *)

Lemma all_match_ids_default : all_match_ids 32 = default_candidate_ids.
Proof. vm_compute. reflexivity. Qed.

Lemma answer_with_return (name : json) (tid : string) (year : Z)
    (r : result pydict * world) (resp : tournament_matches) (w' : world) :
  answer_with name tid year r = (Return resp, w') ->
  r = (Return (tm_matches resp), w') /\
  tm_tournament resp = name /\ tm_tournament_id resp = tid /\
  tm_year resp = year.
Proof.
  destruct r as [[md|x] w1]; simpl; intro H; [|discriminate].
  injection H as <- <-. auto.
Qed.

Lemma numeric_fallback_run (year : Z) (tid : string) (flatten : bool)
    (e : env) (w w0 : world) (tournaments : registry) :
  load_tournament_registry e w = (Return tournaments, w0) ->
  resolve_tournament_id tid tournaments = Some tid ->
  reg_lookup tournaments tid = None ->
  is_empty tid = false ->
  get_tournament_matches year tid flatten e w
  = answer_with (JStr "Unknown") tid year
      (fetch_all year tid flatten default_candidate_ids [] e w0).
Proof.
  intros Hl Hr Hlk Hne.
  assert (Hd : draw_size_of (reg_lookup tournaments tid) = Return 32)
    by (rewrite Hlk; reflexivity).
  rewrite (get_tournament_matches_run year tid flatten e w w0 tournaments
             tid 32 Hl Hr Hne Hd).
  rewrite Hlk, all_match_ids_default. reflexivity.
Qed.

(** C9.  An identifier made of digits that is neither an identifier nor a
    name of the registry resolves to itself, and the aggregate endpoint
    then probes the candidates of a draw of 32, [ms001] to [ms031] and
    [qs001] to [qs020]: it answers what the loop over these leaves, under
    the tournament name [Unknown], after one request per candidate. *)
Theorem numeric_fallback_candidates :
  forall year tid flatten e w w0 tournaments,
    load_tournament_registry e w = (Return tournaments, w0) ->
    only_decimal_digits tid ->
    ~ In tid (map fst tournaments) ->
    Forall (fun en => ~ eq_ignore_case (display_name (snd en)) tid)
           tournaments ->
    resolve_tournament_id tid tournaments = Some tid /\
    get_tournament_matches year tid flatten e w
    = answer_with (JStr "Unknown") tid year
        (fetch_all year tid flatten default_candidate_ids [] e w0) /\
    (forall resp w',
       get_tournament_matches year tid flatten e w = (Return resp, w') ->
       tm_tournament resp = JStr "Unknown" /\
       tm_tournament_id resp = tid /\
       requests w'
       = requests w ++ map (match_url year tid) default_candidate_ids).
Proof.
  intros year tid flatten e w w0 tournaments Hl Hd Hnot Hname.
  assert (Hr : resolve_tournament_id tid tournaments = Some tid)
    by (now apply resolve_tournament_id_digits).
  assert (Hlk : reg_lookup tournaments tid = None)
    by (now apply reg_lookup_none).
  assert (Hne : is_empty tid = false)
    by (apply is_empty_false; apply Hd).
  pose proof (numeric_fallback_run year tid flatten e w w0 tournaments
                Hl Hr Hlk Hne) as Hrun.
  split; [assumption|]. split; [assumption|].
  intros resp w' H. rewrite Hrun in H.
  apply answer_with_return in H as (Hf & Hn & Ht & _).
  split; [assumption|]. split; [assumption|].
  apply fetch_all_requests in Hf as [Hf _].
  rewrite Hf. f_equal. exact (load_tournament_registry_requests _ _ _ _ Hl).
Qed.

(* ----------------------------------------------------------------- *)
(** *** A request that fails *)

(** Without [flatten], the aggregate endpoint answers 200 as soon as every
    request is answered: a status other than 200 or a body that is not
    JSON only leaves the candidate out. *)
Lemma get_tournament_matches_answers (year : Z) (tid : string) (e : env)
    (w w0 : world) (tournaments : registry) (tidr : string) (ds : Z) :
  load_tournament_registry e w = (Return tournaments, w0) ->
  resolve_tournament_id tid tournaments = Some tidr ->
  is_empty tidr = false ->
  draw_size_of (reg_lookup tournaments tidr) = Return ds ->
  (forall mid, exists s b, upstream e (match_url year tidr mid) = Responds s b) ->
  status_of (fst (get_tournament_matches year tid false e w)) = 200.
Proof.
  intros Hl Hr He Hd Hup.
  rewrite (get_tournament_matches_run _ _ _ _ _ _ _ _ _ Hl Hr He Hd).
  destruct (fetch_all_total year tidr e (all_match_ids ds)
              (fun mid _ => Hup mid) [] w0) as (md & w1 & ->).
  reflexivity.
Qed.

(** C1 (the code departs from it).  When the request for a candidate
    raises a timeout or a connection error, after the candidates before
    it were dealt with, the aggregate endpoint raises that exception: the
    answer is a 500, the candidates after it are never requested and the
    matches found before it are lost. *)
Theorem request_error_aborts_tournament_matches :
  forall year tid flatten e w w0 tournaments tidr ds
         before mid after found w1 x,
    load_tournament_registry e w = (Return tournaments, w0) ->
    resolve_tournament_id tid tournaments = Some tidr ->
    is_empty tidr = false ->
    draw_size_of (reg_lookup tournaments tidr) = Return ds ->
    all_match_ids ds = before ++ mid :: after ->
    fetch_all year tidr flatten before [] e w0 = (Return found, w1) ->
    upstream e (match_url year tidr mid) = Fails x ->
    is_request_error x = true ->
    get_tournament_matches year tid flatten e w
    = (Raise x, logged w1 (match_url year tidr mid)) /\
    status_of (fst (get_tournament_matches year tid flatten e w)) = 500 /\
    requests (snd (get_tournament_matches year tid flatten e w))
    = requests w ++ map (match_url year tidr) (before ++ [mid]).
Proof.
  intros year tid flatten e w w0 tournaments tidr ds before mid after found
    w1 x Hl Hr He Hd Hids Hb Hup Hx.
  assert (Hrun : get_tournament_matches year tid flatten e w
                 = (Raise x, logged w1 (match_url year tidr mid))).
  { rewrite (get_tournament_matches_run _ _ _ _ _ _ _ _ _ Hl Hr He Hd).
    rewrite Hids, fetch_all_app, Hb. cbn [fetch_all]. unfold bind at 1.
    rewrite fetch_match_run, Hup. reflexivity. }
  rewrite Hrun. split; [reflexivity|]. split.
  - destruct x; try discriminate; reflexivity.
  - cbn [snd logged requests].
    apply fetch_all_requests in Hb as [-> _].
    rewrite (load_tournament_registry_requests _ _ _ _ Hl).
    now rewrite map_app, app_assoc.
Qed.

(* ================================================================= *)
(** ** utils/atp_h2h.py: fetching a head-to-head *)

Lemma drop_last_newline_app (t : string) :
  drop_last_newline (t ++ String newline "") = Some t.
Proof.
  induction t as [|c t IH]; [reflexivity|].
  cbn [append drop_last_newline]. rewrite IH.
  destruct (t ++ String newline "")%string eqn:E; [|reflexivity].
  destruct t; discriminate.
Qed.

Lemma alnum_plus_iff (s : string) :
  alnum_plus s = Some tt <-> alphanumeric s.
Proof.
  unfold alnum_plus, alphanumeric.
  destruct (is_empty s) eqn:E; simpl.
  - apply is_empty_true in E. split; [discriminate | intros [H _]; contradiction].
  - apply is_empty_false in E. destruct (all_chars is_alnum s); split;
      (discriminate || auto || intros [_ H]; discriminate).
Qed.

(** The pattern [^[A-Za-z0-9]+$] accepts the alphanumeric strings, and
    also each of them followed by one line feed. *)
Lemma _PLAYER_CODE_RE_match_iff (s : string) :
  _PLAYER_CODE_RE_match s = true
  <-> alphanumeric s \/
      exists t, s = (t ++ String newline "")%string /\ alphanumeric t.
Proof.
  unfold _PLAYER_CODE_RE_match, match_to_dollar. split.
  - destruct (alnum_plus s) as [[]|] eqn:E.
    + intros _. left. now apply alnum_plus_iff.
    + destruct (drop_last_newline s) as [t|] eqn:Et; [|discriminate].
      destruct (alnum_plus t) as [[]|] eqn:E'; [|discriminate].
      intros _. right. exists t. split.
      * now apply drop_last_newline_spec.
      * now apply alnum_plus_iff.
  - intros [H|(t & -> & H)].
    + apply alnum_plus_iff in H. now rewrite H.
    + destruct (alnum_plus (t ++ String newline "")) as [[]|]; [reflexivity|].
      rewrite drop_last_newline_app.
      apply alnum_plus_iff in H. now rewrite H.
Qed.

(** What [fetch_head_to_head] makes of two codes and of the outcome of
    its one request. *)
Lemma fetch_head_to_head_outcomes (player1_id player2_id : string)
    (e : env) (w : world) :
  let url := h2h_url player1_id player2_id in
  let r := fetch_head_to_head player1_id player2_id e w in
  (_PLAYER_CODE_RE_match player1_id = false \/
   _PLAYER_CODE_RE_match player2_id = false ->
   r = (Raise (HTTPException 400
          "Player IDs must be alphanumeric ATP player codes (e.g., DH58)"),
        w)) /\
  (_PLAYER_CODE_RE_match player1_id = true ->
   _PLAYER_CODE_RE_match player2_id = true ->
   snd r = logged w url /\
   (forall x, upstream e url = Fails x -> is_request_error x = true ->
      fst r = Raise (HTTPException 502 "Upstream ATP request failed")) /\
   (forall b, upstream e url = Responds 404 b ->
      fst r = Raise (HTTPException 404 "Head-to-head not found")) /\
   (forall s b, upstream e url = Responds s b -> s <> 404 -> s <> 200 ->
      fst r = Raise (HTTPException 502
                ("Upstream ATP error (status " ++ str_of_int s ++ ")")%string)) /\
   (upstream e url = Responds 200 None ->
      fst r = Raise (HTTPException 502 "Upstream ATP returned invalid JSON")) /\
   (forall j, upstream e url = Responds 200 (Some j) -> fst r = Return j)).
Proof.
  intros url r. subst r url. unfold fetch_head_to_head. split.
  - intros [H|H]; rewrite H; [reflexivity|].
    now rewrite orb_true_r.
  - intros H1 H2. rewrite H1, H2. cbn [negb orb].
    unfold client_get, logged.
    destruct (upstream e (h2h_url player1_id player2_id)) as [x|s b] eqn:Eu.
    + split; [now destruct (is_request_error x)|].
      split; [intros x' Hx' Hr; inversion Hx'; subst; now rewrite Hr|].
      repeat split; intros; discriminate.
    + cbn [resp_status resp_body].
      split.
      { destruct (s =? 404); [reflexivity|].
        destruct (s =? 200); [destruct b|]; reflexivity. }
      split; [intros; discriminate|].
      split; [intros b' Hb'; inversion Hb'; subst; reflexivity|].
      split.
      { intros s' b' Hs Hn4 Hn2. inversion Hs; subst.
        apply Z.eqb_neq in Hn4, Hn2. now rewrite Hn4, Hn2. }
      split; intros; match goal with H : Responds _ _ = Responds _ _ |- _ =>
                                    inversion H; subst; reflexivity end.
Qed.

(** C7 (the code departs from it).  The code [DH58] followed by a line
    feed is not alphanumeric, yet the pattern accepts it: with it the
    fetch does not raise the 400 error.  It sends its request, returns the
    body of a 200 answer, and lets an [InvalidURL] raised by the client
    through, which the endpoint reports as a 500. *)
Theorem trailing_newline_passes_validation :
  ~ alphanumeric code_with_newline /\
  alphanumeric plain_code /\
  _PLAYER_CODE_RE_match code_with_newline = true /\
  forall e w,
    requests (snd (fetch_head_to_head code_with_newline plain_code e w))
    = requests w ++ [h2h_url code_with_newline plain_code] /\
    (forall j,
       upstream e (h2h_url code_with_newline plain_code)
       = Responds 200 (Some j) ->
       fst (fetch_head_to_head code_with_newline plain_code e w) = Return j) /\
    (forall flatten,
       upstream e (h2h_url code_with_newline plain_code) = Fails InvalidURL ->
       fst (get_head_to_head code_with_newline plain_code flatten e w)
       = Raise (HTTPException 500 "Failed to fetch head-to-head data")).
Proof.
  split; [intros [_ H]; vm_compute in H; discriminate|].
  split; [split; [discriminate | reflexivity]|].
  split; [reflexivity|].
  intros e w.
  destruct (fetch_head_to_head_outcomes code_with_newline plain_code e w)
    as [_ H].
  destruct (H eq_refl eq_refl) as (Hw & _ & _ & _ & _ & Hj).
  split; [now rewrite Hw|]. split; [exact Hj|].
  intros flatten Hup. unfold get_head_to_head, bind, fetch_head_to_head.
  change (negb (_PLAYER_CODE_RE_match code_with_newline)
          || negb (_PLAYER_CODE_RE_match plain_code)) with false.
  cbv iota. unfold client_get. rewrite Hup. reflexivity.
Qed.

(* ================================================================= *)
(** ** utils/match_ids.py: the candidates of a tournament *)

Lemma range_from_in (len : nat) (lo i : Z) :
  In i (range_from lo len) <-> lo <= i < lo + Z.of_nat len.
Proof.
  revert lo. induction len as [|len IH]; intro lo; simpl; [lia|].
  rewrite IH. lia.
Qed.

Lemma range_from_nodup (len : nat) (lo : Z) : NoDup (range_from lo len).
Proof.
  revert lo. induction len as [|len IH]; intro lo; simpl; constructor.
  - rewrite range_from_in. lia.
  - apply IH.
Qed.

Lemma nodup_map_on {A B : Type} (f : A -> B) (l : list A) :
  (forall x y, In x l -> In y l -> f x = f y -> x = y) ->
  NoDup l -> NoDup (map f l).
Proof.
  intros Hinj Hnd. induction Hnd as [|a l Ha Hnd IH]; simpl; constructor.
  - intro Hin. apply in_map_iff in Hin as (y & Hy & Hyl).
    apply Ha. rewrite (Hinj a y); auto; [now left | now right].
  - apply IH. intros x y Hx Hy. apply Hinj; now right.
Qed.

Lemma format_03d_inj (i j : Z) :
  1 <= i -> 1 <= j -> format_03d i = format_03d j -> i = j.
Proof.
  intros Hi Hj E.
  rewrite <- (format_03d_value i Hi), <- (format_03d_value j Hj).
  now rewrite E.
Qed.

Lemma prefixed_ids_nodup (prefix : string) (len : nat) :
  NoDup (map (fun i => (prefix ++ format_03d i)%string) (range_from 1 len)).
Proof.
  apply nodup_map_on; [|apply range_from_nodup].
  intros x y Hx Hy E. apply range_from_in in Hx, Hy.
  apply format_03d_inj; try lia.
  induction prefix as [|c p IH]; simpl in E; [assumption|].
  injection E as E. now apply IH.
Qed.

Lemma generate_match_ids_shape (v : json) :
  exists len,
    generate_match_ids v
    = map (fun i => ("ms" ++ format_03d i)%string) (range_from 1 len).
Proof.
  unfold generate_match_ids, range.
  destruct (int_value v) as [n|]; [|now exists 0%nat].
  destruct (n <? 2); [now exists 0%nat | eexists; reflexivity].
Qed.

Lemma generate_qualifier_ids_shape (v : json) :
  exists len,
    generate_qualifier_ids v
    = map (fun i => ("qs" ++ format_03d i)%string) (range_from 1 len).
Proof.
  unfold generate_qualifier_ids, range.
  destruct (int_value v) as [n|]; [|now exists 0%nat].
  destruct (n <=? 0); [now exists 0%nat | eexists; reflexivity].
Qed.

(** X1.  For an integer [n >= 1] the qualifier generator returns [n]
    identifiers, the [i]-th of which is [qs] followed by [i] padded with
    zeros to three digits; it returns the empty list for [n <= 0] and for
    an input that is not an integer, and [True], which Python counts as
    the integer 1, gives the one identifier [qs001]. *)
Theorem generate_qualifier_ids_spec :
  (forall n : Z, 1 <= n ->
     List.length (generate_qualifier_ids (JInt n)) = Z.to_nat n /\
     forall i, 1 <= i <= n ->
       nth_error (generate_qualifier_ids (JInt n)) (Z.to_nat (i - 1))
       = Some ("qs" ++ format_03d i)%string) /\
  (forall n : Z, n <= 0 -> generate_qualifier_ids (JInt n) = []) /\
  (forall v : json, int_value v = None -> generate_qualifier_ids v = []) /\
  generate_qualifier_ids (JBool true) = ["qs001"] /\
  generate_qualifier_ids (JBool false) = [].
Proof.
  split; [|repeat apply conj; try reflexivity].
  - intros n Hn. unfold generate_qualifier_ids, int_value, range.
    destruct (n <=? 0) eqn:E; [apply Z.leb_le in E; lia|].
    split; [rewrite length_map, range_from_length; lia|].
    intros i Hi. rewrite nth_error_map, range_from_nth by lia.
    replace (1 + Z.of_nat (Z.to_nat (i - 1))) with i by lia. reflexivity.
  - intros n Hn. unfold generate_qualifier_ids, int_value.
    destruct (n <=? 0) eqn:E; [reflexivity | apply Z.leb_gt in E; lia].
  - intros v Hv. unfold generate_qualifier_ids. now rewrite Hv.
Qed.

Lemma all_match_ids_nodup_aux (draw_size : Z) :
  NoDup (all_match_ids draw_size).
Proof.
  unfold all_match_ids.
  destruct (generate_match_ids_shape (JInt draw_size)) as [a ->].
  destruct (generate_qualifier_ids_shape (JInt MAX_QUALIFIERS)) as [b ->].
  apply NoDup_app; try apply prefixed_ids_nodup.
  intros x Hx Hy.
  apply in_map_iff in Hx as (i & <- & _).
  apply in_map_iff in Hy as (j & E & _). discriminate E.
Qed.

(** X2.  The candidates probed for a tournament are pairwise distinct,
    whatever the draw size: no identifier is requested twice and no entry
    of the mapping is written twice.  There are [draw_size - 1] main-draw
    candidates (none below a draw of 2) and 20 qualifying ones. *)
Theorem all_match_ids_distinct :
  forall draw_size : Z,
    NoDup (all_match_ids draw_size) /\
    List.length (all_match_ids draw_size)
    = (Z.to_nat (Z.max 0 (draw_size - 1)) + 20)%nat.
Proof.
  intro ds. split; [apply all_match_ids_nodup_aux|].
  unfold all_match_ids.
  - rewrite length_app. f_equal.
    unfold generate_match_ids, int_value, range.
    destruct (ds <? 2) eqn:E.
    + apply Z.ltb_lt in E. simpl. lia.
    + apply Z.ltb_ge in E. rewrite length_map, range_from_length. lia.
Qed.

(* ================================================================= *)
(** ** api/matches.py: what the aggregate endpoint finds *)

Lemma lookup_none_keys (d : pydict) (k : string) :
  lookup d k = None <-> ~ In k (map fst d).
Proof.
  induction d as [|[a v] r IH]; simpl; [tauto|].
  destruct (String.eqb a k) eqn:E.
  - apply String.eqb_eq in E. split; [discriminate | intro H; tauto].
  - apply String.eqb_neq in E. rewrite IH. tauto.
Qed.

Lemma dict_set_fresh (d : pydict) (k : string) (v : json) :
  lookup d k = None -> dict_set d k v = d ++ [(k, v)].
Proof.
  induction d as [|[a b] r IH]; simpl; [reflexivity|].
  destruct (String.eqb a k); [discriminate|]. intro H. now rewrite IH.
Qed.

Lemma has_real_match_payload (e : env) (year : Z) (tid mid : string)
    (data : json) :
  payload_of (upstream e (match_url year tid mid)) = Return data ->
  truthy data && _has_match_id data = has_real_match e year tid mid.
Proof.
  unfold has_real_match.
  destruct (upstream e (match_url year tid mid)) as [x|s b]; simpl;
    [discriminate|].
  intro H. injection H as <-.
  destruct (s =? 200); [destruct b|destruct b]; reflexivity.
Qed.

(** The keys of the mapping the loop returns: those it started with, then
    the candidates that have a real match, in the order of the loop. *)
Lemma fetch_all_keys (year : Z) (tid : string) (flatten : bool) (e : env)
    (ids : list string) :
  NoDup ids ->
  forall md w md' w',
    (forall mid, In mid ids -> lookup md mid = None) ->
    fetch_all year tid flatten ids md e w = (Return md', w') ->
    map fst md' = map fst md ++ filter (has_real_match e year tid) ids.
Proof.
  induction 1 as [|mid0 ids Hnot Hnd IH]; intros md w md' w' Hfresh H.
  - inversion H; subst. simpl. now rewrite app_nil_r.
  - cbn [fetch_all] in H. unfold bind at 1 in H. rewrite fetch_match_run in H.
    destruct (payload_of (upstream e (match_url year tid mid0)))
      as [data|x] eqn:Ep; [|discriminate].
    apply has_real_match_payload in Ep. cbn [filter]. rewrite <- Ep.
    assert (Hfresh' : forall mid, In mid ids -> lookup md mid = None)
      by (intros mid Hm; apply Hfresh; now right).
    assert (Hset : forall v,
              fetch_all year tid flatten ids (dict_set md mid0 v) e
                (logged w (match_url year tid mid0)) = (Return md', w') ->
              map fst md' = map fst md ++ mid0 :: filter (has_real_match e year tid) ids).
    { intros v Hv. apply IH in Hv.
      - rewrite Hv, dict_set_fresh by (apply Hfresh; now left).
        rewrite map_app, <- app_assoc. reflexivity.
      - intros mid Hm. rewrite lookup_dict_set.
        destruct (String.eqb mid0 mid) eqn:E; [|now apply Hfresh'].
        apply String.eqb_eq in E. subst. contradiction. }
    destruct (truthy data); cbn [negb andb] in *; [|now apply IH in H].
    destruct (_has_match_id data); cbn [negb] in *; [|now apply IH in H].
    unfold bind in H. destruct flatten.
    + unfold lift in H.
      destruct (flatten_match_data data) as [v|x]; [|discriminate].
      now apply Hset in H.
    + unfold ret in H. now apply Hset in H.
Qed.

Lemma load_tournament_registry_cache (e : env) (w w0 : world)
    (tournaments : registry) :
  load_tournament_registry e w = (Return tournaments, w0) ->
  _TOURNAMENTS_CACHE w0 = Some tournaments.
Proof.
  unfold load_tournament_registry.
  destruct (_TOURNAMENTS_CACHE w) as [c|] eqn:Ec.
  - intro H. inversion H; subst. assumption.
  - destruct (tournament_registry_file e); intro H; inversion H; reflexivity.
Qed.

(** X3.  When the aggregate endpoint answers, the keys of its mapping
    are exactly the candidates of the tournament's draw size whose request
    was answered with status 200 and a truthy body holding a match
    identifier, in candidate order (main draw first, then qualifying). *)
Theorem get_tournament_matches_keys :
  forall year tid flatten e w w' resp,
    get_tournament_matches year tid flatten e w = (Return resp, w') ->
    exists tournaments draw_size,
      _TOURNAMENTS_CACHE w' = Some tournaments /\
      draw_size_of (reg_lookup tournaments (tm_tournament_id resp))
      = Return draw_size /\
      map fst (tm_matches resp)
      = filter (has_real_match e year (tm_tournament_id resp))
               (all_match_ids draw_size).
Proof.
  intros year tid flatten e w w' resp H.
  apply get_tournament_matches_return in H
    as (tournaments & w0 & ds & Hl & _ & Hd & _ & _ & Hf).
  exists tournaments, ds. split; [|split; [assumption|]].
  - apply fetch_all_requests in Hf as [_ ->].
    now apply load_tournament_registry_cache in Hl.
  - apply fetch_all_keys in Hf; [exact Hf | apply all_match_ids_nodup_aux |].
    intros mid _. reflexivity.
Qed.

(* ================================================================= *)
(** ** api/matches.py and api/tournaments.py: the registry *)

Lemma reg_lookup_set (r : registry) (k k' : string) (t : pydict) :
  reg_lookup (reg_set r k t) k'
  = if String.eqb k k' then Some t else reg_lookup r k'.
Proof.
  induction r as [|[a b] r IH]; simpl; [reflexivity|].
  destruct (String.eqb a k) eqn:E; simpl.
  - apply String.eqb_eq in E. subst a. now destruct (String.eqb k k').
  - rewrite IH. destruct (String.eqb a k') eqn:E'; [|reflexivity].
    apply String.eqb_eq in E'. subst k'. rewrite String.eqb_sym. now rewrite E.
Qed.

Lemma reg_set_keys (r : registry) (k : string) (t : pydict) :
  NoDup (map fst r) -> NoDup (map fst (reg_set r k t)).
Proof.
  induction r as [|[a b] r IH]; simpl; intro H.
  - constructor; [intros [] | constructor].
  - inversion H as [|? ? Ha Hr]; subst.
    destruct (String.eqb a k) eqn:E; simpl; [now constructor|].
    constructor; [|now apply IH].
    intro Hin. apply Ha. apply reg_lookup_in in Hin as [t' Ht'].
    rewrite reg_lookup_set in Ht'.
    rewrite String.eqb_sym, E in Ht'.
    destruct (reg_lookup r a) eqn:El; [|discriminate].
    destruct (in_dec string_dec a (map fst r)) as [Hi|Hi]; [assumption|].
    apply reg_lookup_none in Hi. congruence.
Qed.

Lemma build_registry_keys (items : list pydict) :
  forall acc, NoDup (map fst acc) -> NoDup (map fst (build_registry items acc)).
Proof.
  induction items as [|t items IH]; intros acc H; simpl; [assumption|].
  destruct (contains t "Id"); apply IH; [now apply reg_set_keys | assumption].
Qed.

Lemma build_registry_lookup (items : list pydict) (k : string) :
  forall acc,
    reg_lookup (build_registry items acc) k
    = match last_with_id items k with
      | Some t => Some t
      | None => reg_lookup acc k
      end.
Proof.
  unfold last_with_id.
  induction items as [|t items IH]; intro acc; simpl; [reflexivity|].
  rewrite find_app. simpl. unfold has_id at 2.
  destruct (contains t "Id"); rewrite IH;
    destruct (find (has_id k) (rev items)); try reflexivity.
  rewrite reg_lookup_set. cbn [andb].
  now destruct (String.eqb (py_str (get t "Id")) k).
Qed.

Lemma load_tournament_registry_cached (e : env) (w : world)
    (tournaments : registry) :
  _TOURNAMENTS_CACHE w = Some tournaments ->
  load_tournament_registry e w = (Return tournaments, w).
Proof. unfold load_tournament_registry. now intros ->. Qed.

(** X4.  The registry is read once: after a load that returned, every
    later load returns the same registry and leaves the state alone,
    whatever has become of the file, while the registry endpoint reads
    the file each time and fails with 500 once it is gone.  A load that
    failed raised a 500 and left the state as it was, so the next load
    reads the file again. *)
Theorem registry_cache_is_sticky :
  (forall e w tournaments w',
     load_tournament_registry e w = (Return tournaments, w') ->
     forall e',
       load_tournament_registry e' w' = (Return tournaments, w') /\
       (tournament_registry_file e' = FileMissing ->
        get_registry e' w'
        = (Raise (HTTPException 500
                    "Missing data file: tournament_registry.json"), w'))) /\
  (forall e w x w',
     load_tournament_registry e w = (Raise x, w') ->
     w' = w /\ status_of (@Raise registry x) = 500 /\
     forall e' items,
       tournament_registry_file e' = FileItems items ->
       fst (load_tournament_registry e' w')
       = Return (build_registry items [])).
Proof.
  split.
  - intros e w tournaments w' H e'.
    apply load_tournament_registry_cache in H. split.
    + now apply load_tournament_registry_cached.
    + intro Hf. unfold get_registry. now rewrite Hf.
  - intros e w x w'. unfold load_tournament_registry.
    destruct (_TOURNAMENTS_CACHE w) eqn:Ec; [discriminate|].
    destruct (tournament_registry_file e); intro H; inversion H; subst;
      (split; [reflexivity|]); (split; [reflexivity|]);
      intros e' items Hf; now rewrite Ec, Hf.
Qed.

(** X5.  The registry loaded from a file has one entry per distinct
    identifier: its keys are pairwise distinct, and looking an identifier
    up gives the last item of the file that has an [Id] with that string
    (a later item overwrites an earlier one; an item without [Id] is not
    loaded). *)
Theorem loaded_registry_lookup :
  forall e w items,
    _TOURNAMENTS_CACHE w = None ->
    tournament_registry_file e = FileItems items ->
    exists tournaments w',
      load_tournament_registry e w = (Return tournaments, w') /\
      NoDup (map fst tournaments) /\
      (forall k, reg_lookup tournaments k = last_with_id items k) /\
      (forall k t, reg_lookup tournaments k = Some t ->
         In t items /\ lookup t "Id" <> None /\ py_str (get t "Id") = k).
Proof.
  intros e w items Hc Hf.
  exists (build_registry items []), (mkWorld (Some (build_registry items [])) (requests w)).
  split; [unfold load_tournament_registry; now rewrite Hc, Hf|].
  split; [apply build_registry_keys; constructor|].
  assert (Hl : forall k, reg_lookup (build_registry items []) k
                         = last_with_id items k).
  { intro k. rewrite build_registry_lookup.
    now destruct (last_with_id items k). }
  split; [exact Hl|].
  intros k t Ht. rewrite Hl in Ht. unfold last_with_id in Ht.
  apply find_some in Ht as [Hin Hid].
  apply in_rev in Hin. unfold has_id in Hid.
  apply andb_true_iff in Hid as [Hc' He]. apply String.eqb_eq in He.
  repeat split; try assumption.
  unfold contains in Hc'. now destruct (lookup t "Id").
Qed.

(* ================================================================= *)
(** ** api/matches.py: resolution and the two endpoints *)

Lemma find_some_in_keys (f : string * pydict -> bool) (r : registry)
    (k : string) (t : pydict) :
  find f r = Some (k, t) -> In k (map fst r).
Proof.
  intro H. apply find_some in H as [H _]. now apply (in_map fst) in H.
Qed.

Lemma is_digit_character_lower (c : ascii) :
  is_digit_character (lower_char c) = is_digit_character c.
Proof. destruct c as [[] [] [] [] [] [] [] []]; reflexivity. Qed.

Lemma lower_char_digit (c : ascii) :
  is_digit_character c = true -> lower_char c = c.
Proof.
  destruct c as [[] [] [] [] [] [] [] []]; try discriminate; reflexivity.
Qed.

Lemma isdigit_lower (s : string) : isdigit (lower s) = isdigit s.
Proof.
  unfold isdigit. f_equal; [now destruct s|].
  unfold lower. induction s as [|c s IH]; [reflexivity|].
  simpl. now rewrite is_digit_character_lower, IH.
Qed.

Lemma isdigit_lower_fixed (s : string) : isdigit s = true -> lower s = s.
Proof.
  unfold isdigit. intro H. apply andb_true_iff in H as [_ H].
  unfold lower. induction s as [|c s IH]; [reflexivity|].
  simpl in H. apply andb_true_iff in H as [Hc Hs].
  simpl. now rewrite (lower_char_digit c Hc), IH.
Qed.

(** X6.  What resolution returns is the input itself or an identifier of
    the registry, and resolving it again gives it back.  Two inputs that
    are equal up to case, neither an identifier of the registry nor made
    of digits, resolve alike. *)
Theorem resolve_tournament_id_stable :
  (forall key tournaments tid,
     resolve_tournament_id key tournaments = Some tid ->
     (tid = key \/ In tid (map fst tournaments)) /\
     resolve_tournament_id tid tournaments = Some tid) /\
  (forall key key' tournaments,
     eq_ignore_case key key' ->
     ~ In key (map fst tournaments) -> ~ In key' (map fst tournaments) ->
     ~ only_decimal_digits key -> ~ only_decimal_digits key' ->
     resolve_tournament_id key tournaments
     = resolve_tournament_id key' tournaments).
Proof.
  split.
  - intros key tournaments tid. unfold resolve_tournament_id at 1.
    destruct (reg_lookup tournaments key) as [t|] eqn:El.
    + intro H. inversion H; subst tid. split; [now left|].
      unfold resolve_tournament_id. now rewrite El.
    + destruct (find (name_matches (lower key)) tournaments) as [[k t]|] eqn:Ef.
      * intro H. inversion H; subst k.
        apply find_some_in_keys in Ef. split; [now right|].
        now apply resolve_tournament_id_exact.
      * destruct (isdigit key) eqn:Ed; [|discriminate].
        intro H. inversion H; subst tid. split; [now left|].
        unfold resolve_tournament_id. now rewrite El, Ef, Ed.
  - intros key key' tournaments Hc Hk Hk' _ _.
    unfold resolve_tournament_id.
    apply reg_lookup_none in Hk, Hk'. rewrite Hk, Hk'.
    unfold eq_ignore_case in Hc. rewrite Hc.
    destruct (find (name_matches (lower key')) tournaments) as [[tid t]|];
      [reflexivity|].
    rewrite <- (isdigit_lower key), <- (isdigit_lower key'), Hc.
    destruct (isdigit (lower key')) eqn:E; [|reflexivity].
    rewrite isdigit_lower in E. pose proof E as E'.
    rewrite <- isdigit_lower, <- Hc, isdigit_lower in E'.
    apply isdigit_lower_fixed in E, E'. congruence.
Qed.

Lemma invalid_tournament (year : Z) (tid mid : string) (flatten : bool)
    (e : env) (w w0 : world) (tournaments : registry) :
  load_tournament_registry e w = (Return tournaments, w0) ->
  resolve_tournament_id tid tournaments = None \/
  resolve_tournament_id tid tournaments = Some "" ->
  get_tournament_matches year tid flatten e w
  = (Raise (HTTPException 404 "Invalid tournament ID or name"), w0) /\
  get_single_match year tid mid flatten e w
  = (Raise (HTTPException 404 "Invalid tournament ID or name"), w0).
Proof.
  intros Hl Hr. unfold get_tournament_matches, get_single_match, bind.
  rewrite Hl. destruct Hr as [-> | ->]; split; reflexivity.
Qed.


Lemma get_single_match_run (year : Z) (tid mid : string) (flatten : bool)
    (e : env) (w w0 : world) (tournaments : registry) (tidr : string) :
  load_tournament_registry e w = (Return tournaments, w0) ->
  resolve_tournament_id tid tournaments = Some tidr ->
  tidr <> "" ->
  get_single_match year tid mid flatten e w
  = (data <-- payload_of (upstream e (match_url year tidr mid)) ;;
     if truthy data
     then match_data <-- shown flatten data ;;
          Return (mkSingleMatch (single_match_name tournaments tidr)
                    tidr year mid match_data)
     else Raise (HTTPException 404 "Match not found"),
     logged w0 (match_url year tidr mid)).
Proof.
  intros Hl Hr Hne. unfold get_single_match, bind at 1.
  apply is_empty_false in Hne. rewrite Hl, Hr, Hne.
  unfold bind at 1. rewrite fetch_match_run.
  destruct (payload_of (upstream e (match_url year tidr mid))) as [data|x];
    [|reflexivity].
  cbn [rbind]. destruct (truthy data); cbn [negb]; [|reflexivity].
  unfold bind, shown, lift, ret, single_match_name.
  destruct flatten; [|reflexivity].
  now destruct (flatten_match_data data).
Qed.

(** X8.  For a resolved tournament the single-match endpoint sends one
    request, whatever comes of it.  Unless flattening is asked for, it
    answers 200 exactly when the upstream answered 200 with a body that is
    JSON and not empty; the answer then carries that body as it came, with
    or without a match identifier in it, under the match identifier of the
    request.  It answers 404 for every other response, and an exception
    of the request comes out as it is. *)
Theorem get_single_match_outcomes :
  forall year tid mid e w w0 tournaments tidr,
    load_tournament_registry e w = (Return tournaments, w0) ->
    resolve_tournament_id tid tournaments = Some tidr ->
    tidr <> "" ->
    let url := match_url year tidr mid in
    let r := get_single_match year tid mid false e w in
    requests (snd r) = requests w ++ [url] /\
    (forall resp, fst r = Return resp <->
       exists data, upstream e url = Responds 200 (Some data) /\
         truthy data = true /\
         resp = mkSingleMatch (single_match_name tournaments tidr)
                  tidr year mid data) /\
    (forall x, upstream e url = Fails x -> fst r = Raise x) /\
    (forall s b, upstream e url = Responds s b ->
       status_of (fst r) = 200 \/
       fst r = Raise (HTTPException 404 "Match not found")).
Proof.
  intros year tid mid e w w0 tournaments tidr Hl Hr Hne url r.
  subst r. rewrite (get_single_match_run _ _ _ _ _ _ _ _ _ Hl Hr Hne).
  fold url. cbn [fst snd logged requests].
  split; [now rewrite (load_tournament_registry_requests _ _ _ _ Hl)|].
  split; [|split].
  - intro resp. split.
    + destruct (payload_of (upstream e url)) as [data|x] eqn:Ep;
        [|discriminate].
      cbn [rbind]. destruct (truthy data) eqn:Et; [|discriminate].
      cbn [shown rbind]. intro H. inversion H. exists data.
      split; [now apply payload_truthy|]. now split.
    + intros (data & -> & Ht & ->). cbn [payload_of Z.eqb rbind].
      simpl. now rewrite Ht.
  - intros x ->. reflexivity.
  - intros s b ->. cbn [payload_of rbind].
    destruct (truthy _); [left | right]; reflexivity.
Qed.

Lemma tournament_names (tournaments : registry) (tid : string) :
  (tournament_name_of (reg_lookup tournaments tid)
   = single_match_name tournaments tid /\
   ~ (exists t, reg_lookup tournaments tid = Some t /\ t <> [] /\
                lookup t "Name" = None)) \/
  (tournament_name_of (reg_lookup tournaments tid) = JNull /\
   single_match_name tournaments tid = JStr "Unknown" /\
   exists t, reg_lookup tournaments tid = Some t /\ t <> [] /\
             lookup t "Name" = None).
Proof.
  unfold tournament_name_of, single_match_name.
  destruct (reg_lookup tournaments tid) as [[|p t0]|] eqn:E.
  - left. split; [reflexivity|]. intros (t & Ht & Hne & _).
    inversion Ht. congruence.
  - assert (Hne : p :: t0 <> []) by discriminate.
    remember (p :: t0) as t eqn:Et. clear Et. unfold get, get_default.
    destruct (lookup t "Name") as [v|] eqn:En.
    + left. split; [reflexivity|]. intros (t' & Ht & _ & Hn).
      inversion Ht; subst. congruence.
    + right. repeat split. exists t. now repeat split.
  - left. split; [reflexivity|]. intros (t & Ht & _). discriminate.
Qed.

(** X9.  When both endpoints answer for the same input, they report the
    same resolved identifier, and the same tournament name unless the
    record of the tournament has no [Name]: the aggregate endpoint then
    reports null and the single-match endpoint reports Unknown. *)
Theorem endpoints_name_the_tournament :
  forall year tid mid flatten flatten' e w w0 w1 w2 tournaments resp resp',
    load_tournament_registry e w = (Return tournaments, w0) ->
    get_tournament_matches year tid flatten e w = (Return resp, w1) ->
    get_single_match year tid mid flatten' e w = (Return resp', w2) ->
    sm_tournament_id resp' = tm_tournament_id resp /\
    (tm_tournament resp = sm_tournament resp' <->
     ~ (exists t, reg_lookup tournaments (tm_tournament_id resp) = Some t /\
                  t <> [] /\ lookup t "Name" = None)) /\
    (tm_tournament resp <> sm_tournament resp' ->
     tm_tournament resp = JNull /\ sm_tournament resp' = JStr "Unknown").
Proof.
  intros year tid mid flatten flatten' e w w0 w1 w2 tournaments resp resp'
         Hl Ha Hs.
  destruct (get_tournament_matches_return _ _ _ _ _ _ _ Ha)
    as (tournaments' & w0' & ds & Hl' & Hr & _ & Hn & _).
  rewrite Hl in Hl'. inversion Hl'; subst tournaments' w0'. clear Hl'.
  assert (Hne : tm_tournament_id resp <> "").
  { intro He.
    destruct (invalid_tournament year tid mid flatten e w w0 tournaments Hl)
      as [Hx _]; [right; now rewrite Hr, He|].
    rewrite Hx in Ha. discriminate. }
  rewrite (get_single_match_run _ _ _ _ _ _ _ _ _ Hl Hr Hne) in Hs.
  destruct (payload_of _) as [data|x]; [|discriminate].
  cbn [rbind] in Hs. destruct (truthy data); [|discriminate].
  destruct (shown flatten' data) as [md|x]; [|discriminate].
  cbn [rbind] in Hs. inversion Hs; subst resp'. cbn [sm_tournament_id sm_tournament].
  split; [reflexivity|]. rewrite Hn.
  destruct (tournament_names tournaments (tm_tournament_id resp))
    as [[He Hnot] | (Ha' & Hs' & Hex)].
  - split; [split; [intros _; exact Hnot | intros _; exact He]|].
    intro H. contradiction.
  - rewrite Ha', Hs'. split; [|intros _; now split].
    split; [discriminate | intro H; contradiction].
Qed.

(* ================================================================= *)
(** ** api/matches.py: [flatten_match_data] *)

Lemma truthy_py_or (a b : json) :
  truthy (py_or a b) = truthy a || truthy b.
Proof. unfold py_or. destruct (truthy a) eqn:E; [now rewrite E | reflexivity]. Qed.

Lemma flatten_match_data_match_id (pl : pydict) (out : json) :
  flatten_match_data (JDict pl) = Return out ->
  field out "match_id"
  = py_or (get (match_of pl) "MatchId") (get pl "MatchId").
Proof.
  unfold flatten_match_data. cbv zeta.
  destruct (score_of (match_of pl)) as [score|]; [|discriminate].
  cbn [rbind]. intro H. inversion H. reflexivity.
Qed.

Lemma flattened_truthy (pl : pydict) (out : json) :
  flatten_match_data (JDict pl) = Return out ->
  truthy (field out "match_id") = _has_match_id (JDict pl).
Proof.
  intro H. rewrite (flatten_match_data_match_id _ _ H), truthy_py_or.
  unfold match_of, _has_match_id.
  destruct (get pl "Match") as [| | | | | |m]; cbn match;
    now destruct (truthy (get pl "MatchId")).
Qed.

(** X10.  The [match_id] of a normalized match is the identifier at the
    wrapped location when there is one, and the one at the legacy location
    otherwise; it is an identifier exactly when the payload passes the
    containment test.  So every record of a flattened answer of the
    aggregate endpoint has a [match_id]. *)
Theorem flattened_match_id :
  (forall pl out,
     flatten_match_data (JDict pl) = Return out ->
     truthy (field out "match_id") = _has_match_id (JDict pl) /\
     (forall id, wrapped_match_id (JDict pl) id ->
        field out "match_id" = id) /\
     (forall id, legacy_match_id (JDict pl) id ->
        ~ (exists id', wrapped_match_id (JDict pl) id') ->
        field out "match_id" = id)) /\
  (forall year tid e w w' resp,
     get_tournament_matches year tid true e w = (Return resp, w') ->
     forall mid v, lookup (tm_matches resp) mid = Some v ->
       truthy (field v "match_id") = true).
Proof.
  split.
  - intros pl out H. split; [now apply flattened_truthy|].
    rewrite (flatten_match_data_match_id _ _ H). unfold match_of, py_or.
    split.
    + intros id (d & m & Hd & Hm & Hi & Ht). inversion Hd; subst d.
      apply get_is_dict in Hm. rewrite Hm.
      assert (Hg : get m "MatchId" = id)
        by (unfold get, get_default; now rewrite Hi).
      rewrite Hg. now rewrite Ht.
    + intros id (d & Hd & Hi & Ht) Hnot. inversion Hd; subst d.
      assert (Hg : get pl "MatchId" = id)
        by (unfold get, get_default; now rewrite Hi).
      destruct (get pl "Match") as [| | | | | |m] eqn:Em;
        try (rewrite Hg; now rewrite Ht).
      destruct (truthy (get m "MatchId")) eqn:Etm; [|exact Hg].
      exfalso. apply Hnot. apply get_truthy in Etm as (id' & Hi' & Ht').
      exists id', pl, m. apply get_is_dict in Em. now repeat split.
  - intros year tid e w w' resp H mid v Hl.
    destruct (get_tournament_matches_kept _ _ _ _ _ _ _ H mid v Hl)
      as (data & _ & _ & Hh & Hs).
    cbn [stored] in Hs. destruct data as [| | | | | |pl]; try discriminate.
    rewrite (flattened_truthy _ _ Hs). exact Hh.
Qed.

Lemma player_obj_shape (p : json) :
  truthy (player_obj p) = true -> is_player (player_obj p).
Proof.
  destruct p as [| | | | | |d]; try discriminate. cbn [player_obj].
  destruct (truthy (get d "PlayerId")) eqn:E; [|discriminate].
  intros _. cbn [negb]. eexists. split; [reflexivity|]. split; [reflexivity|].
  exact E.
Qed.

Lemma list_or_none_not_empty (l : list json) : list_or_none l <> JList [].
Proof. destruct l; discriminate. Qed.

Lemma flatten_match_data_fields (pl : pydict) (out : json) :
  flatten_match_data (JDict pl) = Return out ->
  exists d p1 p2 score,
    out = JDict d /\ map fst d = FLAT_FIELDS /\
    get d "players"
    = list_or_none (filter truthy [player_obj p1; player_obj p2]) /\
    get d "score" = list_or_none (map json_of_score_entry score).
Proof.
  unfold flatten_match_data. cbv zeta.
  destruct (score_of (match_of pl)) as [score|]; [|discriminate].
  cbn [rbind]. intro H. inversion H. eexists.
  exists (py_or (_get (JDict (match_of pl)) ["PlayerTeam"; "Player"] JNull)
                (JDict [])),
         (py_or (_get (JDict (match_of pl)) ["OpponentTeam"; "Player"] JNull)
                (JDict [])),
         score.
  repeat split; reflexivity.
Qed.

(** X11.  A payload that is no object normalizes to the empty object.
    The normalized form of an object has the fourteen fields, in their
    order.  Its [players] is null or a list of one or two players, each
    with a player identifier; neither [players] nor [score] is ever an
    empty list. *)
Theorem flatten_match_data_shape :
  (forall payload, is_dict payload = false ->
     flatten_match_data payload = Return (JDict [])) /\
  (forall pl out,
     flatten_match_data (JDict pl) = Return out ->
     (exists d, out = JDict d /\ map fst d = FLAT_FIELDS) /\
     (field out "players" = JNull \/
      exists ps, field out "players" = JList ps /\
        (1 <= List.length ps <= 2)%nat /\ Forall is_player ps) /\
     field out "players" <> JList [] /\
     field out "score" <> JList []).
Proof.
  split.
  - intros payload H. now destruct payload.
  - intros pl out H.
    apply flatten_match_data_fields in H
      as (d & p1 & p2 & score & -> & Hk & Hp & Hs).
    split; [now exists d|]. cbn [field]. rewrite Hp, Hs.
    split; [|split; apply list_or_none_not_empty].
    cbn [filter].
    destruct (truthy (player_obj p1)) eqn:E1;
      destruct (truthy (player_obj p2)) eqn:E2;
      [right | right | right | left; reflexivity];
      eexists; (split; [reflexivity|]); (split; [simpl; lia|]);
      repeat constructor; now apply player_obj_shape.
Qed.

Lemma by_set_raise (sets : list json) :
  forall acc x,
    by_set sets acc = Raise x ->
    x = TypeError /\ ~ hashable_set_numbers sets.
Proof.
  intros acc x H. split.
  - revert acc H. induction sets as [|s sets IH]; intros acc H;
      [discriminate|].
    destruct s as [| | | | | |s]; simpl in H; try (now apply IH in H).
    destruct (hashable (get s "SetNumber")); [now apply IH in H|].
    now inversion H.
  - intro Hh. rewrite (by_set_total sets acc Hh) in H. discriminate.
Qed.

Lemma score_of_raise (mt : pydict) (x : pyexn) :
  score_of mt = Raise x ->
  x = TypeError /\
  exists l1 l2, side_arrays mt = Some (l1, l2) /\
    ~ (hashable_set_numbers l1 /\ hashable_set_numbers l2).
Proof.
  unfold score_of, side_arrays.
  destruct (_get (JDict mt) ["PlayerTeam1"; "Sets"] (JList []))
    as [| | | | |l1|]; try discriminate.
  destruct (_get (JDict mt) ["PlayerTeam2"; "Sets"] (JList []))
    as [| | | | |l2|]; try discriminate.
  destruct (truthy (JList l1) || truthy (JList l2)); [|discriminate].
  destruct (by_set l1 []) as [d1|x1] eqn:E1; cbn [rbind].
  - destruct (by_set l2 []) as [d2|x2] eqn:E2; cbn [rbind]; [discriminate|].
    intro H. inversion H; subst x2. apply by_set_raise in E2 as [-> Hn].
    split; [reflexivity|]. exists l1, l2. split; [reflexivity|]. tauto.
  - intro H. inversion H; subst x1. apply by_set_raise in E1 as [-> Hn].
    split; [reflexivity|]. exists l1, l2. split; [reflexivity|]. tauto.
Qed.

(** X12.  Normalization raises nothing but a type error, and raises it
    exactly when the payload is an object whose two per-side arrays are
    lists and one of them holds a set whose number is a list or an object.
    The single-match endpoint then fails with that error, status 500,
    after its request. *)
Theorem flatten_match_data_raises :
  (forall payload x,
     flatten_match_data payload = Raise x -> x = TypeError) /\
  (forall payload,
     flatten_match_data payload = Raise TypeError <->
     exists pl l1 l2,
       payload = JDict pl /\ side_arrays (match_of pl) = Some (l1, l2) /\
       ~ (hashable_set_numbers l1 /\ hashable_set_numbers l2)) /\
  (forall year tid mid e w w0 tournaments tidr data,
     load_tournament_registry e w = (Return tournaments, w0) ->
     resolve_tournament_id tid tournaments = Some tidr ->
     tidr <> "" ->
     upstream e (match_url year tidr mid) = Responds 200 (Some data) ->
     flatten_match_data data = Raise TypeError ->
     get_single_match year tid mid true e w
     = (Raise TypeError, logged w0 (match_url year tidr mid))).
Proof using set_iteration_order_perm.
  assert (Hraise : forall payload x,
            flatten_match_data payload = Raise x ->
            x = TypeError /\
            exists pl l1 l2,
              payload = JDict pl /\ side_arrays (match_of pl) = Some (l1, l2) /\
              ~ (hashable_set_numbers l1 /\ hashable_set_numbers l2)).
  { intros payload x. destruct payload as [| | | | | |pl]; try discriminate.
    unfold flatten_match_data. cbv zeta.
    destruct (score_of (match_of pl)) as [score|x'] eqn:E; [discriminate|].
    cbn [rbind]. intro H. inversion H; subst x'.
    apply score_of_raise in E as (-> & l1 & l2 & Hs & Hn).
    split; [reflexivity|]. now exists pl, l1, l2. }
  split; [intros payload x H; now apply Hraise in H|]. split.
  - intro payload. split; [intro H; now apply Hraise in H|].
    intros (pl & l1 & l2 & -> & Hs & Hn).
    destruct (flatten_match_data (JDict pl)) as [out|x] eqn:E.
    + exfalso. apply flatten_match_data_dict in E as (score & Hsc & _).
      apply score_of_return in Hsc. rewrite Hs in Hsc. tauto.
    + apply Hraise in E as [-> _]. reflexivity.
  - intros year tid mid e w w0 tournaments tidr data Hl Hr Hne Hup Hf.
    assert (Ht : truthy data = true).
    { destruct data as [| | | | | |pl]; try discriminate.
      destruct pl as [|kv pl]; [discriminate | reflexivity]. }
    rewrite (get_single_match_run _ _ _ _ _ _ _ _ _ Hl Hr Hne), Hup.
    unfold payload_of, shown. change (200 =? 200) with true.
    cbn [rbind]. rewrite Ht, Hf. reflexivity.
Qed.

(* ================================================================= *)
(** ** api/matches.py: [_get] *)

(** X13.  A path in two parts is followed part by part: the value at the
    first part, then the rest of the path from there; a first part that
    leads nowhere, or to null, gives the default.  So the default only
    shows where the path leads nowhere, and no default but null lets a
    path that is not empty come out as null. *)
Theorem _get_composes :
  (forall p q cur default, p <> [] ->
     _get cur (p ++ q) default
     = match _get cur p JNull with
       | JNull => default
       | v => _get v q default
       end) /\
  (forall p cur default, p <> [] ->
     _get cur p default = JNull -> default = JNull).
Proof.
  assert (H : forall p q cur default, p <> [] ->
     _get cur (p ++ q) default
     = match _get cur p JNull with
       | JNull => default
       | v => _get v q default
       end).
  { induction p as [|k p IH]; intros q cur default Hne; [congruence|].
    destruct cur as [| | | | | |d]; try reflexivity.
    cbn [app _get].
    destruct p as [|k' p].
    - cbn [app _get]. now destruct (get d k).
    - destruct (get d k) eqn:E; try reflexivity;
        now apply IH. }
  split; [exact H|].
  intros p cur default Hne. rewrite <- (app_nil_r p), (H p [] cur default Hne).
  cbn [_get]. destruct (_get cur p JNull); congruence.
Qed.

(* ================================================================= *)
(** ** utils/atp_h2h.py: the range of a parsed result *)

Lemma digit_value_range (c : ascii) :
  is_digit c = true -> 0 <= digit_value c <= 9.
Proof.
  unfold is_digit, in_range, digit_value. intro H.
  apply andb_true_iff in H as [H1 H2].
  apply N.leb_le in H1, H2. lia.
Qed.

Lemma int_of_digits_from_nonneg (s : string) :
  forall acc, all_chars is_digit s = true -> 0 <= acc ->
    0 <= int_of_digits_from s acc.
Proof.
  induction s as [|c s IH]; intros acc H Hacc; [exact Hacc|].
  simpl in H. apply andb_true_iff in H as [Hc Hs].
  cbn [int_of_digits_from].
  apply IH; [assumption|]. apply digit_value_range in Hc. lia.
Qed.

Lemma set_token_body_chars (s digits : string) (tb : option string) :
  set_token_body s = Some (digits, tb) ->
  all_chars is_digit digits = true /\
  forall t, tb = Some t -> all_chars is_digit t = true.
Proof.
  unfold set_token_body. destruct (span is_digit s) as [a b] eqn:E.
  apply span_spec in E as [-> Ha].
  destruct (is_empty a); [discriminate|].
  destruct b as [|c r].
  - intro H. inversion H; subst. split; [assumption | discriminate].
  - destruct (Ascii.eqb c "("%char) eqn:Ec.
    + apply Ascii.eqb_eq in Ec. subst c.
      destruct (span is_digit r) as [tb' rest'] eqn:Er.
      apply span_spec in Er as [_ Htb].
      destruct (is_empty tb'); [discriminate|].
      destruct (String.eqb rest' ")"); [|discriminate].
      intro H. inversion H; subst. split; [assumption|].
      intros t Ht. now inversion Ht; subst.
    + destruct c as [[] [] [] [] [] [] [] []]; try discriminate;
        discriminate Ec.
Qed.

Lemma set_token_match_chars (tok digits : string) (tb : option string) :
  _SET_TOKEN_RE_match tok = Some (digits, tb) ->
  all_chars is_digit digits = true /\
  forall t, tb = Some t -> all_chars is_digit t = true.
Proof.
  unfold _SET_TOKEN_RE_match, match_to_dollar.
  destruct (set_token_body tok) as [m|] eqn:E.
  - intro H; inversion H; subst. now apply set_token_body_chars in E.
  - destruct (drop_last_newline tok) as [t|]; [|discriminate].
    apply set_token_body_chars.
Qed.

Lemma tiebreak_of_return (tb : option string) (tiebreak : option Z) :
  tiebreak_of tb = Return tiebreak ->
  tiebreak = option_map int_of_digits tb.
Proof.
  destruct tb as [t|]; [|intro H; now inversion H].
  unfold tiebreak_of, py_int_of_digits.
  destruct (INT_MAX_STR_DIGITS <? N.of_nat (String.length t))%N;
    [discriminate|].
  intro H. now inversion H.
Qed.

Lemma parse_tokens_range (tokens : list string) :
  forall n sets,
    parse_tokens tokens n [] = Return sets ->
    Forall set_in_range sets /\
    (List.length sets <= List.length tokens)%nat.
Proof.
  induction tokens as [|tok rest IH]; intros n sets; cbn [parse_tokens].
  - intro H. inversion H. split; [constructor | simpl; lia].
  - destruct (in_markers (upper tok));
      [intro H; inversion H; split; [constructor | simpl; lia]|].
    assert (Hskip : parse_tokens rest n [] = Return sets ->
                    Forall set_in_range sets /\
                    (List.length sets <= List.length (tok :: rest))%nat).
    { intro H. destruct (IH n sets H) as [H1 H2].
      split; [assumption | simpl; lia]. }
    destruct (_SET_TOKEN_RE_match tok) as [[digits tb]|] eqn:Em;
      [|exact Hskip].
    destruct (String.length digits <? 2)%nat eqn:El; [exact Hskip|].
    apply Nat.ltb_ge in El. apply set_token_match_chars in Em as [Hd Htb].
    destruct (tiebreak_of tb) as [tiebreak|x] eqn:Et; [|discriminate].
    apply tiebreak_of_return in Et. cbn [rbind]. rewrite parse_tokens_out.
    destruct (parse_tokens rest (n + 1) []) as [later|x] eqn:Er;
      [|discriminate].
    cbn [rbind]. intro H. injection H as <-.
    destruct (IH _ _ Er) as [Hr1 Hr2].
    split; [|cbn [app List.length]; lia].
    cbn [app]. constructor; [|assumption].
    destruct digits as [|d1 [|d2 more]]; simpl in El; try lia.
    simpl in Hd. apply andb_true_iff in Hd as [Hd1 Hd].
    apply andb_true_iff in Hd as [Hd2 _].
    unfold set_in_range. cbn [ps_p1 ps_p2 ps_tiebreak first_char second_char].
    split; [now apply digit_value_range|].
    split; [now apply digit_value_range|].
    intros t Ht. subst tiebreak. destruct tb as [s0|]; [|discriminate].
    inversion Ht; subst t. apply int_of_digits_from_nonneg; [|lia].
    now apply Htb.
Qed.

Lemma digits_match (digits : string) :
  digits <> "" -> all_chars is_digit digits = true ->
  _SET_TOKEN_RE_match digits = Some (digits, None).
Proof.
  intros Hne Hd. unfold _SET_TOKEN_RE_match, match_to_dollar, set_token_body.
  assert (Hs : span is_digit digits = (digits, ""%string)).
  { clear Hne. induction digits as [|c s IH]; [reflexivity|].
    simpl in Hd. apply andb_true_iff in Hd as [Hc Hs].
    simpl. now rewrite Hc, IH. }
  rewrite Hs. apply is_empty_false in Hne. now rewrite Hne.
Qed.

(** X14.  A result that parses gives at least one set and at most one
    per token; every set has games between 0 and 9 on both sides and a
    tiebreak count that is not negative.  A token of more than two digits
    counts as a set by its first two: the others are dropped. *)
Theorem parse_result_string_range :
  (forall v sets,
     parse_result_string v = Return (Some sets) ->
     sets <> [] /\ Forall set_in_range sets /\
     exists s, v = JStr s /\ s <> "" /\
       (List.length sets <= List.length (split s))%nat) /\
  (forall d1 d2 more rest n out,
     all_chars is_digit (String d1 (String d2 more)) = true ->
     parse_tokens (String d1 (String d2 more) :: rest) n out
     = parse_tokens rest (n + 1)
         (out ++ [mkParsedSet (n + 1) (digit_value d1) (digit_value d2) None])).
Proof.
  split.
  - intros v sets. unfold parse_result_string.
    destruct v as [| | | |s| |]; try discriminate.
    destruct (is_empty s) eqn:Es; [discriminate|].
    rewrite split_strip.
    destruct (parse_tokens (split s) 0 []) as [out|x] eqn:Ep; [|discriminate].
    destruct (parse_tokens_range (split s) 0 out Ep) as [Hr Hl].
    cbn [rbind]. destruct out as [|p l]; [discriminate|].
    intro H. inversion H; subst sets.
    split; [discriminate|]. split; [assumption|].
    exists s. split; [reflexivity|]. split; [now apply is_empty_false | exact Hl].
  - intros d1 d2 more rest n out Hd. cbn [parse_tokens].
    assert (Hd1 : is_digit d1 = true)
      by (simpl in Hd; now apply andb_true_iff in Hd as [? _]).
    rewrite (digit_first_not_marker d1 _ Hd1).
    rewrite digits_match by (discriminate || assumption).
    reflexivity.
Qed.

(* ================================================================= *)
(** ** utils/atp_h2h.py: [flatten_h2h_matches] *)

Lemma upstream_set_dict (s : pydict) :
  exists d, upstream_set (JDict s) = Return (JDict d) /\
    map fst d = ["set_number"; "player_games"; "player_tiebreak"; "won_set"].
Proof. eexists. split; reflexivity. Qed.

Lemma upstream_set_raise (s : json) :
  is_dict s = false -> upstream_set s = Raise AttributeError.
Proof. now destruct s. Qed.

Lemma mapM_upstream_set (sets : list json) :
  match mapM upstream_set sets with
  | Return l =>
      List.length l = List.length sets /\ Forall (fun s => is_dict s = true) sets
  | Raise x =>
      x = AttributeError /\ exists s, In s sets /\ is_dict s = false
  end.
Proof.
  induction sets as [|s sets IH]; [split; [reflexivity | constructor]|].
  cbn [mapM]. destruct s as [| | | | | |s];
    try (split; [reflexivity | eexists; split; [now left | reflexivity]]).
  destruct (upstream_set_dict s) as (d & -> & _). cbn [rbind].
  destruct (mapM upstream_set sets) as [l|x]; cbn [rbind].
  - destruct IH as [Hl Hd]. split; [simpl; now rewrite Hl | now constructor].
  - destruct IH as (-> & s' & Hin & Hs'). split; [reflexivity|].
    exists s'. split; [now right | assumption].
Qed.

Lemma flatten_h2h_match_upstream (tournament mt : pydict) :
  flatten_h2h_match tournament mt
  = (sets_from_result <-- parse_result_string (get mt "ResultString") ;;
     upstream_sets <--
       match player_team_sets mt with
       | Some sets => l <-- mapM upstream_set sets ;; Return (JList l)
       | None => Return JNull
       end ;;
     Return (JDict
       [("tournament",
         py_or (py_or (get tournament "TournamentName")
                      (get tournament "EventDisplayName"))
               (get tournament "EventName"));
        ("year", get tournament "EventYear");
        ("round", match py_or (get mt "Round") (JDict []) with
                  | JDict d => get d "ShortName"
                  | _ => JNull
                  end);
        ("winner", get mt "Winner");
        ("surface", get tournament "Surface");
        ("indoor_outdoor", get tournament "InOutdoorDisplay");
        ("match_id", get mt "MatchId");
        ("result", get mt "ResultString");
        ("sets", json_of_sets sets_from_result);
        ("player_team", get mt "PlayerTeam");
        ("opponent_team", get mt "OpponentTeam");
        ("upstream_sets", upstream_sets);
        ("match_stats_url", get mt "MatchStatsUrl");
        ("reason", get mt "Reason")])).
Proof.
  unfold flatten_h2h_match, player_team_sets. cbv zeta.
  assert (Hp : (if truthy (get mt "ResultString")
                then parse_result_string (get mt "ResultString")
                else Return None)
               = parse_result_string (get mt "ResultString")).
  { destruct (truthy (get mt "ResultString")) eqn:E; [reflexivity|].
    destruct (get mt "ResultString") as [|b|n|f|s|l|l]; try reflexivity.
    destruct s; [reflexivity | discriminate E]. }
  rewrite Hp.
  destruct (parse_result_string (get mt "ResultString")); [|reflexivity].
  cbn [rbind].
  destruct (get mt "PlayerTeam") as [| | | | | |pt]; try reflexivity.
  destruct pt as [|kv pt]; [reflexivity|].
  destruct (get (kv :: pt) "Sets"); reflexivity.
Qed.

Lemma tiebreak_of_raise (tb : option string) (x : pyexn) :
  tiebreak_of tb = Raise x -> x = ValueError /\ ~ fits tb.
Proof.
  destruct tb as [t|]; [|discriminate].
  unfold tiebreak_of, py_int_of_digits, fits.
  destruct (INT_MAX_STR_DIGITS <? N.of_nat (String.length t))%N eqn:E;
    [|discriminate].
  cbn [rbind]. intro H. inversion H. split; [reflexivity|].
  apply N.ltb_lt in E. lia.
Qed.

Lemma parse_tokens_raise (tokens : list string) :
  forall n out x,
    parse_tokens tokens n out = Raise x ->
    x = ValueError /\
    exists tok digits tb,
      In tok tokens /\ _SET_TOKEN_RE_match tok = Some (digits, tb) /\
      ~ fits tb.
Proof.
  induction tokens as [|tok rest IH]; intros n out x; cbn [parse_tokens];
    [discriminate|].
  destruct (in_markers (upper tok)); [discriminate|].
  assert (Hrest : forall n' out',
            parse_tokens rest n' out' = Raise x ->
            x = ValueError /\
            exists tok' digits tb,
              In tok' (tok :: rest) /\
              _SET_TOKEN_RE_match tok' = Some (digits, tb) /\ ~ fits tb).
  { intros n' out' H.
    destruct (IH _ _ _ H) as (-> & tok' & digits & tb & Hin & Hrest).
    split; [reflexivity|]. exists tok', digits, tb.
    split; [now right | assumption]. }
  destruct (_SET_TOKEN_RE_match tok) as [[digits tb]|] eqn:Em;
    [|apply Hrest].
  destruct (String.length digits <? 2)%nat; [apply Hrest|].
  destruct (tiebreak_of tb) as [tiebreak|x'] eqn:Et; cbn [rbind];
    [apply Hrest|].
  intro H. inversion H; subst x'.
  apply tiebreak_of_raise in Et as [-> Hfits]. split; [reflexivity|].
  exists tok, digits, tb. split; [now left|]. now split.
Qed.

Lemma parse_result_string_raise (v : json) (x : pyexn) :
  parse_result_string v = Raise x ->
  x = ValueError /\
  exists s tok digits tb,
    v = JStr s /\ In tok (split s) /\
    _SET_TOKEN_RE_match tok = Some (digits, tb) /\ ~ fits tb.
Proof.
  unfold parse_result_string.
  destruct v as [| | | |s| |]; try discriminate.
  destruct (is_empty s); [discriminate|]. rewrite split_strip.
  destruct (parse_tokens (split s) 0 []) as [out|x'] eqn:E; [discriminate|].
  cbn [rbind]. intro H. inversion H; subst x'.
  apply parse_tokens_raise in E as (-> & tok & digits & tb & Hrest).
  split; [reflexivity|]. now exists s, tok, digits, tb.
Qed.

(** X15.  The record of a head-to-head match has its fourteen fields.
    Its [sets] is the parse of the result string of the match, whatever
    that value is, and null when there is none to parse.  Its
    [upstream_sets] is null unless the player team of the match is an
    object, not empty, whose sets are a list; then it has one entry per
    set.  The record cannot be built in two cases only: the result string
    does not parse, which takes a token whose tiebreak count has more
    than 4300 digits and raises a value error; or it parses and one of
    the sets of the player team is not an object, which raises an
    attribute error. *)
Theorem flatten_h2h_match_sets :
  forall tournament mt,
    (forall x,
       flatten_h2h_match tournament mt = Return x ->
       (exists d, x = JDict d /\ map fst d = H2H_FIELDS) /\
       (exists sets,
          parse_result_string (get mt "ResultString") = Return sets /\
          field x "sets" = json_of_sets sets) /\
       match player_team_sets mt with
       | Some sets =>
           exists l, field x "upstream_sets" = JList l /\
                     List.length l = List.length sets
       | None => field x "upstream_sets" = JNull
       end) /\
    (forall x,
       flatten_h2h_match tournament mt = Raise x <->
       (x = ValueError /\
        parse_result_string (get mt "ResultString") = Raise ValueError) \/
       (x = AttributeError /\
        (exists sets,
           parse_result_string (get mt "ResultString") = Return sets) /\
        exists sets s, player_team_sets mt = Some sets /\ In s sets /\
                       is_dict s = false)) /\
    (forall x,
       parse_result_string (get mt "ResultString") = Raise x ->
       x = ValueError /\
       exists s tok digits tb,
         get mt "ResultString" = JStr s /\ In tok (split s) /\
         _SET_TOKEN_RE_match tok = Some (digits, tb) /\ ~ fits tb).
Proof.
  intros tournament mt. rewrite flatten_h2h_match_upstream.
  split; [|split; [|intro x; apply parse_result_string_raise]].
  - intro x.
    destruct (parse_result_string (get mt "ResultString")) as [parsed|x0];
      [|discriminate].
    cbn [rbind]. destruct (player_team_sets mt) as [sets|].
    + pose proof (mapM_upstream_set sets) as Hm.
      destruct (mapM upstream_set sets) as [l|x0]; [|discriminate].
      cbn [rbind]. destruct Hm as [Hl _]. intro H. inversion H.
      split; [eexists; split; reflexivity|].
      split; [exists parsed; split; reflexivity|]. now exists l.
    + cbn [rbind]. intro H. inversion H.
      split; [eexists; split; reflexivity|].
      split; [exists parsed; split; reflexivity | reflexivity].
  - intro x.
    destruct (parse_result_string (get mt "ResultString")) as [parsed|x0]
      eqn:Ep; cbn [rbind].
    + destruct (player_team_sets mt) as [sets|].
      * pose proof (mapM_upstream_set sets) as Hm.
        destruct (mapM upstream_set sets) as [l|x0]; cbn [rbind].
        -- destruct Hm as [_ Hd]. split; [discriminate|].
           intros [[_ H]|(_ & _ & sets' & s & Hs & Hin & Hnd)];
             [discriminate|].
           inversion Hs; subst sets'.
           rewrite Forall_forall in Hd. apply Hd in Hin. congruence.
        -- destruct Hm as (-> & s & Hin & Hnd). split.
           ++ intro H. inversion H. right. split; [reflexivity|].
              split; [now exists parsed | now exists sets, s].
           ++ intros [[_ H]|(-> & _)]; [discriminate | reflexivity].
      * cbn [rbind]. split; [discriminate|].
        intros [[_ H]|(_ & _ & sets & s & Hs & _)]; discriminate.
    + apply parse_result_string_raise in Ep as Hx. destruct Hx as [-> _].
      split.
      * intro H. inversion H. left. now split.
      * intros [[-> _]|(_ & (sets & Hs) & _)]; [reflexivity | discriminate].
Qed.

Lemma flatten_h2h_match_list_members (tournament : pydict) (l : list json) :
  forall xs,
    flatten_h2h_match_list tournament l = Return xs ->
    forall x, In x xs <->
      exists mt, In (JDict mt) l /\ flatten_h2h_match tournament mt = Return x.
Proof.
  induction l as [|m l IH]; intros xs H x.
  - inversion H. split; [intros [] | intros (mt & [] & _)].
  - assert (Hskip : is_dict m = false ->
              flatten_h2h_match_list tournament l = Return xs ->
              (In x xs <->
               exists mt, In (JDict mt) (m :: l) /\
                          flatten_h2h_match tournament mt = Return x)).
    { intros Hm Hl. rewrite (IH _ Hl x). split.
      - intros (mt & Hin & Hf). exists mt. split; [now right | assumption].
      - intros (mt & [He|Hin] & Hf); [subst m; discriminate|].
        now exists mt. }
    destruct m as [| | | | | |mt]; try (now apply Hskip).
    cbn [flatten_h2h_match_list] in H.
    destruct (flatten_h2h_match tournament mt) as [y|] eqn:Ey; [|discriminate].
    destruct (flatten_h2h_match_list tournament l) as [ys|]; [|discriminate].
    cbn [rbind] in H. inversion H; subst xs. cbn [In].
    rewrite (IH ys eq_refl x). split.
    + intros [<-|(mt' & Hin & Hf)].
      * exists mt. split; [now left | assumption].
      * exists mt'. split; [now right | assumption].
    + intros (mt' & [He|Hin] & Hf).
      * inversion He; subst mt'. left. congruence.
      * right. now exists mt'.
Qed.

Lemma flatten_h2h_tournaments_members (ts : list json) :
  forall xs,
    flatten_h2h_tournaments ts = Return xs ->
    forall x, In x xs <->
      exists t l mt,
        In (JDict t) ts /\ py_iter (match_list_of t) = Return l /\
        In (JDict mt) l /\ flatten_h2h_match t mt = Return x.
Proof.
  induction ts as [|t ts IH]; intros xs H x.
  - inversion H. split; [intros [] | intros (? & ? & ? & [] & _)].
  - assert (Hskip : is_dict t = false ->
              flatten_h2h_tournaments ts = Return xs ->
              (In x xs <->
               exists t' l mt,
                 In (JDict t') (t :: ts) /\
                 py_iter (match_list_of t') = Return l /\
                 In (JDict mt) l /\ flatten_h2h_match t' mt = Return x)).
    { intros Ht Hl. rewrite (IH _ Hl x). split.
      - intros (t' & l & mt & Hin & Hrest). exists t', l, mt.
        split; [now right | assumption].
      - intros (t' & l & mt & [He|Hin] & Hrest); [subst t; discriminate|].
        now exists t', l, mt. }
    destruct t as [| | | | | |t]; try (now apply Hskip).
    cbn [flatten_h2h_tournaments] in H. cbv zeta in H.
    fold (match_list_of t) in H.
    destruct (py_iter (match_list_of t)) as [l|] eqn:El; [|discriminate].
    cbn [rbind] in H.
    destruct (flatten_h2h_match_list t l) as [ms|] eqn:Em; [|discriminate].
    destruct (flatten_h2h_tournaments ts) as [ys|]; [|discriminate].
    cbn [rbind] in H. inversion H; subst xs. rewrite in_app_iff.
    rewrite (flatten_h2h_match_list_members _ _ _ Em x), (IH ys eq_refl x).
    split.
    + intros [(mt & Hin & Hf)|(t' & l' & mt & Hin & Hrest)].
      * exists t, l, mt. split; [now left|]. now repeat split.
      * exists t', l', mt. split; [now right | assumption].
    + intros (t' & l' & mt & [He|Hin] & Hl' & Hm & Hf).
      * inversion He; subst t'. left. exists mt.
        rewrite El in Hl'. inversion Hl'; subst l'. now split.
      * right. now exists t', l', mt.
Qed.

Lemma flatten_h2h_tournaments_app (a b : list json) :
  flatten_h2h_tournaments (a ++ b)
  = (xs <-- flatten_h2h_tournaments a ;;
     ys <-- flatten_h2h_tournaments b ;;
     Return (xs ++ ys)).
Proof.
  induction a as [|t a IH].
  - cbn [app flatten_h2h_tournaments rbind].
    now destruct (flatten_h2h_tournaments b).
  - destruct t as [| | | | | |t]; try exact IH.
    cbn [app flatten_h2h_tournaments]. cbv zeta.
    destruct (py_iter _); [|reflexivity]. cbn [rbind].
    destruct (flatten_h2h_match_list t _); [|reflexivity]. cbn [rbind].
    rewrite IH.
    destruct (flatten_h2h_tournaments a); [|reflexivity]. cbn [rbind].
    destruct (flatten_h2h_tournaments b); [|reflexivity]. cbn [rbind].
    now rewrite app_assoc.
Qed.

(** X16.  The flattened list of a head-to-head holds the records of the
    matches that are objects, of the tournaments that are objects, of the
    two sections, and nothing else: what is no object is passed over at
    both levels.  The records of the first section come before those of
    the second, and within a section the tournaments contribute in their
    order. *)
Theorem flatten_h2h_matches_members :
  (forall d ms,
     flatten_h2h_matches (JDict d) = Return ms ->
     forall x, In x ms <->
       exists section ts t l mt,
         In section ["Tournaments"; "OtherTournaments"] /\
         py_iter (section_of d section) = Return ts /\
         In (JDict t) ts /\ py_iter (match_list_of t) = Return l /\
         In (JDict mt) l /\ flatten_h2h_match t mt = Return x) /\
  (forall d ms,
     flatten_h2h_matches (JDict d) = Return ms ->
     exists a b,
       flatten_h2h_section (JDict d) "Tournaments" = Return a /\
       flatten_h2h_section (JDict d) "OtherTournaments" = Return b /\
       ms = a ++ b) /\
  (forall a b,
     flatten_h2h_tournaments (a ++ b)
     = (xs <-- flatten_h2h_tournaments a ;;
        ys <-- flatten_h2h_tournaments b ;;
        Return (xs ++ ys))).
Proof.
  assert (Hsplit : forall d ms,
     flatten_h2h_matches (JDict d) = Return ms ->
     exists a b,
       flatten_h2h_section (JDict d) "Tournaments" = Return a /\
       flatten_h2h_section (JDict d) "OtherTournaments" = Return b /\
       ms = a ++ b).
  { intros d ms. unfold flatten_h2h_matches.
    destruct (flatten_h2h_section (JDict d) "Tournaments") as [a|];
      [|discriminate].
    destruct (flatten_h2h_section (JDict d) "OtherTournaments") as [b|];
      [|discriminate].
    cbn [rbind]. intro H. inversion H. now exists a, b. }
  assert (Hsec : forall d section xs,
     flatten_h2h_section (JDict d) section = Return xs ->
     forall x, In x xs <->
       exists ts t l mt,
         py_iter (section_of d section) = Return ts /\
         In (JDict t) ts /\ py_iter (match_list_of t) = Return l /\
         In (JDict mt) l /\ flatten_h2h_match t mt = Return x).
  { intros d section xs. unfold flatten_h2h_section.
    fold (section_of d section).
    destruct (py_iter (section_of d section)) as [ts|]; [|discriminate].
    cbn [rbind]. intros H x.
    rewrite (flatten_h2h_tournaments_members _ _ H x). split.
    - intros (t & l & mt & Hrest). now exists ts, t, l, mt.
    - intros (ts' & t & l & mt & Hts & Hrest). inversion Hts; subst ts'.
      now exists t, l, mt. }
  split; [|split; [exact Hsplit | exact flatten_h2h_tournaments_app]].
  intros d ms H x. destruct (Hsplit d ms H) as (a & b & Ha & Hb & ->).
  rewrite in_app_iff, (Hsec _ _ _ Ha x), (Hsec _ _ _ Hb x). split.
  - intros [(ts & t & l & mt & Hrest)|(ts & t & l & mt & Hrest)].
    + exists "Tournaments"%string, ts, t, l, mt. split; [now left | assumption].
    + exists "OtherTournaments"%string, ts, t, l, mt.
      split; [right; now left | assumption].
  - intros (section & ts & t & l & mt & [<-|[<-|[]]] & Hrest).
    + left. now exists ts, t, l, mt.
    + right. now exists ts, t, l, mt.
Qed.

(* ================================================================= *)
(** ** api/h2h.py: the head-to-head endpoint *)

Lemma fetch_head_to_head_rejects (p1 p2 : string) (e : env) (w : world) :
  _PLAYER_CODE_RE_match p1 && _PLAYER_CODE_RE_match p2 = false ->
  fetch_head_to_head p1 p2 e w
  = (Raise (HTTPException 400
       "Player IDs must be alphanumeric ATP player codes (e.g., DH58)"), w).
Proof.
  intro H. unfold fetch_head_to_head.
  rewrite <- negb_andb, H. reflexivity.
Qed.

Lemma fetch_head_to_head_sends (p1 p2 : string) (e : env) (w : world) :
  _PLAYER_CODE_RE_match p1 && _PLAYER_CODE_RE_match p2 = true ->
  snd (fetch_head_to_head p1 p2 e w) = logged w (h2h_url p1 p2).
Proof.
  intro H. apply andb_true_iff in H as [H1 H2].
  destruct (fetch_head_to_head_outcomes p1 p2 e w) as [_ Hs].
  now destruct (Hs H1 H2) as [Hw _].
Qed.

Lemma get_head_to_head_world (p1 p2 : string) (flatten : bool)
    (e : env) (w : world) :
  snd (get_head_to_head p1 p2 flatten e w)
  = snd (fetch_head_to_head p1 p2 e w).
Proof.
  unfold get_head_to_head, bind, lift, ret.
  destruct (fetch_head_to_head p1 p2 e w) as [[raw|x] w1]; cbn [snd].
  - destruct flatten; cbn [negb]; [|reflexivity].
    destruct (attr_get raw "playerLeft") as [|x]; [|now destruct x].
    destruct (attr_get raw "playerRight") as [|x]; [|now destruct x].
    destruct (flatten_h2h_matches raw) as [|x]; [reflexivity | now destruct x].
  - now destruct x.
Qed.

(** X17.  The head-to-head endpoint never lets an exception out that is
    not an HTTP error.  It sends one request when both codes pass the
    pattern and none otherwise.  Without flattening it returns the body
    of a 200 answer as it is, whatever JSON value that is; with
    flattening a body that is no object is answered with 500, and an
    object is answered with its two player fields and its flattened
    matches. *)
Theorem get_head_to_head_answers :
  forall p1 p2 e w,
    (forall flatten x,
       fst (get_head_to_head p1 p2 flatten e w) = Raise x ->
       exists s d, x = HTTPException s d) /\
    (forall flatten,
       requests (snd (get_head_to_head p1 p2 flatten e w))
       = if _PLAYER_CODE_RE_match p1 && _PLAYER_CODE_RE_match p2
         then requests w ++ [h2h_url p1 p2]
         else requests w) /\
    (forall j,
       _PLAYER_CODE_RE_match p1 && _PLAYER_CODE_RE_match p2 = true ->
       upstream e (h2h_url p1 p2) = Responds 200 (Some j) ->
       fst (get_head_to_head p1 p2 false e w) = Return j /\
       (is_dict j = false ->
        fst (get_head_to_head p1 p2 true e w)
        = Raise (HTTPException 500 "Failed to fetch head-to-head data")) /\
       (forall d ms, j = JDict d -> flatten_h2h_matches j = Return ms ->
        fst (get_head_to_head p1 p2 true e w)
        = Return (JDict [("playerLeft", get d "playerLeft");
                         ("playerRight", get d "playerRight");
                         ("matches", JList ms)]))).
Proof.
  intros p1 p2 e w. split; [|split].
  - intros flatten x. unfold get_head_to_head, bind, lift, ret.
    destruct (fetch_head_to_head p1 p2 e w) as [[raw|x0] w1].
    + destruct flatten; cbn [negb]; [|discriminate].
      destruct (attr_get raw "playerLeft") as [|x1];
        [|destruct x1; cbn [fst]; intro H; inversion H; eauto].
      destruct (attr_get raw "playerRight") as [|x1];
        [|destruct x1; cbn [fst]; intro H; inversion H; eauto].
      destruct (flatten_h2h_matches raw) as [|x1];
        [discriminate | destruct x1; cbn [fst]; intro H; inversion H; eauto].
    + destruct x0; cbn [fst]; intro H; inversion H; eauto.
  - intro flatten. rewrite get_head_to_head_world.
    destruct (_PLAYER_CODE_RE_match p1 && _PLAYER_CODE_RE_match p2) eqn:E.
    + now rewrite fetch_head_to_head_sends.
    + now rewrite fetch_head_to_head_rejects.
  - intros j Hc Hup. apply andb_true_iff in Hc as [H1 H2].
    destruct (fetch_head_to_head_outcomes p1 p2 e w) as [_ Hs].
    destruct (Hs H1 H2) as (_ & _ & _ & _ & _ & Hj).
    specialize (Hj j Hup). unfold get_head_to_head, bind, lift, ret.
    destruct (fetch_head_to_head p1 p2 e w) as [r w1]. cbn [fst] in Hj.
    subst r. split; [reflexivity|]. split.
    + intro Hd. cbn [negb]. now destruct j.
    + intros d ms -> Hf. cbn [negb attr_get]. now rewrite Hf.
Qed.

(** X18.  The 400 answer about player codes is given exactly when one of
    the two codes is neither alphanumeric nor alphanumeric followed by
    one line feed; the state is then as before, no request having been
    sent. *)
Theorem invalid_player_code_is_400 :
  forall p1 p2 flatten e w,
    ~ (accepted_code p1 /\ accepted_code p2) <->
    get_head_to_head p1 p2 flatten e w
    = (Raise (HTTPException 400
         "Player IDs must be alphanumeric ATP player codes (e.g., DH58)"), w).
Proof.
  intros p1 p2 flatten e w. unfold accepted_code.
  rewrite <- !_PLAYER_CODE_RE_match_iff, <- andb_true_iff.
  destruct (_PLAYER_CODE_RE_match p1 && _PLAYER_CODE_RE_match p2) eqn:E.
  - split; [intro H; now contradiction H|].
    intro H. exfalso.
    pose proof (get_head_to_head_world p1 p2 flatten e w) as Hw.
    rewrite H, fetch_head_to_head_sends in Hw by assumption.
    cbn [snd] in Hw. apply (f_equal requests) in Hw.
    cbn [logged requests] in Hw.
    apply (f_equal (@List.length string)) in Hw.
    rewrite length_app in Hw. simpl in Hw. lia.
  - split; [intros _ | intros _; discriminate].
    unfold get_head_to_head, bind.
    now rewrite fetch_head_to_head_rejects.
Qed.

(* ================================================================= *)
(** ** scripts/build_tournament_registry.py *)

Lemma mapM_raise {A B : Type} (f : A -> result B) (l : list A) (x : pyexn) :
  mapM f l = Raise x -> exists a, In a l /\ f a = Raise x.
Proof.
  induction l as [|a l IH]; [discriminate|]. cbn [mapM].
  destruct (f a) as [b|x'] eqn:E; cbn [rbind].
  - destruct (mapM f l) as [bs|x']; cbn [rbind]; [discriminate|].
    intro H. inversion H; subst x'.
    destruct (IH eq_refl) as (a' & Hin & Ha'). exists a'.
    split; [now right | assumption].
  - intro H. inversion H; subst x'. exists a. split; [now left | assumption].
Qed.

Lemma mapM_map {A B C : Type} (f : B -> result C) (g : A -> B) (h : A -> C)
    (l : list A) :
  (forall a, f (g a) = Return (h a)) ->
  mapM f (map g l) = Return (map h l).
Proof.
  intro H. induction l as [|a l IH]; [reflexivity|].
  cbn [map mapM]. now rewrite H, IH.
Qed.

Lemma entry_of_dict (t : pydict) :
  entry_of (JDict t) = Return (entry_from_dict t).
Proof. reflexivity. Qed.

Lemma entry_of_raise (tourney : json) (x : pyexn) :
  entry_of tourney = Raise x -> x = AttributeError.
Proof.
  destruct tourney; try discriminate; intro H; now inversion H.
Qed.

Lemma py_iter_raise (v : json) (x : pyexn) :
  py_iter v = Raise x -> x = TypeError.
Proof. destruct v; try discriminate; intro H; now inversion H. Qed.

Lemma attr_get_default_raise (v : json) (k : string) (d : json) (x : pyexn) :
  attr_get_default v k d = Raise x -> x = AttributeError.
Proof. destruct v; try discriminate; intro H; now inversion H. Qed.

Lemma block_entries_raise (date_block : json) (x : pyexn) :
  block_entries date_block = Raise x -> x = AttributeError \/ x = TypeError.
Proof.
  unfold block_entries.
  destruct (attr_get_default date_block "Tournaments" (JList []))
    as [tourneys|x'] eqn:Ea; cbn [rbind].
  - destruct (py_iter tourneys) as [ts|x'] eqn:Ei; cbn [rbind].
    + intro H. apply mapM_raise in H as (a & _ & H).
      left. now apply entry_of_raise in H.
    + intro H. inversion H; subst x'. right. now apply py_iter_raise in Ei.
  - intro H. inversion H; subst x'. left.
    now apply attr_get_default_raise in Ea.
Qed.

Lemma has_id_dict_of_entry (k : string) (e : tournament_entry) :
  has_id k (dict_of_entry e) = String.eqb (entry_Id e) k.
Proof. reflexivity. Qed.

(** X19.  From a calendar of date blocks that are objects, each with a
    list of tournaments that are objects, the script builds one entry per
    tournament, in the order of the calendar; the identifier of an entry
    is the string of the tournament's [Id], so [None] when there is none.
    On any other input it raises an attribute error or a type error, or
    returns.  Every entry of a list of entries is one the loader of the
    API registers: looking its identifier up in the registry loaded from
    the list gives a record with that identifier. *)
Theorem build_tournament_registry_entries :
  (forall blocks,
     build_tournament_registry (calendar blocks)
     = Return (map entry_from_dict (List.concat blocks))) /\
  (forall t, lookup t "Id" = None -> entry_Id (entry_from_dict t) = "None") /\
  (forall data x,
     build_tournament_registry data = Raise x ->
     x = AttributeError \/ x = TypeError) /\
  (forall parsed entry,
     In entry parsed ->
     exists t,
       reg_lookup (build_registry (map dict_of_entry parsed) [])
                  (entry_Id entry) = Some t /\
       get t "Id" = JStr (entry_Id entry)).
Proof.
  split; [|split; [|split]].
  - intro blocks. unfold build_tournament_registry, calendar.
    cbn [attr_get_default get_default lookup String.eqb Ascii.eqb Bool.eqb
         rbind py_iter].
    rewrite (mapM_map block_entries _ (map entry_from_dict)).
    + cbn [rbind]. now rewrite concat_map.
    + intro ts. unfold block_entries.
      cbn [attr_get_default get_default lookup String.eqb Ascii.eqb Bool.eqb
           rbind py_iter].
      apply mapM_map. exact entry_of_dict.
  - intros t H. unfold entry_from_dict, get, get_default. cbn [entry_Id].
    now rewrite H.
  - intros data x. unfold build_tournament_registry.
    destruct (attr_get_default data "TournamentDates" (JList []))
      as [dates|x'] eqn:Ea; cbn [rbind].
    + destruct (py_iter dates) as [blocks|x'] eqn:Ei; cbn [rbind].
      * destruct (mapM block_entries blocks) as [parsed|x'] eqn:Em;
          cbn [rbind]; [discriminate|].
        intro H. inversion H; subst x'.
        apply mapM_raise in Em as (b & _ & Hb).
        now apply block_entries_raise in Hb.
      * intro H. inversion H; subst x'. right. now apply py_iter_raise in Ei.
    + intro H. inversion H; subst x'. left.
      now apply attr_get_default_raise in Ea.
  - intros parsed entry Hin.
    rewrite build_registry_lookup. unfold last_with_id.
    destruct (find (has_id (entry_Id entry)) (rev (map dict_of_entry parsed)))
      as [t|] eqn:Ef.
    + exists t. split; [reflexivity|].
      apply find_some in Ef as [Ht Hid]. apply in_rev in Ht.
      apply in_map_iff in Ht as (e' & <- & _).
      rewrite has_id_dict_of_entry in Hid. apply String.eqb_eq in Hid.
      now rewrite <- Hid.
    + exfalso.
      assert (Hn : has_id (entry_Id entry) (dict_of_entry entry) = false).
      { apply (find_none _ _ Ef). rewrite <- in_rev. now apply in_map. }
      rewrite has_id_dict_of_entry, String.eqb_refl in Hn. discriminate.
Qed.

Lemma kdict_set_fresh (d : kdict) (k v : json) :
  key_mem k (map fst d) = false -> kdict_set d k v = d ++ [(k, v)].
Proof.
  unfold key_mem. induction d as [|[k' v'] d IH]; simpl; [reflexivity|].
  intro H. apply orb_false_iff in H as [Hk Hd]. rewrite Hk. now rewrite IH.
Qed.

Lemma add_entries_appends (new_entries : list tournament_entry) :
  forall by_id added,
    add_entries new_entries by_id added
    = (by_id ++ map (fun e => (JStr (entry_Id e), JDict (dict_of_entry e)))
                    (fresh_entries new_entries (map fst by_id)),
       added + Z.of_nat (List.length
                 (fresh_entries new_entries (map fst by_id)))).
Proof.
  induction new_entries as [|e r IH]; intros by_id added;
    cbn [add_entries fresh_entries].
  - cbn [map List.length]. rewrite app_nil_r. f_equal. lia.
  - destruct (key_mem (JStr (entry_Id e)) (map fst by_id)) eqn:E;
      cbn [negb]; [apply IH|].
    rewrite IH, kdict_set_fresh by assumption.
    rewrite map_app. cbn [map fst List.length]. rewrite <- app_assoc.
    cbn [app]. f_equal. lia.
Qed.

Lemma key_mem_strings (s : string) (ids : list string) :
  key_mem (JStr s) (map JStr ids) = true <-> In s ids.
Proof.
  unfold key_mem. rewrite existsb_exists. split.
  - intros (k & Hin & Hk). apply in_map_iff in Hin as (s' & <- & Hin).
    unfold key_eq in Hk. cbn in Hk. apply String.eqb_eq in Hk. now subst.
  - intro Hin. exists (JStr s). split; [now apply in_map|].
    unfold key_eq. cbn. apply String.eqb_refl.
Qed.

Lemma index_by_id_strings (existing : list pydict) :
  forall ids acc_ids acc,
    map (fun t => lookup t "Id") existing
    = map (fun s => Some (JStr s)) ids ->
    NoDup (acc_ids ++ ids) ->
    map fst acc = map JStr acc_ids ->
    index_by_id existing acc
    = inr (acc ++ map (fun t => (get t "Id", JDict t)) existing).
Proof.
  induction existing as [|t r IH]; intros ids acc_ids acc Hids Hnd Hacc.
  - cbn. now rewrite app_nil_r.
  - destruct ids as [|s ids]; [discriminate|]. cbn [map] in Hids.
    inversion Hids as [[Ht Hr]]. cbn [index_by_id]. rewrite Ht.
    cbn [hashable].
    assert (Hfresh : key_mem (JStr s) (map fst acc) = false).
    { rewrite Hacc. destruct (key_mem (JStr s) (map JStr acc_ids)) eqn:E;
        [|reflexivity].
      apply key_mem_strings in E. apply NoDup_remove_2 in Hnd.
      exfalso. apply Hnd. apply in_or_app. now left. }
    rewrite kdict_set_fresh by assumption.
    rewrite (IH ids (acc_ids ++ [s])); try assumption.
    + rewrite <- app_assoc. cbn [app map]. unfold get, get_default.
      now rewrite Ht.
    + now rewrite <- app_assoc.
    + rewrite !map_app, Hacc. reflexivity.
Qed.

Lemma fresh_entries_ids (new_entries : list tournament_entry) :
  forall ids,
    NoDup ids ->
    NoDup (ids ++ map entry_Id (appended new_entries ids)) /\
    (forall e, In e new_entries ->
       In (entry_Id e) (ids ++ map entry_Id (appended new_entries ids))).
Proof.
  unfold appended.
  induction new_entries as [|e r IH]; intros ids Hnd; cbn [fresh_entries].
  - cbn [map]. rewrite app_nil_r. split; [assumption | intros e []].
  - destruct (key_mem (JStr (entry_Id e)) (map JStr ids)) eqn:E.
    + apply key_mem_strings in E. destruct (IH ids Hnd) as [H1 H2].
      split; [assumption|].
      intros e' [<-|Hin]; [apply in_or_app; now left | now apply H2].
    + assert (Hn : ~ In (entry_Id e) ids).
      { intro Hin. apply key_mem_strings in Hin. congruence. }
      change (map JStr ids ++ [JStr (entry_Id e)])
        with (map JStr ids ++ map JStr [entry_Id e]).
      rewrite <- map_app.
      assert (Hnd' : NoDup (ids ++ [entry_Id e])).
      { apply NoDup_app; [assumption | repeat constructor; intros [] |].
        intros a Ha [<-|[]]. contradiction. }
      destruct (IH _ Hnd') as [H1 H2].
      cbn [map]. rewrite <- app_assoc in H1, H2. cbn [app] in H1, H2.
      split; [assumption|].
      intros e' [<-|Hin]; [|now apply H2].
      apply in_or_app. right. now left.
Qed.

Lemma fresh_entries_none (new_entries : list tournament_entry) :
  forall ids,
    (forall e, In e new_entries -> In (entry_Id e) ids) ->
    appended new_entries ids = [].
Proof.
  unfold appended.
  induction new_entries as [|e r IH]; intros ids H; cbn [fresh_entries];
    [reflexivity|].
  assert (E : key_mem (JStr (entry_Id e)) (map JStr ids) = true)
    by (apply key_mem_strings, H; now left).
  rewrite E. apply IH. intros e' Hin. apply H. now right.
Qed.

Lemma merge_registry_strings (existing : list pydict) (ids : list string)
    (new_entries : list tournament_entry) :
  string_ids existing ids ->
  merge_registry existing new_entries
  = inr (map JDict existing
           ++ map (fun e => JDict (dict_of_entry e)) (appended new_entries ids),
         Z.of_nat (List.length (appended new_entries ids))).
Proof.
  intros [Hids Hnd]. unfold merge_registry.
  rewrite (index_by_id_strings existing ids [] []);
    [|assumption|assumption|reflexivity].
  cbn [app]. rewrite add_entries_appends.
  assert (Hk : map fst (map (fun t => (get t "Id", JDict t)) existing)
               = map JStr ids).
  { rewrite map_map. cbn [fst].
    apply (f_equal (map (fun o => match o with Some v => v | None => JNull end)))
      in Hids.
    rewrite !map_map in Hids. exact Hids. }
  rewrite Hk. fold (appended new_entries ids).
  rewrite map_app, !map_map. cbn [snd]. reflexivity.
Qed.

Lemma fresh_entries_in (new_entries : list tournament_entry) :
  forall keys e, In e (fresh_entries new_entries keys) -> In e new_entries.
Proof.
  induction new_entries as [|e' r IH]; intros keys e He; [contradiction|].
  cbn [fresh_entries] in He.
  destruct (key_mem (JStr (entry_Id e')) keys).
  - right. now apply (IH keys).
  - destruct He as [<-|He]; [now left | right; now apply (IH _ _ He)].
Qed.

Lemma nodup_app_disjoint {A : Type} (a b : list A) :
  NoDup (a ++ b) -> forall x, In x a -> ~ In x b.
Proof.
  induction a as [|y a IH]; intros H x Hin; [contradiction|].
  cbn [app] in H. inversion H as [|? ? Hy Hr]; subst.
  destruct Hin as [<-|Hin]; [|now apply IH].
  intro Hb. apply Hy. apply in_or_app. now right.
Qed.

(** X20.  The merge leaves the records of the registry as they are and
    in their order, and appends the new entries whose identifier the
    registry does not have, each identifier once, in the order of the
    calendar; the count it reports is the number of entries appended.  A
    record of the registry without [Id] stops it. *)
Theorem merge_registry_appends :
  (forall existing ids new_entries,
     string_ids existing ids ->
     merge_registry existing new_entries
     = inr (map JDict existing
              ++ map (fun e => JDict (dict_of_entry e))
                     (appended new_entries ids),
            Z.of_nat (List.length (appended new_entries ids))) /\
     NoDup (ids ++ map entry_Id (appended new_entries ids)) /\
     (forall e, In e new_entries ->
        In (entry_Id e) (ids ++ map entry_Id (appended new_entries ids))) /\
     (forall e, In e (appended new_entries ids) ->
        In e new_entries /\ ~ In (entry_Id e) ids)) /\
  (forall existing new_entries t,
     In t existing -> lookup t "Id" = None ->
     exists x, merge_registry existing new_entries = inl x).
Proof.
  split.
  - intros existing ids new_entries Hs.
    split; [now apply merge_registry_strings|].
    destruct (fresh_entries_ids new_entries ids (proj2 Hs)) as [H1 H2].
    split; [assumption|]. split; [assumption|].
    intros e He. split; [now apply (fresh_entries_in _ _ _ He)|].
    intro Hin. apply (nodup_app_disjoint _ _ H1 (entry_Id e) Hin).
    now apply in_map.
  - intros existing new_entries t Hin Ht. unfold merge_registry.
    assert (H : forall acc, exists x, index_by_id existing acc = inl x).
    { induction existing as [|t' r IH]; [contradiction|]. intro acc.
      cbn [index_by_id]. destruct Hin as [->|Hin].
      - rewrite Ht. now exists MissingId.
      - destruct (lookup t' "Id") as [k|]; [|now exists MissingId].
        destruct (hashable k); [now apply IH | now exists UnhashableId]. }
    destruct (H []) as [x ->]. now exists x.
Qed.

Lemma as_dicts_app (a b : list json) :
  as_dicts (a ++ b) = as_dicts a ++ as_dicts b.
Proof. unfold as_dicts. apply flat_map_app. Qed.

Lemma as_dicts_map {A : Type} (f : A -> pydict) (l : list A) :
  as_dicts (map (fun a => JDict (f a)) l) = map f l.
Proof.
  unfold as_dicts. induction l as [|a l IH]; [reflexivity|].
  cbn [map flat_map app]. now rewrite IH.
Qed.

(** X21.  Run on a registry whose identifiers are strings, no two the
    same, the merge writes a registry of that kind again.  Merging the
    same entries into what was written changes nothing and reports no
    addition.  And every new entry is registered by the loader of the API
    once it reads the file back. *)
Theorem merge_registry_idempotent :
  forall existing ids new_entries merged added,
    string_ids existing ids ->
    merge_registry existing new_entries = inr (merged, added) ->
    string_ids (as_dicts merged)
      (ids ++ map entry_Id (appended new_entries ids)) /\
    map JDict (as_dicts merged) = merged /\
    merge_registry (as_dicts merged) new_entries = inr (merged, 0) /\
    (forall e, In e new_entries ->
       In (entry_Id e) (map fst (build_registry (as_dicts merged) []))).
Proof.
  intros existing ids new_entries merged added Hs Hm.
  rewrite (merge_registry_strings _ _ _ Hs) in Hm.
  inversion Hm as [[Hmerged Hadded]]. clear Hm Hadded.
  destruct (fresh_entries_ids new_entries ids (proj2 Hs)) as [Hnd Hall].
  assert (Hd : as_dicts (map JDict existing
                  ++ map (fun e => JDict (dict_of_entry e))
                         (appended new_entries ids))
               = existing ++ map dict_of_entry (appended new_entries ids)).
  { rewrite as_dicts_app, (as_dicts_map dict_of_entry).
    f_equal. change (map JDict existing)
      with (map (fun t : pydict => JDict ((fun u => u) t)) existing).
    rewrite (as_dicts_map (fun u => u)). apply map_id. }
  rewrite Hd.
  assert (Hs' : string_ids
            (existing ++ map dict_of_entry (appended new_entries ids))
            (ids ++ map entry_Id (appended new_entries ids))).
  { split; [|assumption]. rewrite !map_app, (proj1 Hs), !map_map.
    reflexivity. }
  split; [assumption|].
  assert (Hj : map JDict
                 (existing ++ map dict_of_entry (appended new_entries ids))
               = map JDict existing
                 ++ map (fun e => JDict (dict_of_entry e))
                        (appended new_entries ids)).
  { now rewrite map_app, map_map. }
  split; [assumption|]. split.
  - rewrite (merge_registry_strings _ _ _ Hs').
    rewrite (fresh_entries_none new_entries _ Hall).
    cbn [map List.length app Z.of_nat]. rewrite app_nil_r, Hj. reflexivity.
  - intros e He. specialize (Hall e He).
    destruct (in_dec string_dec (entry_Id e)
                (map fst (build_registry
                   (existing ++ map dict_of_entry (appended new_entries ids))
                   []))) as [Hin|Hn]; [assumption|].
    exfalso. apply reg_lookup_none in Hn.
    rewrite build_registry_lookup in Hn. unfold last_with_id in Hn.
    destruct (find _ _) eqn:Ef in Hn; [discriminate|]. clear Hn.
    destruct Hs' as [Hids _].
    assert (Hex : exists t,
              In t (existing ++ map dict_of_entry (appended new_entries ids))
              /\ lookup t "Id" = Some (JStr (entry_Id e))).
    { revert Hids Hall.
      generalize (existing ++ map dict_of_entry (appended new_entries ids)).
      generalize (ids ++ map entry_Id (appended new_entries ids)).
      intros l. induction l as [|s l IH]; intros ts Hids Hall; [contradiction|].
      destruct ts as [|t ts]; [discriminate|]. cbn [map] in Hids.
      inversion Hids as [[Ht Hr]]. destruct Hall as [->|Hall].
      - exists t. split; [now left | assumption].
      - destruct (IH ts Hr Hall) as (t' & Hin & Ht').
        exists t'. split; [now right | assumption]. }
    destruct Hex as (t & Hin & Ht).
    assert (Hn : has_id (entry_Id e) t = false).
    { apply (find_none _ _ Ef). now rewrite <- in_rev. }
    unfold has_id, contains, get, get_default in Hn. rewrite Ht in Hn.
    cbn [py_str andb] in Hn. rewrite String.eqb_refl in Hn. discriminate.
Qed.

(* ================================================================= *)
(** ** api/matches.py: the draw size and the requests of the aggregate
    endpoint *)

(** X22.  When the aggregate endpoint answers, it has sent one request
    per candidate of the draw size of the tournament, in candidate order,
    and nothing else. *)
Theorem get_tournament_matches_requests :
  forall year tid flatten e w w' resp,
    get_tournament_matches year tid flatten e w = (Return resp, w') ->
    exists tournaments w0 draw_size,
      load_tournament_registry e w = (Return tournaments, w0) /\
      draw_size_of (reg_lookup tournaments (tm_tournament_id resp))
      = Return draw_size /\
      requests w'
      = requests w
        ++ map (match_url year (tm_tournament_id resp))
               (all_match_ids draw_size).
Proof.
  intros year tid flatten e w w' resp H.
  apply get_tournament_matches_return in H
    as (tournaments & w0 & ds & Hl & _ & Hd & _ & _ & Hf).
  exists tournaments, w0, ds. split; [assumption|]. split; [assumption|].
  apply fetch_all_requests in Hf as [-> _].
  now rewrite (load_tournament_registry_requests _ _ _ _ Hl).
Qed.

Lemma draw_size_of_record (t : pydict) :
  t <> [] ->
  draw_size_of (Some t) = py_int (get_default t "SglDrawSize" (JInt 32)).
Proof. destruct t; [congruence | reflexivity]. Qed.

(** X23.  The draw size of a tournament is 32 when the tournament is not
    registered or its record has no [SglDrawSize].  The registry script
    writes the field for every entry, null when the calendar has no size;
    for a record with a null size the aggregate endpoint fails with a type
    error, status 500, before any request is sent. *)
Theorem null_draw_size_is_500 :
  draw_size_of None = Return 32 /\
  (forall t, lookup t "SglDrawSize" = None -> draw_size_of (Some t) = Return 32) /\
  (forall t, lookup t "SglDrawSize" = None ->
     lookup (dict_of_entry (entry_from_dict t)) "SglDrawSize" = Some JNull) /\
  (forall year tid flatten e w w0 tournaments tidr t,
     load_tournament_registry e w = (Return tournaments, w0) ->
     resolve_tournament_id tid tournaments = Some tidr ->
     tidr <> "" ->
     reg_lookup tournaments tidr = Some t ->
     lookup t "SglDrawSize" = Some JNull ->
     get_tournament_matches year tid flatten e w = (Raise TypeError, w0) /\
     requests w0 = requests w).
Proof.
  split; [reflexivity|]. split; [|split].
  - intros t H. destruct t as [|kv t]; [reflexivity|].
    rewrite draw_size_of_record by discriminate.
    unfold get_default. now rewrite H.
  - intros t H. cbn. unfold get, get_default. now rewrite H.
  - intros year tid flatten e w w0 tournaments tidr t Hl Hr Hne Ht Hs.
    split; [|now rewrite (load_tournament_registry_requests _ _ _ _ Hl)].
    unfold get_tournament_matches, bind at 1.
    apply is_empty_false in Hne. rewrite Hl, Hr, Hne, Ht.
    rewrite draw_size_of_record by (intros ->; discriminate).
    unfold get_default. rewrite Hs. reflexivity.
Qed.

(** X24.  With two codes that pass the pattern, the head-to-head
    endpoint turns what the upstream does into an HTTP error of its own,
    with or without flattening: 404 for a 404, 502 naming the status for
    any other status than 200, 502 for a 200 whose body is not JSON, 502
    for a request error, and 500 for any other exception of the client
    that is not an HTTP error already. *)
Theorem get_head_to_head_upstream_errors :
  forall p1 p2 flatten e w,
    _PLAYER_CODE_RE_match p1 && _PLAYER_CODE_RE_match p2 = true ->
    let url := h2h_url p1 p2 in
    let r := fst (get_head_to_head p1 p2 flatten e w) in
    (forall b, upstream e url = Responds 404 b ->
       r = Raise (HTTPException 404 "Head-to-head not found")) /\
    (forall s b, upstream e url = Responds s b -> s <> 404 -> s <> 200 ->
       r = Raise (HTTPException 502
             ("Upstream ATP error (status " ++ str_of_int s ++ ")")%string)) /\
    (upstream e url = Responds 200 None ->
       r = Raise (HTTPException 502 "Upstream ATP returned invalid JSON")) /\
    (forall x, upstream e url = Fails x -> is_request_error x = true ->
       r = Raise (HTTPException 502 "Upstream ATP request failed")) /\
    (forall x, upstream e url = Fails x -> is_request_error x = false ->
       (forall s d, x <> HTTPException s d) ->
       r = Raise (HTTPException 500 "Failed to fetch head-to-head data")).
Proof.
  intros p1 p2 flatten e w Hc url r. apply andb_true_iff in Hc as [H1 H2].
  destruct (fetch_head_to_head_outcomes p1 p2 e w) as [_ Hs].
  destruct (Hs H1 H2) as (_ & Hreq & H404 & Hother & Hjson & _).
  assert (Hwrap : forall s d,
            fst (fetch_head_to_head p1 p2 e w) = Raise (HTTPException s d) ->
            r = Raise (HTTPException s d)).
  { intros s d. subst r. unfold get_head_to_head, bind.
    destruct (fetch_head_to_head p1 p2 e w) as [r0 w1]. cbn [fst].
    now intros ->. }
  repeat split.
  - intros b Hb. now apply Hwrap, (H404 b).
  - intros s b Hb Hn4 Hn2. now apply Hwrap, (Hother s b).
  - intro Hb. now apply Hwrap, Hjson.
  - intros x Hx Hr. now apply Hwrap, (Hreq x).
  - intros x Hx Hr Hnot. subst r url.
    unfold get_head_to_head, bind, fetch_head_to_head.
    rewrite H1, H2. cbn [negb orb]. unfold client_get. rewrite Hx, Hr.
    destruct x; try reflexivity. now contradiction (Hnot status_code detail).
Qed.

End Runtime.

(* ================================================================= *)
(** ** Normalization does not depend on the run *)

Lemma insertion_runtime_perm :
  forall site l, Permutation (set_iteration_order insertion_runtime site l) l.
Proof. intros site l. apply Permutation_refl. Qed.

Lemma reversing_runtime_perm :
  forall site l, Permutation (set_iteration_order reversing_runtime site l) l.
Proof.
  intros [|site] l; [|apply Permutation_refl].
  symmetry. apply Permutation_rev.
Qed.

Lemma score_of_canonical (rt : runtime) (mt : pydict) :
  (forall site l, Permutation (set_iteration_order rt site l) l) ->
  score_of rt mt = score_of insertion_runtime mt.
Proof.
  intro Hp. unfold score_of.
  destruct (_get (JDict mt) ["PlayerTeam1"; "Sets"] (JList []))
    as [| | | | |l1|]; try reflexivity.
  destruct (_get (JDict mt) ["PlayerTeam2"; "Sets"] (JList []))
    as [| | | | |l2|]; try reflexivity.
  destruct (truthy (JList l1) || truthy (JList l2)); [|reflexivity].
  destruct (by_set l1 []) as [d1|x] eqn:E1; [|reflexivity].
  destruct (by_set l2 []) as [d2|x] eqn:E2; [|reflexivity].
  apply by_set_return in E1 as [_ ->]. apply by_set_return in E2 as [_ ->].
  cbn [rbind].
  rewrite (set_numbers_of_canonical rt Hp) by apply build_distinct.
  rewrite (set_numbers_of_canonical insertion_runtime insertion_runtime_perm)
    by apply build_distinct.
  reflexivity.
Qed.

Lemma flatten_match_data_canonical (rt : runtime) (payload : json) :
  (forall site l, Permutation (set_iteration_order rt site l) l) ->
  flatten_match_data rt payload = flatten_match_data insertion_runtime payload.
Proof.
  intro Hp. destruct payload as [| | | | | |pl]; try reflexivity.
  unfold flatten_match_data. cbv zeta.
  now rewrite (score_of_canonical rt (match_of pl) Hp).
Qed.

Lemma fetch_head_to_head_same (p1 p2 : string) (e1 e2 : env) (w1 w2 : world) :
  upstream e1 (h2h_url p1 p2) = upstream e2 (h2h_url p1 p2) ->
  fst (fetch_head_to_head p1 p2 e1 w1) = fst (fetch_head_to_head p1 p2 e2 w2).
Proof.
  intro H. unfold fetch_head_to_head.
  destruct (negb (_PLAYER_CODE_RE_match p1) || negb (_PLAYER_CODE_RE_match p2));
    [reflexivity|].
  unfold client_get. rewrite H.
  destruct (upstream e2 (h2h_url p1 p2)) as [x|s b].
  - now destruct (is_request_error x).
  - cbn [resp_status resp_body]. destruct (s =? 404); [reflexivity|].
    destruct (s =? 200); [destruct b|]; reflexivity.
Qed.

Lemma get_head_to_head_same (p1 p2 : string) (flatten : bool)
    (e1 e2 : env) (w1 w2 : world) :
  upstream e1 (h2h_url p1 p2) = upstream e2 (h2h_url p1 p2) ->
  fst (get_head_to_head p1 p2 flatten e1 w1)
  = fst (get_head_to_head p1 p2 flatten e2 w2).
Proof.
  intro H. pose proof (fetch_head_to_head_same p1 p2 e1 e2 w1 w2 H) as Hf.
  unfold get_head_to_head, bind.
  destruct (fetch_head_to_head p1 p2 e1 w1) as [[r1|x1] w1'],
           (fetch_head_to_head p1 p2 e2 w2) as [[r2|x2] w2'];
    simpl in Hf; try discriminate.
  - inversion Hf; subst r2. destruct flatten; cbn [negb]; [|reflexivity].
    unfold lift, ret.
    destruct (attr_get r1 "playerLeft") as [pl|x]; [|now destruct x].
    destruct (attr_get r1 "playerRight") as [pr|x]; [|now destruct x].
    destruct (flatten_h2h_matches r1) as [ms|x]; [reflexivity | now destruct x].
  - inversion Hf; subst x2. now destruct x1.
Qed.

(** C8.  Normalizing a match payload gives the same record whatever the
    order in which the interpreter walks its sets, and the flattened
    head-to-head answer is the same in any two runs in which the upstream
    answers the request alike, whatever the state of the process. *)
Theorem normalization_deterministic :
  (forall rt1 rt2 payload,
     (forall site l, Permutation (set_iteration_order rt1 site l) l) ->
     (forall site l, Permutation (set_iteration_order rt2 site l) l) ->
     flatten_match_data rt1 payload = flatten_match_data rt2 payload) /\
  (forall p1 p2 flatten e1 w1 e2 w2,
     upstream e1 (h2h_url p1 p2) = upstream e2 (h2h_url p1 p2) ->
     fst (get_head_to_head p1 p2 flatten e1 w1)
     = fst (get_head_to_head p1 p2 flatten e2 w2)).
Proof.
  split.
  - intros rt1 rt2 payload H1 H2.
    now rewrite (flatten_match_data_canonical rt1 payload H1),
                (flatten_match_data_canonical rt2 payload H2).
  - intros. now apply get_head_to_head_same.
Qed.

(* ================================================================= *)
(** ** Worked examples *)

(** The scenario of the specification: of the 51 candidates of Doha the
    upstream knows [ms001] and [ms002], and the mapping has these two
    keys. *)
Example end_to_end_two_matches :
  let r := get_tournament_matches insertion_runtime 2024 "DOHA" false
             sample_env (fresh None) in
  status_of (fst r) = 200 /\
  List.length (requests (snd r)) = 51%nat /\
  match fst r with
  | Return resp =>
      tm_tournament resp = JStr "Doha" /\ tm_tournament_id resp = "580" /\
      tm_matches resp = [("ms001", sample_match "ms001");
                         ("ms002", sample_match "ms002")]
  | Raise _ => False
  end.
Proof. vm_compute. repeat split. Qed.

(** The score of the sample match: set 1 takes side two's games from the
    later of its two dicts numbered 1 and [True], set 3 has nothing for
    side one, and the set numbered ["x"] is left out. *)
Example sample_match_score :
  match flatten_match_data reversing_runtime (sample_match "ms001") with
  | Return out => field out "score"
  | Raise _ => JNull
  end
  = JList [JDict [("set", JInt 1); ("p1", JInt 7); ("p2", JInt 6);
                  ("tiebreak", JDict [("p1", JInt 7); ("p2", JInt 5)])];
           JDict [("set", JInt 2); ("p1", JInt 6); ("p2", JInt 3);
                  ("tiebreak", JNull)];
           JDict [("set", JInt 3); ("p1", JNull); ("p2", JInt 6);
                  ("tiebreak", JNull)]].
Proof. vm_compute. reflexivity. Qed.

Example float_number_shadows_int :
  match flatten_match_data insertion_runtime float_numbered_match with
  | Return out => field out "score"
  | Raise _ => JStr "raised"
  end
  = JNull.
Proof. vm_compute. reflexivity. Qed.

Example list_number_raises :
  flatten_match_data insertion_runtime list_numbered_match = Raise TypeError.
Proof. vm_compute. reflexivity. Qed.

Example sample_h2h_flattened :
  match flatten_h2h_matches sample_h2h with
  | Return [m] => (field m "tournament", field m "round", field m "sets")
  | _ => (JNull, JNull, JNull)
  end
  = (JStr "Doha", JStr "F",
     JList [entry 1 6 4 JNull; entry 2 7 6 (JInt 7)]).
Proof. vm_compute. reflexivity. Qed.

(** A head-to-head payload whose [Tournaments] is a number cannot be
    walked: the endpoint answers 500. *)
Example h2h_not_iterable :
  fst (get_head_to_head "DH58" "AB12" true
         (mkEnv (fun _ => Responds 200 (Some (JDict [("Tournaments", JInt 5)])))
                FileMissing)
         (fresh None))
  = Raise (HTTPException 500 "Failed to fetch head-to-head data").
Proof. vm_compute. reflexivity. Qed.

(* ================================================================= *)
(** ** The theorems at work on sample data *)

Lemma generate_match_ids_spec_witness :
  2 <= 32 /\ List.length (generate_match_ids (JInt 32)) = 31%nat.
Proof.
  split; [lia|].
  destruct generate_match_ids_spec as [H _].
  destruct (H 32 ltac:(lia)) as [Hlen _]. exact Hlen.
Defined.

Lemma parse_result_string_spec_witness :
  (is_marker "ret" /\ parse_tokens ["ret"; "64"] 0 [] = Return []) /\
  (~ is_marker "2" /\ (digit_count "2" < 2)%nat /\
   parse_tokens ["2"; "RET"] 1 [] = parse_tokens ["RET"] 1 []) /\
  (set_token "7" "6" (Some "7") "76(7)" /\ fits (Some "7") /\
   parse_tokens ["76(7)"] 1 [] = Return [mkParsedSet 2 7 6 (Some 7)]) /\
  (set_token "6" "6" (Some (ones 4301)) long_tiebreak_token /\
   ~ fits (Some (ones 4301)) /\
   parse_tokens [long_tiebreak_token; "64"] 0 [] = Raise ValueError).
Proof.
  destruct parse_result_string_spec
    as (_ & _ & _ & _ & Hmarker & Hreject & Haccept & Hlong & _).
  assert (Hm : is_marker "ret").
  { exists "RET". split; [now left | reflexivity]. }
  assert (Hn : ~ is_marker "2").
  { intro H. apply is_marker_iff in H. discriminate H. }
  assert (Hd : (digit_count "2" < 2)%nat) by (vm_compute; lia).
  assert (Ht : set_token "7" "6" (Some "7") "76(7)").
  { apply (set_token_tiebreak "7" "6" "7").
    split; [discriminate | repeat constructor]. }
  assert (Hf : fits (Some "7")) by (vm_compute; discriminate).
  assert (Hl : set_token "6" "6" (Some (ones 4301)) long_tiebreak_token)
    by apply set_token_tiebreak, ones_decimal.
  assert (Hnf : ~ fits (Some (ones 4301))).
  { unfold fits. rewrite ones_length. vm_compute. intro H. now apply H. }
  split; [|split; [|split]].
  - split; [exact Hm | exact (Hmarker "ret" ["64"] 0 [] Hm)].
  - split; [exact Hn|]. split; [exact Hd|].
    exact (Hreject "2" ["RET"] 1 [] Hn Hd).
  - split; [exact Ht|]. split; [exact Hf|].
    exact (Haccept "7"%char "6"%char (Some "7") "76(7)" [] 1 []
             eq_refl eq_refl Ht Hf).
  - split; [exact Hl|]. split; [exact Hnf|].
    exact (Hlong "6"%char "6"%char (ones 4301) long_tiebreak_token ["64"] 0 []
             eq_refl eq_refl Hl Hnf).
Defined.

(** C2, the claim as it stands: a token [dd(t)] with a count of 4301
    digits is not given a set, the parser raises a value error on the
    string that holds it. *)
Lemma parse_result_string_long_tiebreak :
  set_token "6" "6" (Some (ones 4301)) long_tiebreak_token /\
  parse_result_string (JStr long_tiebreak_token) = Raise ValueError.
Proof.
  split; [apply set_token_tiebreak, ones_decimal|].
  vm_compute. reflexivity.
Qed.



Lemma flatten_match_data_score_ascending_witness :
  exists pl mt l1 l2 out numbers,
    sample_match "ms001" = JDict pl /\ match_object pl mt /\
    sets_at mt "PlayerTeam1" = JList l1 /\
    sets_at mt "PlayerTeam2" = JList l2 /\
    flatten_match_data insertion_runtime (JDict pl) = Return out /\
    field out "score" = list_or_none (map (score_item l1 l2) numbers) /\
    StronglySorted Z.lt (map int_of numbers) /\
    field out "score"
    = JList [JDict [("set", JInt 1); ("p1", JInt 7); ("p2", JInt 6);
                    ("tiebreak", JDict [("p1", JInt 7); ("p2", JInt 5)])];
             JDict [("set", JInt 2); ("p1", JInt 6); ("p2", JInt 3);
                    ("tiebreak", JNull)];
             JDict [("set", JInt 3); ("p1", JNull); ("p2", JInt 6);
                    ("tiebreak", JNull)]].
Proof.
  pose (pl := match sample_match "ms001" with JDict d => d | _ => [] end).
  pose (mt := match get pl "Match" with JDict m => m | _ => [] end).
  pose (l1 := match sets_at mt "PlayerTeam1" with JList l => l | _ => [] end).
  pose (l2 := match sets_at mt "PlayerTeam2" with JList l => l | _ => [] end).
  assert (Hm : match_object pl mt) by (left; reflexivity).
  assert (H1 : sets_at mt "PlayerTeam1" = JList l1) by reflexivity.
  assert (H2 : sets_at mt "PlayerTeam2" = JList l2) by reflexivity.
  destruct (flatten_match_data insertion_runtime (JDict pl))
    as [out|x] eqn:E; [|vm_compute in E; discriminate E].
  destruct (proj1 (flatten_match_data_score_ascending insertion_runtime
                     insertion_runtime_perm) pl mt l1 l2 out Hm H1 H2 E)
    as (numbers & Hout & Hsorted & _).
  exists pl, mt, l1, l2, out, numbers.
  split; [reflexivity|]. split; [exact Hm|]. split; [exact H1|].
  split; [exact H2|]. split; [exact E|]. split; [exact Hout|].
  split; [exact Hsorted|].
  vm_compute in E. injection E as <-. reflexivity.
Defined.

Lemma _has_match_id_spec_witness :
  flatten_match_data insertion_runtime junk_payload = Raise TypeError /\
  not_found_instead (fun j => _has_match_id j = false)
    junk_env junk_gone_env /\
  get_tournament_matches insertion_runtime 2024 "doha" true junk_env
    (fresh None)
  = get_tournament_matches insertion_runtime 2024 "doha" true junk_gone_env
      (fresh None) /\
  exists resp w',
    get_tournament_matches insertion_runtime 2024 "doha" true junk_env
      (fresh None) = (Return resp, w') /\
    map fst (tm_matches resp) = ["ms001"; "ms002"] /\
    (exists v, kept insertion_runtime junk_env 2024 (tm_tournament_id resp)
                 true "ms001" v) /\
    lookup (tm_matches resp) "ms003" = None.
Proof.
  assert (Hrel : not_found_instead (fun j => _has_match_id j = false)
                   junk_env junk_gone_env).
  { split; [reflexivity|]. intro url.
    unfold junk_gone_env, junk_env, not_found_at, junk_upstream.
    cbn [upstream existsb orb].
    destruct (String.eqb url (match_url 2024 "580" "ms003")) eqn:E;
      [|left; reflexivity].
    right. exists junk_payload. repeat split; reflexivity. }
  destruct (_has_match_id_spec insertion_runtime) as (_ & _ & _ & H & Heq).
  split; [reflexivity|]. split; [exact Hrel|].
  split; [exact (Heq 2024 "doha" true junk_env junk_gone_env (fresh None)
                   Hrel)|].
  destruct (get_tournament_matches insertion_runtime 2024 "doha" true
              junk_env (fresh None)) as [[resp|x] w'] eqn:E;
    [|vm_compute in E; discriminate E].
  destruct (H 2024 "doha" true junk_env (fresh None) w' resp E)
    as [Hkept Hout].
  exists resp, w'. split; [reflexivity|].
  assert (Hno : lookup (tm_matches resp) "ms003" = None).
  { apply (Hout "ms003" 200 junk_payload).
    - vm_compute in E. injection E as <- <-. reflexivity.
    - reflexivity. }
  assert (Hk : exists v, lookup (tm_matches resp) "ms001" = Some v).
  { vm_compute in E. injection E as <- <-. eexists. reflexivity. }
  destruct Hk as [v Hv].
  split; [vm_compute in E; injection E as <- <-; reflexivity|].
  split; [exists v; now apply Hkept | exact Hno].
Defined.



Lemma numeric_fallback_candidates_witness :
  only_decimal_digits "9999" /\
  ~ In "9999" (map fst sample_registry) /\
  get_tournament_matches insertion_runtime 2024 "9999" false sample_env
    (fresh None)
  = answer_with (JStr "Unknown") "9999" 2024
      (fetch_all insertion_runtime 2024 "9999" false default_candidate_ids []
         sample_env (mkWorld (Some sample_registry) [])).
Proof.
  assert (Hd : only_decimal_digits "9999").
  { split; [discriminate | repeat constructor]. }
  assert (Hnot : ~ In "9999" (map fst sample_registry)).
  { intros [H|[]]. discriminate H. }
  assert (Hnone : Forall
            (fun e => ~ eq_ignore_case
                          (display_name insertion_runtime (snd e)) "9999")
            sample_registry).
  { repeat constructor. intro H. discriminate H. }
  split; [exact Hd|]. split; [exact Hnot|].
  refine (proj1 (proj2 (numeric_fallback_candidates insertion_runtime 2024
                          "9999" false sample_env (fresh None)
                          (mkWorld (Some sample_registry) []) sample_registry
                          _ Hd Hnot Hnone))).
  reflexivity.
Defined.

Lemma request_error_aborts_tournament_matches_witness :
  status_of (fst (get_tournament_matches insertion_runtime 2024 "580" false
                    timeout_env (fresh None))) = 500 /\
  requests (snd (get_tournament_matches insertion_runtime 2024 "580" false
                   timeout_env (fresh None)))
  = map (match_url 2024 "580") ["ms001"; "ms002"].
Proof.
  refine (proj2 (request_error_aborts_tournament_matches insertion_runtime
                   2024 "580" false timeout_env (fresh None)
                   (mkWorld (Some sample_registry) []) sample_registry
                   "580" 32 ["ms001"] "ms002" (skipn 2 default_candidate_ids)
                   [("ms001", sample_match "ms001")]
                   (mkWorld (Some sample_registry)
                      [match_url 2024 "580" "ms001"])
                   TimeoutException _ _ _ _ _ _ _ _));
    reflexivity.
Defined.

Lemma trailing_newline_passes_validation_witness :
  fst (fetch_head_to_head code_with_newline plain_code
         (mkEnv (fun _ => Responds 200 (Some (JDict []))) FileMissing)
         (fresh None))
  = Return (JDict []).
Proof.
  destruct trailing_newline_passes_validation as (_ & _ & _ & H).
  destruct (H (mkEnv (fun _ => Responds 200 (Some (JDict []))) FileMissing)
              (fresh None)) as (_ & Hj & _).
  apply Hj. reflexivity.
Defined.

Lemma normalization_deterministic_witness :
  flatten_match_data insertion_runtime (sample_match "ms001")
  = flatten_match_data reversing_runtime (sample_match "ms001").
Proof.
  destruct normalization_deterministic as [H _].
  exact (H insertion_runtime reversing_runtime (sample_match "ms001")
           insertion_runtime_perm reversing_runtime_perm).
Defined.

(* ================================================================= *)
(** ** The further properties at work on sample data *)

Lemma generate_qualifier_ids_spec_witness :
  1 <= 20 /\ List.length (generate_qualifier_ids (JInt 20)) = 20%nat.
Proof.
  split; [lia|].
  destruct generate_qualifier_ids_spec as [H _].
  destruct (H 20 ltac:(lia)) as [Hlen _]. exact Hlen.
Defined.

Lemma get_tournament_matches_keys_witness :
  exists resp w',
    get_tournament_matches insertion_runtime 2024 "580" false sample_env
      (fresh None) = (Return resp, w') /\
    exists tournaments draw_size,
      _TOURNAMENTS_CACHE w' = Some tournaments /\
      draw_size_of insertion_runtime
        (reg_lookup tournaments (tm_tournament_id resp)) = Return draw_size /\
      map fst (tm_matches resp)
      = filter (has_real_match sample_env 2024 (tm_tournament_id resp))
               (all_match_ids draw_size).
Proof.
  destruct (get_tournament_matches insertion_runtime 2024 "580" false
              sample_env (fresh None)) as [[resp|x] w'] eqn:E.
  - exists resp, w'. split; [reflexivity|].
    exact (get_tournament_matches_keys insertion_runtime 2024 "580" false
             sample_env (fresh None) w' resp E).
  - vm_compute in E. discriminate E.
Defined.

Lemma registry_cache_is_sticky_witness :
  load_tournament_registry insertion_runtime sample_env (fresh None)
  = (Return sample_registry, mkWorld (Some sample_registry) []) /\
  load_tournament_registry insertion_runtime missing_file_env
    (mkWorld (Some sample_registry) [])
  = (Return sample_registry, mkWorld (Some sample_registry) []).
Proof.
  split; [reflexivity|].
  exact (proj1 (proj1 (registry_cache_is_sticky insertion_runtime)
                  sample_env (fresh None) sample_registry
                  (mkWorld (Some sample_registry) []) eq_refl
                  missing_file_env)).
Defined.

Lemma loaded_registry_lookup_witness :
  _TOURNAMENTS_CACHE (fresh None) = None /\
  exists tournaments w',
    load_tournament_registry insertion_runtime sample_env (fresh None)
    = (Return tournaments, w') /\
    NoDup (map fst tournaments).
Proof.
  split; [reflexivity|].
  destruct (loaded_registry_lookup insertion_runtime sample_env (fresh None)
              _ eq_refl eq_refl) as (tournaments & w' & Hl & Hnd & _).
  now exists tournaments, w'.
Defined.

Lemma resolve_tournament_id_stable_witness :
  resolve_tournament_id insertion_runtime "doha" sample_registry = Some "580" /\
  resolve_tournament_id insertion_runtime "580" sample_registry = Some "580".
Proof.
  split; [reflexivity|].
  exact (proj2 (proj1 (resolve_tournament_id_stable insertion_runtime)
                  "doha" sample_registry "580" eq_refl)).
Defined.


Lemma get_single_match_outcomes_witness :
  "580" <> "" /\
  requests (snd (get_single_match insertion_runtime 2024 "doha" "ms003" false
                   sample_env (fresh None)))
  = [match_url 2024 "580" "ms003"].
Proof.
  assert (Hne : "580" <> "") by discriminate.
  split; [exact Hne|].
  exact (proj1 (get_single_match_outcomes insertion_runtime 2024 "doha"
                  "ms003" sample_env (fresh None)
                  (mkWorld (Some sample_registry) []) sample_registry "580"
                  eq_refl eq_refl Hne)).
Defined.

Lemma endpoints_name_the_tournament_witness :
  exists resp resp' w1 w2,
    get_tournament_matches insertion_runtime 2024 "580" false sample_env
      (mkWorld (Some nameless_registry) []) = (Return resp, w1) /\
    get_single_match insertion_runtime 2024 "580" "ms001" false sample_env
      (mkWorld (Some nameless_registry) []) = (Return resp', w2) /\
    sm_tournament_id resp' = tm_tournament_id resp /\
    tm_tournament resp = JNull /\ sm_tournament resp' = JStr "Unknown".
Proof.
  destruct (get_tournament_matches insertion_runtime 2024 "580" false
              sample_env (mkWorld (Some nameless_registry) []))
    as [[resp|x] w1] eqn:Ea; [|vm_compute in Ea; discriminate Ea].
  destruct (get_single_match insertion_runtime 2024 "580" "ms001" false
              sample_env (mkWorld (Some nameless_registry) []))
    as [[resp'|x] w2] eqn:Es; [|vm_compute in Es; discriminate Es].
  destruct (endpoints_name_the_tournament insertion_runtime 2024 "580" "ms001"
              false false sample_env (mkWorld (Some nameless_registry) [])
              (mkWorld (Some nameless_registry) []) w1 w2 nameless_registry
              resp resp' eq_refl Ea Es) as (Hid & _ & Hdiff).
  exists resp, resp', w1, w2.
  split; [reflexivity|]. split; [reflexivity|]. split; [exact Hid|].
  apply Hdiff. vm_compute in Ea, Es.
  injection Ea as <- <-. injection Es as <- <-. discriminate.
Defined.

Lemma flattened_match_id_witness :
  exists out,
    flatten_match_data insertion_runtime (sample_match "ms001") = Return out /\
    truthy (field out "match_id")
    = _has_match_id (sample_match "ms001").
Proof.
  destruct (flatten_match_data insertion_runtime (sample_match "ms001"))
    as [out|x] eqn:E; [|vm_compute in E; discriminate E].
  exists out. split; [reflexivity|].
  exact (proj1 (proj1 (flattened_match_id insertion_runtime) _ out E)).
Defined.

Lemma flatten_match_data_shape_witness :
  is_dict (JList [JInt 1]) = false /\
  flatten_match_data insertion_runtime (JList [JInt 1]) = Return (JDict []).
Proof.
  split; [reflexivity|].
  exact (proj1 (flatten_match_data_shape insertion_runtime)
           (JList [JInt 1]) eq_refl).
Defined.

Lemma flatten_match_data_raises_witness :
  flatten_match_data insertion_runtime list_numbered_match = Raise TypeError /\
  get_single_match insertion_runtime 2024 "580" "ms001" true
    (constant_env list_numbered_match) (fresh None)
  = (Raise TypeError,
     mkWorld (Some sample_registry) [match_url 2024 "580" "ms001"]).
Proof.
  assert (Hf : flatten_match_data insertion_runtime list_numbered_match
               = Raise TypeError) by reflexivity.
  split; [exact Hf|].
  assert (Hne : "580" <> "") by discriminate.
  exact (proj2 (proj2 (flatten_match_data_raises insertion_runtime
                         insertion_runtime_perm))
           2024 "580" "ms001" (constant_env list_numbered_match)
           (fresh None) (mkWorld (Some sample_registry) []) sample_registry
           "580" list_numbered_match eq_refl eq_refl Hne eq_refl Hf).
Defined.

Lemma _get_composes_witness :
  ["Match"] <> [] /\
  _get (sample_match "ms001") (["Match"] ++ ["MatchId"]) (JStr "none")
  = JStr "ms001".
Proof.
  assert (Hne : ["Match"] <> []) by discriminate.
  split; [exact Hne|].
  exact (proj1 _get_composes ["Match"] ["MatchId"] (sample_match "ms001")
           (JStr "none") Hne).
Defined.

Lemma parse_result_string_range_witness :
  parse_result_string (JStr "64 76(7) 63")
  = Return (Some [mkParsedSet 1 6 4 None; mkParsedSet 2 7 6 (Some 7);
                  mkParsedSet 3 6 3 None]) /\
  Forall set_in_range [mkParsedSet 1 6 4 None; mkParsedSet 2 7 6 (Some 7);
                       mkParsedSet 3 6 3 None].
Proof.
  split; [reflexivity|].
  exact (proj1 (proj2 (proj1 parse_result_string_range
                         (JStr "64 76(7) 63") _ eq_refl))).
Defined.

Lemma flatten_h2h_match_sets_witness :
  (exists x,
     flatten_h2h_match [] website_match = Return x /\
     (exists sets,
        parse_result_string (get website_match "ResultString") = Return sets /\
        field x "sets" = json_of_sets sets) /\
     field x "upstream_sets" = JNull) /\
  parse_result_string (get long_tiebreak_match "ResultString")
  = Raise ValueError /\
  flatten_h2h_match [] long_tiebreak_match = Raise ValueError.
Proof.
  assert (Hp : parse_result_string (get long_tiebreak_match "ResultString")
               = Raise ValueError) by (vm_compute; reflexivity).
  split; [|split; [exact Hp|]].
  - destruct (flatten_h2h_match [] website_match) as [x|e] eqn:E;
      [|vm_compute in E; discriminate E].
    exists x. split; [reflexivity|].
    exact (proj2 (proj1 (flatten_h2h_match_sets [] website_match) x E)).
  - apply (proj1 (proj2 (flatten_h2h_match_sets [] long_tiebreak_match))
             ValueError).
    left. split; [reflexivity | exact Hp].
Defined.

Lemma flatten_h2h_matches_members_witness :
  exists ms,
    flatten_h2h_matches sample_h2h = Return ms /\
    exists a b,
      flatten_h2h_section sample_h2h "Tournaments" = Return a /\
      flatten_h2h_section sample_h2h "OtherTournaments" = Return b /\
      ms = a ++ b.
Proof.
  destruct (flatten_h2h_matches sample_h2h) as [ms|e] eqn:E;
    [|vm_compute in E; discriminate E].
  exists ms. split; [reflexivity|].
  exact (proj1 (proj2 flatten_h2h_matches_members) _ ms E).
Defined.

Lemma get_head_to_head_answers_witness :
  fst (get_head_to_head "DH58" "AB12" false (constant_env (JList []))
         (fresh None)) = Return (JList []) /\
  fst (get_head_to_head "DH58" "AB12" true (constant_env (JList []))
         (fresh None))
  = Raise (HTTPException 500 "Failed to fetch head-to-head data").
Proof.
  destruct (proj2 (proj2 (get_head_to_head_answers "DH58" "AB12"
                            (constant_env (JList [])) (fresh None)))
              (JList []) eq_refl eq_refl) as (Hraw & Hflat & _).
  split; [exact Hraw | exact (Hflat eq_refl)].
Defined.

Lemma invalid_player_code_is_400_witness :
  ~ (accepted_code "DH-58" /\ accepted_code "AB12").
Proof.
  apply (proj2 (invalid_player_code_is_400 "DH-58" "AB12" false
                  (constant_env (JList [])) (fresh None))).
  reflexivity.
Defined.

Lemma build_tournament_registry_entries_witness :
  lookup [("Name", JStr "Nameless")] "Id" = None /\
  entry_Id (entry_from_dict insertion_runtime [("Name", JStr "Nameless")])
  = "None".
Proof.
  split; [reflexivity|].
  exact (proj1 (proj2 (build_tournament_registry_entries insertion_runtime))
           [("Name", JStr "Nameless")] eq_refl).
Defined.

Lemma merge_registry_appends_witness :
  string_ids [dict_of_entry doha_entry] ["580"] /\
  merge_registry [dict_of_entry doha_entry]
    [mkEntry "580" (JStr "Qatar Open") JNull JNull JNull; dubai_entry;
     dubai_entry]
  = inr ([JDict (dict_of_entry doha_entry); JDict (dict_of_entry dubai_entry)],
         1).
Proof.
  assert (Hs : string_ids [dict_of_entry doha_entry] ["580"]).
  { split; [reflexivity|]. repeat constructor. intros []. }
  split; [exact Hs|].
  exact (proj1 (proj1 merge_registry_appends [dict_of_entry doha_entry]
                  ["580"]
                  [mkEntry "580" (JStr "Qatar Open") JNull JNull JNull;
                   dubai_entry; dubai_entry] Hs)).
Defined.

Lemma merge_registry_idempotent_witness :
  string_ids [dict_of_entry doha_entry] ["580"] /\
  merge_registry
    (as_dicts [JDict (dict_of_entry doha_entry);
               JDict (dict_of_entry dubai_entry)])
    [dubai_entry]
  = inr ([JDict (dict_of_entry doha_entry); JDict (dict_of_entry dubai_entry)],
         0).
Proof.
  assert (Hs : string_ids [dict_of_entry doha_entry] ["580"]).
  { split; [reflexivity|]. repeat constructor. intros []. }
  split; [exact Hs|].
  exact (proj1 (proj2 (proj2 (merge_registry_idempotent insertion_runtime
                                [dict_of_entry doha_entry] ["580"]
                                [dubai_entry] _ 1 Hs eq_refl)))).
Defined.

Lemma get_tournament_matches_requests_witness :
  exists resp w',
    get_tournament_matches insertion_runtime 2024 "580" false sample_env
      (mkWorld (Some nameless_registry) []) = (Return resp, w') /\
    List.length (requests w') = 21%nat.
Proof.
  destruct (get_tournament_matches insertion_runtime 2024 "580" false
              sample_env (mkWorld (Some nameless_registry) []))
    as [[resp|x] w'] eqn:E; [|vm_compute in E; discriminate E].
  exists resp, w'. split; [reflexivity|].
  destruct (get_tournament_matches_requests insertion_runtime 2024 "580" false
              sample_env (mkWorld (Some nameless_registry) []) w' resp E)
    as (tournaments & w0 & ds & Hl & Hd & ->).
  vm_compute in E. injection E as <- _.
  injection Hl as <- _. injection Hd as <-. reflexivity.
Defined.

Lemma null_draw_size_is_500_witness :
  "580" <> "" /\
  get_tournament_matches insertion_runtime 2024 "doha" true sample_env
    (mkWorld (Some null_size_registry) [])
  = (Raise TypeError, mkWorld (Some null_size_registry) []).
Proof.
  assert (Hne : "580" <> "") by discriminate.
  split; [exact Hne|].
  exact (proj1 (proj2 (proj2 (proj2 (null_draw_size_is_500 insertion_runtime)))
                  2024 "doha" true sample_env
                  (mkWorld (Some null_size_registry) [])
                  (mkWorld (Some null_size_registry) []) null_size_registry
                  "580" _ eq_refl eq_refl Hne eq_refl eq_refl)).
Defined.

Lemma get_head_to_head_upstream_errors_witness :
  fst (get_head_to_head "DH58" "AB12" true
         (mkEnv (fun _ => Responds 503 None) FileMissing) (fresh None))
  = Raise (HTTPException 502 "Upstream ATP error (status 503)").
Proof.
  destruct (get_head_to_head_upstream_errors "DH58" "AB12" true
              (mkEnv (fun _ => Responds 503 None) FileMissing) (fresh None)
              eq_refl) as (_ & H & _).
  apply (H 503 None); [reflexivity | discriminate | discriminate].
Defined.
